(** * docusaurus-plugin-llms: the generator (generator.ts) and the
    plugin (index.ts)

    A shallow embedding of the document ordering, grouping and rendering
    code of the generator, of the naming of the markdown files it writes,
    of the collection of the document files and of the locale check of
    the plugin, with the properties its specification states and others
    that the code has.

    Conventions of the embedding.
    - A JavaScript string is a [string]: one [ascii] per UTF-16 code unit,
      for code units below 256.  [String.length] is the [length] property.
    - A JavaScript number that holds a position or a counter is a [Z].
    - [undefined] and [null] are [None], but for the [position] member of
      a descriptor, where [None] is the member that is absent and nothing
      else: see [CategoryData].
    - A [Map] whose iteration order is observed is an association list in
      insertion order; a [Map] that is only queried is a [gmap].
    - What the runtime or a module outside the generator provides
      ([localeCompare], [toUpperCase], the file system, [JSON.parse],
      [path.join], [ensureUniqueIdentifier], [sanitizeForFilename],
      [createMarkdownContent]) is a [Variable] of the section that uses it. *)

From Stdlib Require Import ZArith Ascii String DecimalString DecimalZ.
From stdpp Require Import gmap strings list sorting.

(** [simpl] unfolds an append whose first argument starts with a
    constructor. *)
Arguments String.append !_ _ / : simpl nomatch.

(** ** Strings *)

Module Js.

Fixpoint dropWhile (p : ascii -> bool) (s : string) : string :=
  match s with
  | String c s' => if p c then dropWhile p s' else s
  | EmptyString => EmptyString
  end.

Fixpoint takeWhile (p : ascii -> bool) (s : string) : string :=
  match s with
  | String c s' => if p c then String c (takeWhile p s') else EmptyString
  | EmptyString => EmptyString
  end.

Fixpoint dropWhileEnd (p : ascii -> bool) (s : string) : string :=
  match s with
  | EmptyString => EmptyString
  | String c s' =>
      match dropWhileEnd p s' with
      | EmptyString => if p c then EmptyString else String c EmptyString
      | r => String c r
      end
  end.

Fixpoint all (p : ascii -> bool) (s : string) : bool :=
  match s with
  | EmptyString => true
  | String c s' => p c && all p s'
  end.

Fixpoint lastChar (s : string) : option ascii :=
  match s with
  | EmptyString => None
  | String c EmptyString => Some c
  | String _ s' => lastChar s'
  end.

Fixpoint replicate (n : nat) (c : ascii) : string :=
  match n with
  | O => EmptyString
  | S n' => String c (replicate n' c)
  end.

(** [s.split(sep)] for a one-character separator: never empty, and
    [''.split(sep)] is [['']]. *)
Fixpoint split (sep : ascii) (s : string) : list string :=
  match s with
  | EmptyString => [EmptyString]
  | String c s' =>
      if Ascii.eqb c sep then EmptyString :: split sep s'
      else match split sep s' with
           | h :: t => String c h :: t
           | [] => [String c EmptyString]
           end
  end.

(** [parts.join(sep)] *)
Definition join (sep : string) (parts : list string) : string :=
  String.concat sep parts.

(** [parts[i]] for an index within bounds *)
Definition nth (i : nat) (parts : list string) : string :=
  List.nth i parts EmptyString.

(** [s.substring(0, n)] *)
Definition substring0 (n : nat) (s : string) : string :=
  String.substring 0 n s.

(** [s.charAt(0)]: the first code unit as a string, [''] on [''] *)
Definition charAt0 (s : string) : string :=
  match s with
  | String c _ => String c EmptyString
  | EmptyString => EmptyString
  end.

(** [s.slice(1)] *)
Definition slice1 (s : string) : string :=
  match s with
  | String _ s' => s'
  | EmptyString => EmptyString
  end.

(** The white space of [\s] and of [trim] among the code units below 256:
    TAB, LF, VT, FF, CR, SP and NBSP. *)
Definition isWhiteSpace (c : ascii) : bool :=
  let n := N_of_ascii c in
  ((9 <=? n) && (n <=? 13) || (n =? 32) || (n =? 160))%N.

(** The line terminators, which [.] does not match: LF and CR. *)
Definition isLineTerminator (c : ascii) : bool :=
  let n := N_of_ascii c in ((n =? 10) || (n =? 13))%N.

Definition isSlash (c : ascii) : bool := Ascii.eqb c "/".
Definition isHash (c : ascii) : bool := Ascii.eqb c "#".

(** [s.trim()] *)
Definition trim (s : string) : string :=
  dropWhileEnd isWhiteSpace (dropWhile isWhiteSpace s).

(** [Some r] when [s] is [r] followed by [suf] *)
Fixpoint stripSuffix (suf s : string) : option string :=
  if String.eqb s suf then Some EmptyString
  else match s with
       | EmptyString => None
       | String c s' => String c <$> stripSuffix suf s'
       end.

(** [Some r] when [s] is [pre] followed by [r] *)
Fixpoint stripPrefix (pre s : string) : option string :=
  match pre, s with
  | EmptyString, _ => Some s
  | String a pre', String b s' =>
      if Ascii.eqb a b then stripPrefix pre' s' else None
  | String _ _, EmptyString => None
  end.

(** A truthy string: defined and not empty *)
Definition truthy (o : option string) : bool :=
  match o with
  | Some (String _ _) => true
  | _ => false
  end.

(** [`${n}`] for an integer [n] *)
Definition numberToString (n : Z) : string :=
  NilEmpty.string_of_int (Z.to_int n).

(** [a || b] on two strings that may be undefined *)
Definition orElse (a b : option string) : option string :=
  if truthy a then a else b.

Fixpoint mapChars (f : ascii -> ascii) (s : string) : string :=
  match s with
  | EmptyString => EmptyString
  | String c s' => String (f c) (mapChars f s')
  end.

(** The lower case of a code unit below 256: the letters A to Z, and À to
    Þ without the sign ×, move up by 32; every other code unit stays. *)
Definition lowerChar (c : ascii) : ascii :=
  let n := N_of_ascii c in
  if ((65 <=? n) && (n <=? 90)
      || (192 <=? n) && (n <=? 222) && negb (n =? 215))%N
  then ascii_of_N (n + 32)
  else c.

(** [s.toLowerCase()]: on code units below 256 it stays below 256, one code
    unit for one *)
Definition toLowerCase (s : string) : string := mapChars lowerChar s.

(** [s.endsWith('/')] *)
Definition endsWithSlash (s : string) : bool :=
  match lastChar s with
  | Some c => isSlash c
  | None => false
  end.

(** [s.slice(0, -1)] *)
Fixpoint dropLast (s : string) : string :=
  match s with
  | EmptyString => EmptyString
  | String _ EmptyString => EmptyString
  | String c s' => String c (dropLast s')
  end.

End Js.

(** ** The regular expressions of the generator, each as the function its
    [replace] or [match] computes *)

Module Re.
Import Js.

(** [s.replace(/^\/+|\/+$/g, '')]: the first alternative removes the run
    of slashes at the start, the second the run that reaches the end. *)
Definition stripSlashes (s : string) : string :=
  dropWhileEnd isSlash (dropWhile isSlash s).

(** [s.replace(/^\/+/, '')] *)
Definition stripLeadingSlashes (s : string) : string :=
  dropWhile isSlash s.

(** [s.replace(/\.mdx?$/, '')] *)
Definition stripMdxExt (s : string) : string :=
  match stripSuffix ".mdx" s with
  | Some r => r
  | None => match stripSuffix ".md" s with
            | Some r => r
            | None => s
            end
  end.

(** [s.replace(/\.mdx?$/, '.md')] *)
Definition forceMdExt (s : string) : string :=
  match stripSuffix ".mdx" s with
  | Some r => r +:+ ".md"
  | None => s
  end.

(** [s.replace(/\.md$/, '')] *)
Definition stripMdExt (s : string) : string :=
  match stripSuffix ".md" s with
  | Some r => r
  | None => s
  end.

(** [line.replace(/^(#+)\s+/g, '')]: the pattern is anchored, so it
    matches at most once, at index 0: the whole run of [#] and the whole
    run of white space after it. *)
Definition stripHeadingMarker (line : string) : string :=
  match line with
  | String c _ =>
      if isHash c then
        match dropWhile isHash line with
        | String w _ as r =>
            if isWhiteSpace w then dropWhile isWhiteSpace r else line
        | EmptyString => line
        end
      else line
  | EmptyString => line
  end.

(** Group 1 of [line.match(/^#+\s+(.+)$/)], [None] when there is no
    match.  [#+] takes the whole run of [#]; [\s+] takes the whole run of
    white space [ws] that follows and [.+] what remains, up to the end of
    the input; when nothing remains, [\s+] gives back its last code unit
    to [.+].  [.] matches no line terminator. *)
Definition headingMatch (line : string) : option string :=
  match line with
  | String c _ =>
      if isHash c then
        let r := dropWhile isHash line in
        let ws := takeWhile isWhiteSpace r in
        match ws, dropWhile isWhiteSpace r with
        | EmptyString, _ => None
        | String _ _, (String _ _ as rest) =>
            if all (fun c => negb (isLineTerminator c)) rest
            then Some rest else None
        | String _ (String _ _), EmptyString =>
            match lastChar ws with
            | Some l =>
                if isLineTerminator l then None
                else Some (String l EmptyString)
            | None => None
            end
        | String _ EmptyString, EmptyString => None
        end
      else None
  | EmptyString => None
  end.

(** [s.replace(/\\/g, '/')] *)
Definition backslashesToSlashes (s : string) : string :=
  mapChars (fun c => if Ascii.eqb c "\" then "/"%char else c) s.

(** A line that opens with a heading marker: a run of [#], then a run of
    white space [ws], then [rest]. *)
Definition marked (line : string) (k : nat) (ws rest : string) : Prop :=
  0 < k /\ ws <> EmptyString /\ all isWhiteSpace ws = true
  /\ line = Js.replicate k "#" +:+ ws +:+ rest.

End Re.

(** ** Category and subdirectory of a path *)

(** [extractCategoryFromPath] *)
Definition extractCategoryFromPath (docPath : string) : string :=
  let parts := Js.split "/" (Re.stripSlashes docPath) in
  if 3 <=? length parts then Js.nth 2 parts
  else if 2 <=? length parts then Js.nth 1 parts
  else "other".

(** [extractSubdirectoryFromPath] *)
Definition extractSubdirectoryFromPath (docPath docsDir : string)
  : option string :=
  let parts := Js.split "/" (Re.stripMdxExt (Re.stripSlashes docPath)) in
  if (5 <=? length parts) && String.eqb (Js.nth 0 parts) docsDir
  then Some (Js.nth 3 parts)
  else None.

(** ** Documents *)

Record FrontMatter := {
  sidebar_position : option Z;
  slug : option string;
  fm_id : option string   (* the [id] key *)
}.

Record DocInfo := {
  title : string;
  path : string;
  url : string;
  content : string;
  description : string;
  frontMatter : option FrontMatter
}.

(** [doc.frontMatter?.sidebar_position ?? 999] *)
Definition effectivePosition (doc : DocInfo) : Z :=
  default 999%Z (frontMatter doc ≫= sidebar_position).

(** ** [Array.prototype.sort]

    The sort of the language is stable and, for a consistent comparator,
    its result does not depend on the algorithm: a stable insertion sort
    stands for it.  [compareFn a b < 0] puts [a] first, [> 0] puts [b]
    first, [0] keeps the order of the input.

    For a comparator that is not consistent the language leaves the order
    to the implementation, and [arraySort] does not tell it; the result
    is a permutation of the input still.  The comparator of the
    subdirectories is not consistent when some of them have a descriptor
    and others have none.  So what is stated below of an order has a
    consistent comparator by its hypotheses, and what is stated of an
    inconsistent one is that the result is a permutation. *)

Section ArraySort.
Context {A : Type} (compareFn : A -> A -> Z).

Fixpoint insertSorted (x : A) (l : list A) : list A :=
  match l with
  | [] => [x]
  | y :: l' =>
      if (compareFn x y <=? 0)%Z then x :: l
      else y :: insertSorted x l'
  end.

Definition arraySort (l : list A) : list A := foldr insertSorted [] l.
End ArraySort.

(** ** A [Map] in insertion order, as [docsByCategory] and [docsBySubdir]

    [if (!m.has(k)) m.set(k, []); m.get(k).push(v)] *)

Section Grouping.
Context {K V : Type} `{EqDecision K}.

Fixpoint pushTo (k : K) (v : V) (m : list (K * list V)) : list (K * list V) :=
  match m with
  | [] => [(k, [v])]
  | (k', vs) :: m' =>
      if decide (k = k') then (k', vs ++ [v]) :: m'
      else (k', vs) :: pushTo k v m'
  end.

Definition groupBy (key : V -> K) (vs : list V) : list (K * list V) :=
  foldl (fun m v => pushTo (key v) v m) [] vs.

(** [m.get(k)] *)
Fixpoint mapGet (k : K) (m : list (K * list V)) : option (list V) :=
  match m with
  | [] => None
  | (k', vs) :: m' => if decide (k = k') then Some vs else mapGet k m'
  end.

(** [Array.from(m.keys())] *)
Definition mapKeys (m : list (K * list V)) : list K := m.*1.
End Grouping.

(** ** Completions: a value, or a thrown error *)

Inductive JsError := ReadError | SyntaxError | TypeError.

Inductive Completion (A : Type) :=
| Normal (a : A)
| Throw (e : JsError).
Arguments Normal {A} a.
Arguments Throw {A} e.

#[global] Instance Completion_ret : MRet Completion := @Normal.
#[global] Instance Completion_bind : MBind Completion := fun A B f m =>
  match m with
  | Normal a => f a
  | Throw e => Throw e
  end.

(** [try { body } catch { handler }] *)
Definition tryCatch {A} (body : Completion A) (handler : Completion A)
  : Completion A :=
  match body with
  | Normal a => Normal a
  | Throw _ => handler
  end.

(** [await Promise.all(xs.map(f))]: the calls are independent reads, run
    here one after the other; the first error rejects the whole. *)
Fixpoint promiseAll {A B} (f : A -> Completion B) (xs : list A)
  : Completion (list B) :=
  match xs with
  | [] => mret []
  | x :: xs' => y ← f x; ys ← promiseAll f xs'; mret (y :: ys)
  end.

(** The value of a completion, [d] when it is a throw *)
Definition valueOr {A} (d : A) (c : Completion A) : A :=
  match c with
  | Normal a => a
  | Throw _ => d
  end.

(** ** Category descriptors *)

(** [CategoryMetadata] *)
Record CategoryMetadata := {
  position : Z;
  label : option string
}.

Definition defaultMetadata : CategoryMetadata :=
  {| position := 999; label := None |}.

(** What [JSON.parse] returns for a [_category_.json], as far as the
    generator looks at it: [null]; an object, with its [position] member
    when it has one (a number, as [CategoryMetadata] types it) and its
    [label] member when it has one (a string); or any other value
    (a number, a string, a boolean, an array), which has neither member.

    The [position] of [DataObject] is [Some n] for a member that is the
    integer [n] and [None] for an object without the member, which is the
    one case in which [categoryData.position !== undefined] fails.  A
    member that is [null], a string or a fraction is kept as it is by the
    reader and is no [number]: a descriptor that has one is no value of
    this type, and nothing is stated of a site that holds one.  The
    [label] is [None] for an object without the member and for a member
    that is [null], which [categoryData.label || null] treats alike. *)
Inductive CategoryData :=
| DataNull
| DataObject (position : option Z) (label : option string)
| DataOther.

(** [categoryData.position]: reading a property of [null] throws. *)
Definition getPosition (categoryData : CategoryData) : Completion (option Z) :=
  match categoryData with
  | DataNull => Throw TypeError
  | DataObject p _ => Normal p
  | DataOther => Normal None
  end.

(** [categoryData.label] *)
Definition getLabel (categoryData : CategoryData) : Completion (option string) :=
  match categoryData with
  | DataNull => Throw TypeError
  | DataObject _ l => Normal l
  | DataOther => Normal None
  end.

Definition LF : ascii := ascii_of_nat 10.
Definition CR : ascii := ascii_of_nat 13.
Definition nl : string := String LF EmptyString.

(** [cleanDescriptionForToc] *)
Definition cleanDescriptionForToc (description : string) : string :=
  match description with
  | EmptyString => EmptyString
  | String _ _ =>
      let firstLine := Js.nth 0 (Js.split LF description) in
      let cleaned := Re.stripHeadingMarker firstLine in
      if 150 <? String.length cleaned
      then Js.substring0 147 cleaned +:+ "..."
      else cleaned
  end.

(** [generateLinkItem] *)
Definition generateLinkItem (doc : DocInfo) (includeDescription : bool)
  : string :=
  if includeDescription then
    let cleanedDescription := cleanDescriptionForToc (description doc) in
    "- [" +:+ title doc +:+ "](" +:+ url doc +:+ ")" +:+
      match cleanedDescription with
      | String _ _ => ": " +:+ cleanedDescription
      | EmptyString => EmptyString
      end
  else "- [" +:+ title doc +:+ "](" +:+ url doc +:+ ")".

Section Generator.

(** [a.localeCompare(b)] *)
Variable localeCompare : string -> string -> Z.
(** [s.toUpperCase()] *)
Variable toUpperCase : string -> string.
(** [await fs.readFile(p, 'utf8')] *)
Variable fs_readFile : string -> Completion string.
(** [JSON.parse(text)], on the text of a descriptor *)
Variable JSON_parse : string -> Completion CategoryData.
(** [path.join(a, b)] *)
Variable path_join : string -> string -> string.

(** [formatCategoryName] *)
Definition formatCategoryName (category : string) : string :=
  Js.join " "
    ((fun word => toUpperCase (Js.charAt0 word) +:+ Js.slice1 word)
       <$> Js.split "-" category).

(** The comparator of [sortDocsByPosition] *)
Definition compareDocs (a b : DocInfo) : Z :=
  let posA := effectivePosition a in
  let posB := effectivePosition b in
  if negb (posA =? posB)%Z then (posA - posB)%Z
  else localeCompare (path a) (path b).

(** [sortDocsByPosition] *)
Definition sortDocsByPosition (docs : list DocInfo) : list DocInfo :=
  arraySort compareDocs docs.

(** [readCategoryMetadata] *)
Definition readCategoryMetadata (categoryPath : string)
  : Completion (option CategoryMetadata) :=
  tryCatch
    (let categoryJsonPath := path_join categoryPath "_category_.json" in
     content ← fs_readFile categoryJsonPath;
     categoryData ← JSON_parse content;
     p ← getPosition categoryData;
     l ← getLabel categoryData;
     mret (Some {| position := default 999%Z p;
                   label := if Js.truthy l then l else None |}))
    (mret None).

(** [getCategoryMetadata] *)
Definition getCategoryMetadata (docPath siteDir docsDir : string)
  : Completion CategoryMetadata :=
  let cleanPath := Re.stripMdxExt (Re.stripSlashes docPath) in
  let pathParts := Js.split "/" cleanPath in
  if (3 <=? length pathParts) && String.eqb (Js.nth 0 pathParts) docsDir then
    let categoryDir := path_join siteDir (Js.join "/" (take 3 pathParts)) in
    metadata ← readCategoryMetadata categoryDir;
    mret (default defaultMetadata metadata)
  else if (2 <=? length pathParts) && String.eqb (Js.nth 0 pathParts) docsDir then
    let categoryDir := path_join siteDir (Js.join "/" (take 2 pathParts)) in
    metadata ← readCategoryMetadata categoryDir;
    mret (default defaultMetadata metadata)
  else mret defaultMetadata.

(** *** [generateLLMFile], links only *)

(** The comparator of [sortedCategories]; [m] is [categoryMetadataMap] *)
Definition compareCategories (m : gmap string CategoryMetadata)
    (a b : string) : Z :=
  match m !! a, m !! b with
  | Some metaA, Some metaB =>
      if negb (position metaA =? position metaB)%Z
      then (position metaA - position metaB)%Z
      else localeCompare a b
  | _, _ => localeCompare a b
  end.

(** The comparator of [subdirs.sort]; [m] is [subdirMetadataMap] *)
Definition compareSubdirs (m : gmap string CategoryMetadata)
    (a b : string) : Z :=
  match m !! a, m !! b with
  | Some metaA, Some metaB =>
      if negb (position metaA =? position metaB)%Z
      then (position metaA - position metaB)%Z
      else localeCompare a b
  | _, _ => localeCompare a b
  end.

(** The loop that fills [categoryMetadataMap]: one [getCategoryMetadata]
    per category, on the path of the first document of the category. *)
Definition readCategoryMetadataMap
    (docsByCategory : list (string * list DocInfo))
    (siteDir docsDir : option string)
  : Completion (gmap string CategoryMetadata) :=
  match siteDir, docsDir with
  | Some (String _ _ as siteDir), Some (String _ _ as docsDir) =>
      entries ← promiseAll
        (fun '(category, categoryDocs) =>
           match categoryDocs with
           | sampleDoc :: _ =>
               metadata ← getCategoryMetadata (path sampleDoc) siteDir docsDir;
               mret (category, metadata)
           | [] => Throw TypeError
           end)
        docsByCategory;
      mret (foldl (fun m '(category, metadata) => <[category := metadata]> m)
              ∅ entries)
  | _, _ => mret ∅
  end.

(** The entry that the loop sets for one category, the lookup having
    returned *)
Definition categoryEntry (siteDir docsDir : string)
    (e : string * list DocInfo) : string * CategoryMetadata :=
  (e.1, match e.2 with
        | sampleDoc :: _ =>
            valueOr defaultMetadata
              (getCategoryMetadata (path sampleDoc) siteDir docsDir)
        | [] => defaultMetadata
        end).

(** [docsDir ? extractSubdirectoryFromPath(doc.path, docsDir) : null] *)
Definition subdirOf (docsDir : option string) (doc : DocInfo)
  : option string :=
  match docsDir with
  | Some (String _ _ as docsDir) =>
      extractSubdirectoryFromPath (path doc) docsDir
  | _ => None
  end.

(** The part of the grouping loop that fills [subdirPathMap] *)
Definition collectSubdirPaths (siteDir docsDir : option string)
    (categoryDocs : list DocInfo) : list (string * string) :=
  foldl
    (fun subdirPathMap doc =>
       match subdirOf docsDir doc, siteDir, docsDir with
       | Some (String _ _ as subdir),
         Some (String _ _ as siteDir), Some (String _ _ as docsDir) =>
           if bool_decide (subdir ∈ subdirPathMap.*1) then subdirPathMap
           else
             let pathParts :=
               Js.split "/" (Re.stripMdxExt (Re.stripSlashes (path doc))) in
             if (5 <=? length pathParts)
                && String.eqb (Js.nth 0 pathParts) docsDir
             then subdirPathMap ++
                    [(subdir,
                      path_join siteDir (Js.join "/" (take 4 pathParts)))]
             else subdirPathMap
       | _, _, _ => subdirPathMap
       end)
    [] categoryDocs.

(** The reads that fill [subdirMetadataMap] *)
Definition readSubdirMetadataMap (siteDir docsDir : option string)
    (subdirPathMap : list (string * string))
  : Completion (gmap string CategoryMetadata) :=
  if Js.truthy siteDir && Js.truthy docsDir && (0 <? length subdirPathMap)
  then
    entries ← promiseAll
      (fun '(subdirName, subdirPath) =>
         metadata ← readCategoryMetadata subdirPath;
         mret (subdirName, metadata))
      subdirPathMap;
    mret (foldl (fun m '(subdirName, metadata) =>
                   match metadata with
                   | Some md => <[subdirName := md]> m
                   | None => m
                   end) ∅ entries)
  else mret ∅.

(** [metadata?.label || formatCategoryName(name)] *)
Definition displayTitle (metadata : option CategoryMetadata) (name : string)
  : string :=
  match metadata ≫= label with
  | Some (String _ _ as l) => l
  | _ => formatCategoryName name
  end.

(** The section of the root-level documents of a category, if any *)
Definition rootSections (includeDescriptionInLinks : bool)
    (docsBySubdir : list (option string * list DocInfo)) : list string :=
  let rootDocs := default [] (mapGet None docsBySubdir) in
  if 0 <? length rootDocs then
    let sortedRootDocs := sortDocsByPosition rootDocs in
    [Js.join nl
       ((fun doc => generateLinkItem doc includeDescriptionInLinks)
          <$> sortedRootDocs)]
  else [].

(** [Array.from(docsBySubdir.keys()).filter(s => s !== null)], sorted *)
Definition sortedSubdirs (subdirMetadataMap : gmap string CategoryMetadata)
    (docsBySubdir : list (option string * list DocInfo)) : list string :=
  arraySort (compareSubdirs subdirMetadataMap)
    (omap (fun s => s) (mapKeys docsBySubdir)).

(** The sections of the subdirectories of a category *)
Definition subdirSections (includeDescriptionInLinks : bool)
    (subdirMetadataMap : gmap string CategoryMetadata)
    (docsBySubdir : list (option string * list DocInfo)) : list string :=
  (fun subdir =>
     let subdirDocs := default [] (mapGet (Some subdir) docsBySubdir) in
     let sortedSubdirDocs := sortDocsByPosition subdirDocs in
     let subdirTitle := displayTitle (subdirMetadataMap !! subdir) subdir in
     let subdirItems :=
       (fun doc => generateLinkItem doc includeDescriptionInLinks)
         <$> sortedSubdirDocs in
     "### " +:+ subdirTitle +:+ nl +:+ nl +:+ Js.join nl subdirItems)
    <$> sortedSubdirs subdirMetadataMap docsBySubdir.

(** The body of [categorySectionsPromises]: the section of one category *)
Definition categorySection (siteDir docsDir : option string)
    (includeDescriptionInLinks : bool)
    (categoryMetadataMap : gmap string CategoryMetadata)
    (docsByCategory : list (string * list DocInfo))
    (category : string) : Completion string :=
  let categoryDocs := default [] (mapGet category docsByCategory) in
  let docsBySubdir := groupBy (subdirOf docsDir) categoryDocs in
  let subdirPathMap := collectSubdirPaths siteDir docsDir categoryDocs in
  subdirMetadataMap ← readSubdirMetadataMap siteDir docsDir subdirPathMap;
  let categoryTitle :=
    displayTitle (categoryMetadataMap !! category) category in
  let sections :=
    rootSections includeDescriptionInLinks docsBySubdir
      ++ subdirSections includeDescriptionInLinks subdirMetadataMap
           docsBySubdir in
  mret ("## " +:+ categoryTitle +:+ nl +:+ nl
          +:+ Js.join (nl +:+ nl) sections).

(** [sortedCategories] *)
Definition sortedCategories
    (categoryMetadataMap : gmap string CategoryMetadata)
    (docsByCategory : list (string * list DocInfo)) : list string :=
  arraySort (compareCategories categoryMetadataMap) (mapKeys docsByCategory).

Definition defaultLinksRootContent : string :=
  "This file contains links to documentation sections following "
    +:+ "the llmstxt.org standard.".

(** [customRootContent || dflt] *)
Definition rootContentOr (customRootContent : option string) (dflt : string)
  : string :=
  match customRootContent with
  | Some (String _ _ as c) => c
  | _ => dflt
  end.

(** The third argument of [createMarkdownContent] in the links-only
    branch: [`${rootContent}\n\n${categorySections.join('\n\n')}`] *)
Definition linksContent (docs : list DocInfo)
    (customRootContent siteDir docsDir : option string)
    (includeDescriptionInLinks : bool) : Completion string :=
  let docsByCategory :=
    groupBy (fun doc => extractCategoryFromPath (path doc)) docs in
  categoryMetadataMap ←
    readCategoryMetadataMap docsByCategory siteDir docsDir;
  categorySections ← promiseAll
    (categorySection siteDir docsDir includeDescriptionInLinks
       categoryMetadataMap docsByCategory)
    (sortedCategories categoryMetadataMap docsByCategory);
  let rootContent := rootContentOr customRootContent defaultLinksRootContent in
  mret (rootContent +:+ nl +:+ nl +:+ Js.join (nl +:+ nl) categorySections).

(** *** [generateLLMFile], full content *)

(** [ensureUniqueIdentifier(base, used, fallback)] of the utilities: the
    name it returns, and the set it leaves behind *)
Variable ensureUniqueIdentifier :
  string -> gset string -> (Z -> string -> string) -> string * gset string.

(** The fallback that [generateLLMFile] hands to [ensureUniqueIdentifier] *)
Definition headerFallback (doc : DocInfo) (counter : Z) (base : string)
  : string :=
  let numbered := "(" +:+ Js.numberToString counter +:+ ")" in
  match path doc with
  | String _ _ =>
      if (counter =? 2)%Z then
        let pathParts := Js.split "/" (path doc) in
        let folderName :=
          if 1 <? length pathParts
          then Js.nth (length pathParts - 2) pathParts
          else EmptyString in
        match folderName with
        | String _ _ =>
            "(" +:+ toUpperCase (Js.charAt0 folderName)
                +:+ Js.slice1 folderName +:+ ")"
        | EmptyString => numbered
        end
      else numbered
  | EmptyString => numbered
  end.

(** [firstHeadingText]: the trimmed text of the heading that opens the
    trimmed content, if it opens with one *)
Definition firstHeadingText (doc : DocInfo) : option string :=
  let trimmedContent := Js.trim (content doc) in
  let firstLine := Js.nth 0 (Js.split LF trimmedContent) in
  Js.trim <$> Re.headingMatch firstLine.

(** [trimmedContent.split('\n').slice(1).join('\n')] *)
Definition restOfContent (doc : DocInfo) : string :=
  Js.join nl (tail (Js.split LF (Js.trim (content doc)))).

(** The callback of [docs.map] in the full-content branch: the section of
    one document and the headers used after it *)
Definition fullContentSection (doc : DocInfo) (usedHeaders : gset string)
  : string * gset string :=
  let '(uniqueHeader, usedHeaders) :=
    ensureUniqueIdentifier (title doc) usedHeaders (headerFallback doc) in
  if decide (firstHeadingText doc = Some (title doc)) then
    if negb (String.eqb uniqueHeader (title doc)) then
      ("## " +:+ uniqueHeader +:+ nl +:+ nl +:+ restOfContent doc,
       usedHeaders)
    else
      ("## " +:+ uniqueHeader +:+ nl +:+ nl +:+ restOfContent doc,
       usedHeaders)
  else
    ("## " +:+ uniqueHeader +:+ nl +:+ nl +:+ content doc, usedHeaders).

(** [fullContentSections] *)
Fixpoint fullContentSections (docs : list DocInfo)
    (usedHeaders : gset string) : list string :=
  match docs with
  | [] => []
  | doc :: docs' =>
      let '(section, usedHeaders) := fullContentSection doc usedHeaders in
      section :: fullContentSections docs' usedHeaders
  end.

Definition defaultFullRootContent : string :=
  "This file contains all documentation content in a single document "
    +:+ "following the llmstxt.org standard.".

Definition sectionSeparator : string := nl +:+ nl +:+ "---" +:+ nl +:+ nl.

(** The third argument of [createMarkdownContent] in the full-content
    branch *)
Definition fullContent (docs : list DocInfo)
    (customRootContent : option string) : string :=
  rootContentOr customRootContent defaultFullRootContent +:+ nl +:+ nl
    +:+ Js.join sectionSeparator (fullContentSections docs ∅).

(** *** [generateLLMFile] *)

(** [createMarkdownContent(title, description, content, includeMetadata)]
    of the utilities *)
Variable createMarkdownContent : string -> string -> string -> bool -> string.

(** [generateLLMFile]: the path and the text it hands to [writeFile] *)
Definition generateLLMFile (docs : list DocInfo)
    (outputPath fileTitle fileDescription : string)
    (includeFullContent : bool)
    (version customRootContent siteDir docsDir : option string)
    (includeDescriptionInLinks : bool) : Completion (string * string) :=
  let versionInfo :=
    match version with
    | Some (String _ _ as v) => nl +:+ nl +:+ "Version: " +:+ v
    | _ => EmptyString
    end in
  body ←
    (if includeFullContent then mret (fullContent docs customRootContent)
     else linksContent docs customRootContent siteDir docsDir
            includeDescriptionInLinks);
  mret (outputPath,
        createMarkdownContent fileTitle (fileDescription +:+ versionInfo)
          body true).

(** *** [generateIndividualMarkdownFiles]: the relative path of a document *)

(** [sanitizeForFilename(input, fallback)] of the utilities *)
Variable sanitizeForFilename : string -> string -> string.

(** [pathParts = relativePath.replace(/\.md$/, '').split('/');
     pathParts[pathParts.length - 1] = name;
     relativePath = pathParts.join('/') + '.md'] *)
Definition replaceLastSegment (relativePath name : string) : string :=
  let pathParts := Js.split "/" (Re.stripMdExt relativePath) in
  Js.join "/" (<[length pathParts - 1 := name]> pathParts) +:+ ".md".

(** The path derived from [doc.path]: leading slashes removed, [.md]
    forced, the [docsDir] prefix removed *)
Definition derivedRelativePath (doc : DocInfo) (docsDir : string) : string :=
  let relativePath := Re.forceMdExt (Re.stripLeadingSlashes (path doc)) in
  default relativePath (Js.stripPrefix (docsDir +:+ "/") relativePath).

(** [relativePath] after the slug and id branches *)
Definition namedRelativePath (doc : DocInfo) (docsDir : string) : string :=
  let relativePath := derivedRelativePath doc docsDir in
  match frontMatter doc ≫= slug with
  | Some (String _ _ as slug) =>
      replaceLastSegment relativePath (Re.stripSlashes slug)
  | _ =>
      match frontMatter doc ≫= fm_id with
      | Some (String _ _ as id) => replaceLastSegment relativePath id
      | _ => relativePath
      end
  end.

(** [relativePath] as it enters the loop that makes it unique *)
Definition candidateRelativePath (doc : DocInfo) (docsDir : string)
  : string :=
  let relativePath := namedRelativePath doc docsDir in
  if decide (relativePath = EmptyString ∨ relativePath = ".md")
  then sanitizeForFilename (title doc) "untitled" +:+ ".md"
  else relativePath.

End Generator.

(** ** [generateIndividualMarkdownFiles] *)

(** The candidate of the loop that makes a path unique, for [counter]:
    [pathParts = relativePath.split('.');
     extension = pathParts.pop() || 'md';
     basePath = pathParts.join('.');
     `${basePath}-${counter}.${extension}`] *)
Definition numberedPath (relativePath : string) (counter : Z) : string :=
  let pathParts := Js.split "." relativePath in
  let extension :=
    match last pathParts with
    | Some (String _ _ as e) => e
    | _ => "md"
    end in
  let basePath := Js.join "." (removelast pathParts) in
  basePath +:+ "-" +:+ Js.numberToString counter +:+ "." +:+ extension.

(** [while (usedPaths.has(uniquePath.toLowerCase())) { counter++; ... }]:
    the path the loop leaves in [uniquePath], [None] when it has not left
    the loop after [fuel] rounds *)
Fixpoint uniquePathLoop (fuel : nat) (usedPaths : gset string)
    (relativePath : string) (counter : Z) (uniquePath : string)
  : option string :=
  if bool_decide (Js.toLowerCase uniquePath ∈ usedPaths) then
    match fuel with
    | O => None
    | S fuel' =>
        uniquePathLoop fuel' usedPaths relativePath (counter + 1)
          (numberedPath relativePath (counter + 1))
    end
  else Some uniquePath.

(** What one round of the loop over the documents produces: the unique
    relative path, the file that is written and the updated document *)
Record MarkdownFile := {
  uniquePath : string;
  fullPath : string;
  markdownContent : string;
  updatedDoc : DocInfo
}.

Section IndividualMarkdownFiles.

(** [sanitizeForFilename(input, fallback)] of the utilities *)
Variable sanitizeForFilename : string -> string -> string.
(** [path.join(a, b)] *)
Variable path_join : string -> string -> string.
(** The text of the file of a document: [createMarkdownContent] of the
    utilities, on the title, the description, the content and the
    frontmatter keys to keep *)
Variable markdownText : DocInfo -> list string -> string.

(** The body of [for (const doc of docs)]; [usedPaths] comes in and goes
    out.  The loop on [uniquePath] gets one round more than there are used
    paths. *)
Definition markdownFileOf (outputDir siteUrl docsDir : string)
    (keepFrontMatter : list string) (usedPaths : gset string) (doc : DocInfo)
  : option (MarkdownFile * gset string) :=
  let relativePath := candidateRelativePath sanitizeForFilename doc docsDir in
  uniquePath ←
    uniquePathLoop (S (size usedPaths)) usedPaths relativePath 1 relativePath;
  let usedPaths := {[Js.toLowerCase uniquePath]} ∪ usedPaths in
  let fullPath := path_join outputDir uniquePath in
  let urlPath := Re.backslashesToSlashes uniquePath in
  let newUrl := siteUrl +:+ "/" +:+ urlPath in
  Some ({| uniquePath := uniquePath;
           fullPath := fullPath;
           markdownContent := markdownText doc keepFrontMatter;
           updatedDoc := {| title := title doc;
                            path := "/" +:+ urlPath;
                            url := newUrl;
                            content := content doc;
                            description := description doc;
                            frontMatter := frontMatter doc |} |},
        usedPaths).

(** The loop over the documents, from the used paths [usedPaths] *)
Fixpoint markdownFilesFrom (outputDir siteUrl docsDir : string)
    (keepFrontMatter : list string) (usedPaths : gset string)
    (docs : list DocInfo) : option (list MarkdownFile) :=
  match docs with
  | [] => Some []
  | doc :: docs' =>
      '(file, usedPaths) ←
        markdownFileOf outputDir siteUrl docsDir keepFrontMatter usedPaths doc;
      files ←
        markdownFilesFrom outputDir siteUrl docsDir keepFrontMatter usedPaths
          docs';
      Some (file :: files)
  end.

(** [generateIndividualMarkdownFiles]: the files it writes, each with the
    updated document; [updatedDocs] is their [updatedDoc] *)
Definition generateIndividualMarkdownFiles (docs : list DocInfo)
    (outputDir siteUrl docsDir : string) (keepFrontMatter : list string)
  : option (list MarkdownFile) :=
  markdownFilesFrom outputDir siteUrl docsDir keepFrontMatter ∅ docs.

End IndividualMarkdownFiles.

(** ** [collectDocFiles] *)

Section CollectDocFiles.

(** [await fs.access(p)] *)
Variable fs_access : string -> Completion unit.
(** [readMarkdownFiles(dir, baseDir, ignorePatterns)] of the utilities *)
Variable readMarkdownFiles :
  string -> string -> list string -> Completion (list string).
(** [path.join(a, b)] *)
Variable path_join : string -> string -> string.

(** One [try { await fs.access(dir); files = await readMarkdownFiles(...);
    allDocFiles.push(...files) } catch { console.warn(...) }]: the files
    that are pushed *)
Definition collectFrom (dir siteDir : string) (ignoreFiles : list string)
  : Completion (list string) :=
  tryCatch
    (_ ← fs_access dir;
     files ← readMarkdownFiles dir siteDir ignoreFiles;
     mret files)
    (mret []).

(** [collectDocFiles] *)
Definition collectDocFiles (siteDir docsDir : string)
    (ignoreFiles : list string) (includeBlog : bool)
  : Completion (list string) :=
  let fullDocsDir := path_join siteDir docsDir in
  docFiles ← collectFrom fullDocsDir siteDir ignoreFiles;
  blogFiles ←
    (if includeBlog
     then collectFrom (path_join siteDir "blog") siteDir ignoreFiles
     else mret []);
  mret (docFiles ++ blogFiles).

End CollectDocFiles.

(** ** The plugin (index.ts) *)

Module Plugin.

(** [I18nConfig] *)
Record I18nConfig := {
  defaultLocale : string;
  locales : option (list string)
}.

(** A route, as far as the plugin reads it: its path *)
Record RouteConfig := { route_path : option string }.

(** The props of [postBuild], as far as the plugin reads them *)
Record Props := {
  locale : option string;
  currentLocale : option string;
  routes : option (list RouteConfig)
}.

(** Method 1 of [detectCurrentLocale]: the locale of the props *)
Definition localeOfProps (knownLocales : list string) (props : option Props)
  : option string :=
  match Js.orElse (props ≫= locale) (props ≫= currentLocale) with
  | Some (String _ _ as propsLocale) =>
      if bool_decide (propsLocale ∈ knownLocales) then Some propsLocale
      else None
  | _ => None
  end.

(** Method 2: the first segment of the path of the first route *)
Definition localeOfRoutes (knownLocales : list string) (props : option Props)
  : option string :=
  match props ≫= routes with
  | Some (firstRoute :: _) =>
      match route_path firstRoute with
      | Some (String _ _ as p) =>
          match filter (fun part => part <> EmptyString) (Js.split "/" p) with
          | first :: _ =>
              if bool_decide (first ∈ knownLocales) then Some first else None
          | [] => None
          end
      | _ => None
      end
  | _ => None
  end.

(** Method 3: the last part of [outDir]; [sep] is [path.sep] *)
Definition localeOfOutDir (knownLocales : list string) (sep : ascii)
    (outDir : string) : option string :=
  let lastPart := default EmptyString (last (Js.split sep outDir)) in
  if bool_decide (lastPart ∈ knownLocales) then Some lastPart else None.

(** [detectCurrentLocale] *)
Definition detectCurrentLocale (i18n : option I18nConfig) (sep : ascii)
    (outDir : string) (props : option Props) : option string :=
  match i18n with
  | None => None
  | Some i18n =>
      let knownLocales := default [] (locales i18n) in
      match localeOfProps knownLocales props with
      | Some l => Some l
      | None =>
          match localeOfRoutes knownLocales props with
          | Some l => Some l
          | None =>
              match localeOfOutDir knownLocales sep outDir with
              | Some l => Some l
              | None => Some (defaultLocale i18n)
              end
          end
      end
  end.

(** [siteUrl]:
    [url + (baseUrl.endsWith('/') ? baseUrl.slice(0, -1) : baseUrl || '')] *)
Definition siteUrl (url baseUrl : string) : string :=
  url +:+ (if Js.endsWithSlash baseUrl then Js.dropLast baseUrl else baseUrl).

(** How [postBuild] ends *)
Inductive Outcome :=
| SkippedLocale            (* not the default locale: returns at once *)
| NoDocuments              (* warns and returns *)
| Generated                (* both generators have run *)
| Failed (e : JsError).    (* the error is caught and logged *)

(** [currentLocale && defaultLocale && currentLocale !== defaultLocale] *)
Definition skipsLocale (i18n : option I18nConfig) (sep : ascii)
    (outDir : string) (props : option Props) : bool :=
  let currentLocale := detectCurrentLocale i18n sep outDir props in
  let defaultLocale := defaultLocale <$> i18n in
  Js.truthy currentLocale && Js.truthy defaultLocale
    && negb (bool_decide (currentLocale = defaultLocale)).

Section PostBuild.

(** [collectDocFiles(context)] *)
Variable collectDocFiles : Completion (list string).
(** [generateStandardLLMFiles(context, allDocFiles)] and
    [generateCustomLLMFiles(context, allDocFiles)] *)
Variable generateStandardLLMFiles : list string -> Completion unit.
Variable generateCustomLLMFiles : list string -> Completion unit.

(** [postBuild]: what is thrown inside [try] is caught and logged *)
Definition postBuild (i18n : option I18nConfig) (sep : ascii)
    (outDir : string) (props : option Props) : Outcome :=
  if skipsLocale i18n sep outDir props then SkippedLocale
  else
    match collectDocFiles with
    | Throw e => Failed e
    | Normal allDocFiles =>
        if length allDocFiles =? 0 then NoDocuments
        else
          match generateStandardLLMFiles allDocFiles with
          | Throw e => Failed e
          | Normal _ =>
              match generateCustomLLMFiles allDocFiles with
              | Throw e => Failed e
              | Normal _ => Generated
              end
          end
    end.

End PostBuild.

End Plugin.

(** ** A heading line

    As the specification words it: [line] is a heading whose text is
    [text] when it is a run of [#], white space, and a body that is not
    empty and is [text] once the white space at its ends is removed.  The
    carriage return that ends the lines of a document with CRLF line ends
    is white space. *)
Definition headingLine (line text : string) : Prop :=
  exists (k : nat) (ws body : string),
    Re.marked line k ws body
    /\ body <> EmptyString
    /\ Js.trim body = text.

(** What [/^#+\s+(.+)$/] and the [trim] of its group make of it: the body
    holds no line terminator besides, which a carriage return is. *)
Definition regexpHeadingLine (line text : string) : Prop :=
  exists (k : nat) (ws body : string),
    Re.marked line k ws body
    /\ body <> EmptyString
    /\ Js.all (fun c => negb (Js.isLineTerminator c)) body = true
    /\ Js.trim body = text.

(** ** The slug rule as the specification words it

    Only the trailing segment of the slug replaces the final segment of the
    path.  This follows the words of the specification, to be compared with
    [namedRelativePath], which follows the code. *)

Definition trailingSegment (slug : string) : string :=
  default EmptyString (last (Js.split "/" (Re.stripSlashes slug))).

Definition specSlugPath (relativePath slug : string) : string :=
  replaceLastSegment relativePath (trailingSegment slug).

(** ** The orders that the specification names *)

(** A comparison of strings that is a total preorder, as [localeCompare]
    is *)
Definition TotalCompare (compare : string -> string -> Z) : Prop :=
  (forall a b, (compare a b <= 0)%Z \/ (compare b a <= 0)%Z)
  /\ (forall a b c,
        (compare a b <= 0)%Z -> (compare b c <= 0)%Z -> (compare a c <= 0)%Z).

(** The position of a document as the specification words it: the
    [sidebar_position] of its frontmatter, 999 when the document has no
    frontmatter or the frontmatter has no [sidebar_position].  To be
    compared with [effectivePosition], which follows the code. *)
Definition specPosition (doc : DocInfo) : Z :=
  match frontMatter doc with
  | Some fm =>
      match sidebar_position fm with
      | Some p => p
      | None => 999
      end
  | None => 999
  end.

(** Document [a] may stand before document [b]: a smaller effective
    position, or the same position and a path that compares lower or equal *)
Definition docOrder (localeCompare : string -> string -> Z) (a b : DocInfo)
  : Prop :=
  (effectivePosition a < effectivePosition b)%Z
  \/ (effectivePosition a = effectivePosition b
      /\ (localeCompare (path a) (path b) <= 0)%Z).

(** The position of a category or subdirectory in a table of descriptors:
    that of its descriptor, 999 when it has none *)
Definition positionIn (m : gmap string CategoryMetadata) (name : string) : Z :=
  position (default defaultMetadata (m !! name)).

(** Name [a] may stand before name [b]: a smaller position, or the same
    position and a name that compares lower or equal *)
Definition nameOrder (localeCompare : string -> string -> Z)
    (m : gmap string CategoryMetadata) (a b : string) : Prop :=
  (positionIn m a < positionIn m b)%Z
  \/ (positionIn m a = positionIn m b /\ (localeCompare a b <= 0)%Z).

(** ** A concrete runtime, for running the generator on examples *)

Module Fixture.

(** Comparison of strings by code units, as [localeCompare] orders
    strings of lower-case letters and digits *)
Definition codeUnitCompare (a b : string) : Z :=
  match String.compare a b with
  | Lt => -1
  | Eq => 0
  | Gt => 1
  end.

(** [toUpperCase] on the letters a to z *)
Definition upperChar (c : ascii) : ascii :=
  let n := N_of_ascii c in
  if ((97 <=? n) && (n <=? 122))%N then ascii_of_N (n - 32) else c.

Fixpoint asciiUpperCase (s : string) : string :=
  match s with
  | EmptyString => EmptyString
  | String c s' => String (upperChar c) (asciiUpperCase s')
  end.

(** [path.join] on two relative paths that need no normalisation *)
Definition joinPath (a b : string) : string := a +:+ "/" +:+ b.

(** A file system that holds the listed files and nothing else *)
Definition readFileOf (files : list (string * string)) (p : string)
  : Completion string :=
  match list_find (fun f => f.1 = p) files with
  | Some (_, (_, text)) => Normal text
  | None => Throw ReadError
  end.

(** [JSON.parse] on the texts of the examples; [{position:n}] stands for
    the JSON object whose only member is [position], of value [n] *)
Definition parseDescriptor (text : string) : Completion CategoryData :=
  if String.eqb text "{position:0}" then Normal (DataObject (Some 0%Z) None)
  else if String.eqb text "{position:1}" then Normal (DataObject (Some 1%Z) None)
  else if String.eqb text "null" then Normal DataNull
  else Throw SyntaxError.

Definition doc (title path : string) (pos : option Z) : DocInfo :=
  {| title := title; path := path; url := "https://example.com/" +:+ path;
     content := EmptyString; description := EmptyString;
     frontMatter := Some {| sidebar_position := pos; slug := None;
                            fm_id := None |} |}.

(** The documents and descriptors of the end-to-end scenario *)
Definition scenarioDocs : list DocInfo :=
  [ doc "X" "docs/a/cat1/x" (Some 2%Z);
    doc "Y" "docs/a/cat1/y" (Some 1%Z);
    doc "Z" "docs/a/cat2/z" None ].

Definition scenarioFiles : list (string * string) :=
  [ ("site/docs/a/cat1/_category_.json", "{position:1}");
    ("site/docs/a/cat2/_category_.json", "{position:0}") ].

(** Documents for the order of documents: two of position 2, one of
    position 1 whose path comes last, one whose frontmatter has no
    position and one without frontmatter *)
Definition docB2 : DocInfo := doc "B" "docs/b" (Some 2%Z).
Definition docA2 : DocInfo := doc "A" "docs/a" (Some 2%Z).
Definition docZ1 : DocInfo := doc "Z" "docs/z" (Some 1%Z).
Definition docM : DocInfo :=
  {| title := "M"; path := "docs/m"; url := "https://example.com/docs/m";
     content := EmptyString; description := EmptyString;
     frontMatter := None |}.
Definition docC : DocInfo := doc "C" "docs/c" None.

Definition positionedDocs : list DocInfo := [docM; docB2; docC; docA2; docZ1].

(** A site where the category [beta] has a descriptor, of position 1, and
    the category [alpha] has none *)
Definition mixedDocs : list DocInfo :=
  [ doc "X" "docs/a/alpha/x" None; doc "Y" "docs/a/beta/y" None ].

Definition mixedFiles : list (string * string) :=
  [ ("site/docs/a/beta/_category_.json", "{position:1}") ].

(** A document with CRLF line ends whose first line is the heading of its
    title *)
Definition crlfDoc : DocInfo :=
  {| title := "Title"; path := "docs/title.md";
     url := "https://example.com/docs/title";
     content := "# Title" +:+ String CR (String LF "Body");
     description := EmptyString; frontMatter := None |}.

End Fixture.

(** * Properties *)

(** ** Strings *)

Module JsFacts.
Import Js.

Abbreviation chars := list_ascii_of_string.

Lemma append_nil_r (s : string) : s +:+ EmptyString = s.
Proof. induction s; simpl; congruence. Qed.

Lemma append_assoc (a b c : string) : (a +:+ b) +:+ c = a +:+ b +:+ c.
Proof. induction a; simpl; congruence. Qed.

Lemma length_append (a b : string) :
  String.length (a +:+ b) = String.length a + String.length b.
Proof. induction a; simpl; congruence. Qed.

Lemma chars_append (a b : string) : chars (a +:+ b) = chars a ++ chars b.
Proof. induction a; simpl; congruence. Qed.

Lemma chars_inj (a b : string) : chars a = chars b -> a = b.
Proof.
  intros H. rewrite <- (string_of_list_ascii_of_string a), H.
  apply string_of_list_ascii_of_string.
Qed.

Lemma chars_replicate (n : nat) (c : ascii) :
  chars (Js.replicate n c) = List.repeat c n.
Proof. induction n; simpl; congruence. Qed.

Lemma all_Forall (p : ascii -> bool) (s : string) :
  all p s = true <-> Forall (fun c => p c = true) (chars s).
Proof.
  induction s as [|c s IH]; simpl.
  - split; auto.
  - rewrite andb_true_iff, IH, Forall_cons. tauto.
Qed.

Lemma all_append (p : ascii -> bool) (a b : string) :
  all p (a +:+ b) = all p a && all p b.
Proof. induction a; simpl; [done|]. by rewrite IHa, andb_assoc. Qed.

Lemma takeWhile_dropWhile (p : ascii -> bool) (s : string) :
  takeWhile p s +:+ dropWhile p s = s.
Proof.
  induction s as [|c s IH]; simpl; [done|].
  destruct (p c); simpl; congruence.
Qed.

Lemma all_takeWhile (p : ascii -> bool) (s : string) :
  all p (takeWhile p s) = true.
Proof.
  induction s as [|c s IH]; simpl; [done|].
  destruct (p c) eqn:E; simpl; [by rewrite E|done].
Qed.

Lemma dropWhile_head (p : ascii -> bool) (s : string) (c : ascii) (r : string) :
  dropWhile p s = String c r -> p c = false.
Proof.
  induction s as [|d s IH]; simpl; [done|].
  destruct (p d) eqn:E; [done|]. intros [= -> ->]. done.
Qed.

(** What [takeWhile] and [dropWhile] return is the only way to cut a string
    into a run that satisfies [p] and a rest that does not start with one
    more. *)
Lemma span_unique (p : ascii -> bool) (a b : string) :
  all p a = true ->
  (forall c r, b = String c r -> p c = false) ->
  takeWhile p (a +:+ b) = a /\ dropWhile p (a +:+ b) = b.
Proof.
  intros Ha Hb. induction a as [|c a IH]; simpl in *.
  - destruct b as [|c r]; simpl; [done|]. by rewrite (Hb c r eq_refl).
  - apply andb_true_iff in Ha as [-> Ha]. destruct (IH Ha) as [-> ->]. done.
Qed.

Lemma dropWhile_all (p : ascii -> bool) (s : string) :
  all p s = true -> dropWhile p s = EmptyString.
Proof.
  induction s as [|c s IH]; simpl; [done|].
  intros [-> H]%andb_true_iff. auto.
Qed.

Lemma all_replicate (p : ascii -> bool) (n : nat) (c : ascii) :
  p c = true -> all p (Js.replicate n c) = true.
Proof. intros H. induction n; simpl; [done|]. by rewrite H. Qed.

Lemma all_eqb_replicate (c : ascii) (s : string) :
  all (fun x => Ascii.eqb x c) s = true ->
  s = Js.replicate (String.length s) c.
Proof.
  induction s as [|d s IH]; simpl; [done|].
  intros [->%Ascii.eqb_eq H]%andb_true_iff. f_equal. auto.
Qed.

Lemma dropWhileEnd_split (p : ascii -> bool) (s : string) :
  exists t, s = dropWhileEnd p s +:+ t /\ all p t = true.
Proof.
  induction s as [|c s (t & IH & Ht)]; simpl.
  - by exists EmptyString.
  - destruct (dropWhileEnd p s) as [|d r] eqn:E.
    + simpl in IH. subst t. destruct (p c) eqn:Hc.
      * exists (String c s). simpl. by rewrite Hc.
      * exists s. done.
    + exists t. split; [|done]. simpl in *. congruence.
Qed.

Lemma dropWhileEnd_last (p : ascii -> bool) (s : string) (c : ascii) :
  lastChar (dropWhileEnd p s) = Some c -> p c = false.
Proof.
  induction s as [|d s IH]; simpl; [done|].
  destruct (dropWhileEnd p s) as [|e r] eqn:E.
  - destruct (p d) eqn:Hd; simpl; [done|]. by intros [= <-].
  - simpl. intros H. apply IH. done.
Qed.

Lemma dropWhileEnd_head (p : ascii -> bool) (s : string) (c : ascii) (r : string) :
  dropWhileEnd p s = String c r -> exists r', s = String c r'.
Proof.
  destruct s as [|d s]; simpl; [done|].
  destruct (dropWhileEnd p s); [destruct (p d)|]; intros [= -> <-]; eauto.
Qed.

Lemma lastChar_last (s : string) : lastChar s = last (chars s).
Proof.
  induction s as [|c s IH]; simpl; [done|].
  destruct s as [|d s]; [done|]. simpl in *. done.
Qed.

Lemma lastChar_append_char (s : string) (c : ascii) :
  lastChar (s +:+ String c EmptyString) = Some c.
Proof.
  induction s as [|d s IH]; simpl; [done|].
  destruct (s +:+ String c EmptyString) eqn:E; [by destruct s|done].
Qed.

Lemma split_nonempty (sep : ascii) (s : string) : split sep s <> [].
Proof.
  induction s as [|c s IH]; simpl; [done|].
  destruct (Ascii.eqb c sep); [done|]. by destruct (split sep s).
Qed.

Lemma length_split_pos (sep : ascii) (s : string) : 0 < length (split sep s).
Proof.
  pose proof (split_nonempty sep s). destruct (split sep s); simpl; [done|lia].
Qed.

Lemma join_split (sep : ascii) (s : string) :
  join (String sep EmptyString) (split sep s) = s.
Proof.
  unfold join. induction s as [|c s IH]; simpl; [done|].
  destruct (Ascii.eqb c sep) eqn:E.
  - apply Ascii.eqb_eq in E as ->.
    pose proof (split_nonempty sep s).
    destruct (split sep s) as [|h t]; [done|]. simpl in *. by rewrite IH.
  - destruct (split sep s) as [|h t] eqn:Hs; [by destruct (split_nonempty sep s)|].
    simpl in *. destruct t; simpl in *; by rewrite <- IH.
Qed.

Lemma split_no_sep (sep : ascii) (s : string) :
  Forall (fun part => sep ∉ chars part) (split sep s).
Proof.
  induction s as [|c s IH]; simpl.
  - repeat constructor. simpl. apply not_elem_of_nil.
  - destruct (Ascii.eqb c sep) eqn:E.
    + constructor; [simpl; apply not_elem_of_nil|done].
    + pose proof (split_nonempty sep s) as Hne.
      destruct (split sep s) as [|h t]; [done|].
      apply Forall_cons in IH as [Hh Ht]. constructor; [|done].
      simpl. rewrite not_elem_of_cons. split; [|done].
      intros ->. by rewrite Ascii.eqb_refl in E.
Qed.

(** The parts of [split] are determined by what they join to. *)
Lemma split_join_unique (sep : ascii) (parts : list string) :
  parts <> [] ->
  Forall (fun part => sep ∉ chars part) parts ->
  split sep (join (String sep EmptyString) parts) = parts.
Proof.
  unfold join. induction parts as [|h t IH]; [done|]. intros _ H.
  apply Forall_cons in H as [Hh Ht].
  destruct t as [|h' t].
  - simpl. clear IH Ht. induction h as [|c h IHh]; simpl; [done|].
    simpl in Hh. apply not_elem_of_cons in Hh as [Hc Hh].
    destruct (Ascii.eqb c sep) eqn:E; [apply Ascii.eqb_eq in E; congruence|].
    by rewrite (IHh Hh).
  - specialize (IH ltac:(done) Ht).
    change (String.concat (String sep EmptyString) (h :: h' :: t))
      with (h +:+ String sep (String.concat (String sep EmptyString) (h' :: t))).
    remember (String.concat (String sep EmptyString) (h' :: t)) as rest.
    clear Heqrest. induction h as [|c h IHh]; simpl.
    + rewrite Ascii.eqb_refl. by rewrite IH.
    + simpl in Hh. apply not_elem_of_cons in Hh as [Hc Hh].
      destruct (Ascii.eqb c sep) eqn:E; [apply Ascii.eqb_eq in E; congruence|].
      by rewrite (IHh Hh).
Qed.

Lemma stripSuffix_Some (suf s r : string) :
  stripSuffix suf s = Some r <-> s = r +:+ suf.
Proof.
  revert r. induction s as [|c s IH]; intros r.
  - simpl. destruct suf as [|d suf]; simpl.
    + split; [by intros [= <-]|]. destruct r; [done|discriminate].
    + split; [done|]. destruct r; discriminate.
  - cbn [stripSuffix]. destruct (String.eqb_spec (String c s) suf) as [<-|Hne].
    + split; [by intros [= <-]|].
      intros H. apply (f_equal String.length) in H.
      rewrite length_append in H. destruct r; [done|simpl in H; lia].
    + split.
      * destruct (stripSuffix suf s) as [r'|] eqn:E; simpl; [|done].
        intros [= <-]. simpl. by rewrite <- (proj1 (IH r') eq_refl).
      * destruct r as [|d r]; simpl; [congruence|].
        intros [= <- H]. apply IH in H. by rewrite H.
Qed.

End JsFacts.

(** ** The regular expressions *)

Module ReFacts.
Import Js JsFacts.

(** [stripSlashes] removes a run of slashes at each end, and what is left
    neither starts nor ends with a slash. *)
Lemma stripSlashes_spec (s : string) :
  exists lead trail : nat,
    s = Js.replicate lead "/" +:+ Re.stripSlashes s +:+ Js.replicate trail "/"
    /\ head (chars (Re.stripSlashes s)) <> Some "/"%char
    /\ last (chars (Re.stripSlashes s)) <> Some "/"%char.
Proof.
  unfold Re.stripSlashes.
  destruct (dropWhileEnd_split isSlash (dropWhile isSlash s)) as (t & Ht & Hall).
  exists (String.length (takeWhile isSlash s)), (String.length t).
  split; [|split].
  - rewrite <- (all_eqb_replicate "/" (takeWhile isSlash s))
      by apply all_takeWhile.
    rewrite <- (all_eqb_replicate "/" t) by done.
    rewrite <- Ht. by rewrite takeWhile_dropWhile.
  - destruct (dropWhileEnd isSlash (dropWhile isSlash s)) as [|c r] eqn:E;
      [done|]. simpl. intros [= ->].
    apply dropWhileEnd_head in E as [r' E].
    by apply dropWhile_head in E.
  - rewrite <- lastChar_last. intros H.
    by apply dropWhileEnd_last in H.
Qed.

(** [stripMdxExt] removes a final [.mdx] or [.md], and nothing else. *)
Lemma stripMdxExt_spec (s : string) :
  s = Re.stripMdxExt s +:+ ".mdx"
  \/ s = Re.stripMdxExt s +:+ ".md"
  \/ (Re.stripMdxExt s = s
      /\ forall r, s <> r +:+ ".mdx" /\ s <> r +:+ ".md").
Proof.
  unfold Re.stripMdxExt.
  destruct (stripSuffix ".mdx" s) as [r|] eqn:E1.
  { left. by apply stripSuffix_Some. }
  destruct (stripSuffix ".md" s) as [r|] eqn:E2.
  { right; left. by apply stripSuffix_Some. }
  right; right. split; [done|]. intros r. split; intros H.
  - apply stripSuffix_Some in H. congruence.
  - apply stripSuffix_Some in H. congruence.
Qed.

Lemma isWhiteSpace_not_hash (c : ascii) :
  isWhiteSpace c = true -> isHash c = false.
Proof.
  intros H. destruct (isHash c) eqn:E; [|done].
  apply Ascii.eqb_eq in E as ->. discriminate H.
Qed.

Lemma dropWhile_empty_all (p : ascii -> bool) (s : string) :
  dropWhile p s = EmptyString -> all p s = true.
Proof.
  induction s as [|c s IH]; simpl; [done|].
  destruct (p c); [auto|done].
Qed.

Lemma length_replicate (n : nat) (c : ascii) :
  String.length (Js.replicate n c) = n.
Proof. induction n; simpl; congruence. Qed.

(** On a marked line, the run of [#] and the run of white space are what
    [takeWhile] and [dropWhile] find. *)
Lemma marked_spans (line : string) (k : nat) (ws rest : string) :
  Re.marked line k ws rest ->
  exists c l, line = String c l /\ isHash c = true
    /\ dropWhile isHash line = ws +:+ rest
    /\ exists w r, ws +:+ rest = String w r /\ isWhiteSpace w = true.
Proof.
  intros (Hk & Hws & Hall & ->).
  destruct ws as [|w ws]; [done|]. simpl in Hall.
  apply andb_true_iff in Hall as [Hw Hall].
  destruct k as [|k]; [lia|].
  eexists _, _. split; [simpl; reflexivity|]. split; [done|]. split.
  - apply (span_unique isHash (Js.replicate (S k) "#")).
    + by apply all_replicate.
    + simpl. intros c r [= <- _]. by apply isWhiteSpace_not_hash.
  - simpl. eauto.
Qed.

(** [stripHeadingMarker] removes the marker of a marked line, with all the
    white space after it, and leaves any other line as it is. *)
Lemma stripHeadingMarker_spec (line : string) :
  (exists k ws,
      Re.marked line k ws (Re.stripHeadingMarker line)
      /\ forall c r, Re.stripHeadingMarker line = String c r ->
                     isWhiteSpace c = false)
  \/ (Re.stripHeadingMarker line = line
      /\ forall k ws rest, ~ Re.marked line k ws rest).
Proof.
  unfold Re.stripHeadingMarker.
  destruct line as [|c l] eqn:Hline.
  { right. split; [done|]. intros k ws rest (Hk & _ & _ & H).
    destruct k; [lia|]. discriminate H. }
  rewrite <- Hline.
  destruct (isHash c) eqn:Hc.
  2:{ right. split; [done|]. intros k ws rest Hm.
      apply marked_spans in Hm as (c' & l' & E & Hc' & _). congruence. }
  destruct (dropWhile isHash line) as [|w r] eqn:Hd.
  { right. split; [done|]. intros k ws rest Hm.
    apply marked_spans in Hm as (_ & _ & _ & _ & E & w & r & Hw & _).
    congruence. }
  destruct (isWhiteSpace w) eqn:Hw.
  2:{ right. split; [done|]. intros k ws rest Hm.
      apply marked_spans in Hm as (_ & _ & _ & _ & E & w' & r' & Hw' & Hs).
      congruence. }
  left. exists (String.length (takeWhile isHash line)),
    (takeWhile isWhiteSpace (String w r)).
  split.
  - split; [|split; [|split]].
    + subst line. simpl. rewrite Hc. simpl. lia.
    + simpl. by rewrite Hw.
    + apply all_takeWhile.
    + rewrite <- (all_eqb_replicate "#" (takeWhile isHash line))
        by apply all_takeWhile.
      rewrite takeWhile_dropWhile, <- Hd. by rewrite takeWhile_dropWhile.
  - intros c' r' E. by apply dropWhile_head in E.
Qed.

Lemma split_head_spec (sep : ascii) (s : string) :
  (sep ∉ chars (Js.nth 0 (split sep s)))
  /\ (s = Js.nth 0 (split sep s)
      \/ exists rest, s = Js.nth 0 (split sep s) +:+ String sep rest).
Proof.
  pose proof (split_no_sep sep s) as Hno.
  pose proof (join_split sep s) as Hj.
  pose proof (split_nonempty sep s) as Hne.
  destruct (split sep s) as [|h t]; [done|].
  apply Forall_cons in Hno as [Hh _]. split; [done|]. simpl.
  unfold join in Hj. destruct t as [|h' t]; simpl in Hj; [by left|].
  right. eauto.
Qed.

Lemma substring0_spec (n : nat) (s : string) :
  n <= String.length s ->
  exists dropped, s = substring0 n s +:+ dropped
                  /\ String.length (substring0 n s) = n.
Proof.
  unfold substring0. revert n. induction s as [|c s IH]; intros n Hn.
  - simpl in Hn. assert (n = 0) as -> by lia. by exists EmptyString.
  - destruct n as [|n]; simpl.
    + by exists (String c s).
    + simpl in Hn. destruct (IH n ltac:(lia)) as (d & Hd & Hl).
      exists d. split; [congruence|]. by rewrite Hl.
Qed.

Lemma takeWhile_append_all (p : ascii -> bool) (a b : string) :
  all p a = true -> takeWhile p (a +:+ b) = a +:+ takeWhile p b.
Proof.
  induction a as [|c a IH]; simpl; [done|].
  intros [-> H]%andb_true_iff. by rewrite IH.
Qed.

Lemma dropWhile_append_all (p : ascii -> bool) (a b : string) :
  all p a = true -> dropWhile p (a +:+ b) = dropWhile p b.
Proof.
  induction a as [|c a IH]; simpl; [done|].
  intros [-> H]%andb_true_iff. by rewrite IH.
Qed.

Lemma takeWhile_all (p : ascii -> bool) (s : string) :
  all p s = true -> takeWhile p s = s.
Proof.
  induction s as [|c s IH]; simpl; [done|].
  intros [-> H]%andb_true_iff. by rewrite IH.
Qed.

Lemma all_dropWhile (p q : ascii -> bool) (s : string) :
  all p s = true -> all p (dropWhile q s) = true.
Proof.
  induction s as [|c s IH]; simpl; [done|].
  intros [Hc H]%andb_true_iff. destruct (q c); [auto|].
  simpl. by rewrite Hc, H.
Qed.

Lemma dropWhile_idem (p : ascii -> bool) (s : string) :
  dropWhile p (dropWhile p s) = dropWhile p s.
Proof.
  induction s as [|c s IH]; simpl; [done|].
  destruct (p c) eqn:E; [done|]. simpl. by rewrite E.
Qed.

Lemma dropWhileEnd_all (p : ascii -> bool) (s : string) :
  all p s = true -> dropWhileEnd p s = EmptyString.
Proof.
  induction s as [|c s IH]; simpl; [done|].
  intros [-> H]%andb_true_iff. by rewrite IH.
Qed.

Lemma trim_dropWhile (s : string) :
  trim (dropWhile isWhiteSpace s) = trim s.
Proof. unfold trim. by rewrite dropWhile_idem. Qed.

Lemma trim_all_whiteSpace (s : string) :
  all isWhiteSpace s = true -> trim s = EmptyString.
Proof.
  intros H. unfold trim. by rewrite (dropWhile_all _ _ H).
Qed.

Lemma lastChar_snoc (s : string) (l : ascii) :
  lastChar s = Some l -> exists init, s = init +:+ String l EmptyString.
Proof.
  induction s as [|c s IH]; simpl; [done|].
  destruct s as [|d s].
  - intros [= ->]. by exists EmptyString.
  - intros H. destruct (IH H) as [init Hinit].
    exists (String c init). simpl. by rewrite <- Hinit.
Qed.

Lemma lastChar_append (a b : string) :
  b <> EmptyString -> lastChar (a +:+ b) = lastChar b.
Proof.
  intros Hb. induction a as [|c a IH]; simpl; [done|].
  rewrite IH. destruct (a +:+ b) eqn:E; [|done].
  destruct a; simpl in E; [done|discriminate].
Qed.

Lemma lastChar_all (p : ascii -> bool) (s : string) (l : ascii) :
  all p s = true -> lastChar s = Some l -> p l = true.
Proof.
  induction s as [|c s IH]; simpl; [done|].
  intros [Hc H]%andb_true_iff. destruct s as [|d s].
  - by intros [= <-].
  - by apply IH.
Qed.

Lemma lastChar_is_Some (c : ascii) (s : string) :
  is_Some (lastChar (String c s)).
Proof.
  revert c. induction s as [|d s IH]; intros c; [by eexists|].
  change (lastChar (String c (String d s))) with (lastChar (String d s)).
  apply IH.
Qed.

(** A heading line with text [text]: a marked line whose rest, [text], is
    not empty and holds no line terminator. *)
Lemma headingMatch_marked (line : string) (k : nat) (ws text : string) :
  Re.marked line k ws text ->
  text <> EmptyString ->
  all (fun c => negb (isLineTerminator c)) text = true ->
  exists g, Re.headingMatch line = Some g /\ trim g = trim text.
Proof.
  intros Hm Htext Hlt.
  destruct (marked_spans line k ws text Hm)
    as (c & l & Hline & Hc & Hdrop & w & r & Hw & Hws).
  destruct Hm as (Hk & Hne & Hall & _).
  unfold Re.headingMatch. rewrite Hline, Hc. rewrite <- Hline. rewrite Hdrop.
  rewrite (takeWhile_append_all _ _ _ Hall), (dropWhile_append_all _ _ _ Hall).
  destruct ws as [|w0 ws]; [done|]. cbn [String.append].
  destruct (dropWhile isWhiteSpace text) as [|d rest] eqn:Hrest.
  - apply dropWhile_empty_all in Hrest.
    rewrite (takeWhile_all _ _ Hrest).
    destruct text as [|t0 text]; [done|].
    destruct (ws +:+ String t0 text) as [|a b] eqn:E;
      [by destruct ws|].
    rewrite <- E.
    change (String w0 (ws +:+ String t0 text))
      with (String w0 ws +:+ String t0 text).
    rewrite lastChar_append by done.
    destruct (lastChar_is_Some t0 text) as [last Hlast]. rewrite Hlast.
    pose proof (lastChar_all _ _ _ Hlt Hlast) as Hnl.
    apply negb_true_iff in Hnl. rewrite Hnl.
    eexists. split; [done|].
    rewrite (trim_all_whiteSpace (String t0 text)) by done.
    apply trim_all_whiteSpace. simpl.
    by rewrite (lastChar_all _ _ _ Hrest Hlast).
  - rewrite <- Hrest. rewrite all_dropWhile by done.
    destruct (ws +:+ takeWhile isWhiteSpace text);
      (eexists; split; [done|apply trim_dropWhile]).
Qed.

Lemma headingMatch_Some (line g : string) :
  Re.headingMatch line = Some g ->
  exists k ws, Re.marked line k ws g /\ g <> EmptyString
    /\ all (fun c => negb (isLineTerminator c)) g = true.
Proof.
  unfold Re.headingMatch.
  destruct line as [|c l] eqn:Hline; [done|]. rewrite <- Hline.
  destruct (isHash c) eqn:Hc; [|done].
  pose proof (takeWhile_dropWhile isHash line) as Hsplit1.
  pose proof (takeWhile_dropWhile isWhiteSpace (dropWhile isHash line))
    as Hsplit2.
  pose proof (all_takeWhile isWhiteSpace (dropWhile isHash line)) as Hallws.
  assert (0 < String.length (takeWhile isHash line)) as Hk.
  { subst line. simpl. rewrite Hc. simpl. lia. }
  assert (line = Js.replicate (String.length (takeWhile isHash line)) "#"
                 +:+ dropWhile isHash line) as Hhash.
  { rewrite <- (all_eqb_replicate "#" (takeWhile isHash line))
      by apply all_takeWhile. done. }
  destruct (takeWhile isWhiteSpace (dropWhile isHash line)) as [|w ws] eqn:Hws;
    [done|].
  destruct (dropWhile isWhiteSpace (dropWhile isHash line)) as [|d rest]
    eqn:Hrest.
  - destruct ws as [|w' ws]; [done|].
    destruct (lastChar (String w (String w' ws))) as [last|] eqn:Hlast;
      [|done].
    destruct (isLineTerminator last) eqn:Hnl; [done|]. intros [= <-].
    destruct (lastChar_snoc _ _ Hlast) as [init Hinit].
    exists (String.length (takeWhile isHash line)), init.
    rewrite Hinit in Hallws. rewrite all_append in Hallws.
    apply andb_true_iff in Hallws as [Hinit_ws _].
    split; [|split; [done|simpl; by rewrite Hnl]].
    split; [done|]. split.
    { intros ->. simpl in Hinit. by injection Hinit. }
    split; [done|].
    rewrite Hhash at 1. f_equal. rewrite <- Hsplit2, append_nil_r. done.
  - destruct (all (fun c => negb (isLineTerminator c)) (String d rest))
      eqn:Hlt; [|by destruct ws].
    intros Hg. assert (String d rest = g) as <- by (destruct ws; congruence).
    clear Hg.
    exists (String.length (takeWhile isHash line)), (String w ws).
    split; [|split; [done|done]].
    split; [done|]. split; [done|]. split; [done|].
    rewrite Hhash at 1. f_equal. by rewrite <- Hsplit2.
Qed.

End ReFacts.

(** ** The unit tests of the repository, run on the embedding

    The cases of [tests/test-category-functions.js] and the examples of the
    specification. *)

Example test_extractCategoryFromPath :
  extractCategoryFromPath "/docs/guides/getting-started/introduction"
    = "getting-started"
  /\ extractCategoryFromPath "docs/api/reference/endpoints" = "reference"
  /\ extractCategoryFromPath "/docs/platform/client-sdk" = "client-sdk"
  /\ extractCategoryFromPath "docs/platform" = "platform"
  /\ extractCategoryFromPath "other" = "other".
Proof. repeat split; reflexivity. Qed.

Example test_extractSubdirectoryFromPath :
  extractSubdirectoryFromPath "/docs/guides/getting-started/changelog/v1.mdx"
    "docs" = Some "changelog"
  /\ extractSubdirectoryFromPath "docs/guides/getting-started/changelog/v2"
       "docs" = Some "changelog"
  /\ extractSubdirectoryFromPath "/docs/guides/getting-started/license.mdx"
       "docs" = None
  /\ extractSubdirectoryFromPath "docs/api/reference/authentication" "docs"
     = None
  /\ extractSubdirectoryFromPath "/docs/platform/client-sdk/overview.mdx"
       "docs" = None.
Proof. repeat split; reflexivity. Qed.

Example test_formatCategoryName :
  formatCategoryName Fixture.asciiUpperCase "getting-started"
    = "Getting Started"
  /\ formatCategoryName Fixture.asciiUpperCase "access" = "Access"
  /\ formatCategoryName Fixture.asciiUpperCase "anti-addiction"
     = "Anti Addiction"
  /\ formatCategoryName Fixture.asciiUpperCase "tap-cloudsave"
     = "Tap Cloudsave".
Proof. repeat split; reflexivity. Qed.

Example test_sortDocsByPosition :
  title <$> sortDocsByPosition Fixture.codeUnitCompare
              [ Fixture.doc "Doc C" "/docs/sdk/access/doc-c" (Some 3%Z);
                Fixture.doc "Doc A" "/docs/sdk/access/doc-a" (Some 1%Z);
                Fixture.doc "Doc B" "/docs/sdk/access/doc-b" (Some 2%Z);
                Fixture.doc "Doc D" "/docs/sdk/access/doc-d" None ]
  = ["Doc A"; "Doc B"; "Doc C"; "Doc D"].
Proof. reflexivity. Qed.

Example test_cleanDescriptionForToc :
  cleanDescriptionForToc (Js.replicate 200 "a")
    = Js.replicate 147 "a" +:+ "..."
  /\ cleanDescriptionForToc ("# Title with #tag" +:+ nl +:+ "second line")
     = "Title with #tag"
  /\ cleanDescriptionForToc "#tag first" = "#tag first".
Proof. repeat split; reflexivity. Qed.

Example test_headingMatch :
  Re.headingMatch "# Overview" = Some "Overview"
  /\ Re.headingMatch "##   Two  words " = Some "Two  words "
  /\ Re.headingMatch "#Overview" = None
  /\ Re.headingMatch "Overview # not a heading" = None
  /\ Re.headingMatch "#  " = Some " "
  /\ Re.headingMatch "# " = None.
Proof. repeat split; reflexivity. Qed.

(** ** Sorting *)

Section ArraySortFacts.
Context {A : Type} (compareFn : A -> A -> Z).

Lemma insertSorted_Permutation (x : A) (l : list A) :
  insertSorted compareFn x l ≡ₚ x :: l.
Proof.
  induction l as [|y l IH]; simpl; [done|].
  destruct (compareFn x y <=? 0)%Z; [done|].
  rewrite IH. apply Permutation_swap.
Qed.

Lemma arraySort_Permutation (l : list A) : arraySort compareFn l ≡ₚ l.
Proof.
  induction l as [|x l IH]; simpl; [done|].
  by rewrite insertSorted_Permutation, IH.
Qed.

(** The order [R] that the comparator decides on the elements of [P] *)
Context (R : A -> A -> Prop) (P : A -> Prop).
Hypothesis compare_le :
  forall a b, P a -> P b -> (compareFn a b <= 0)%Z -> R a b.
Hypothesis compare_gt :
  forall a b, P a -> P b -> ~ (compareFn a b <= 0)%Z -> R b a.
Hypothesis R_trans :
  forall a b c, P a -> P b -> P c -> R a b -> R b c -> R a c.

Lemma insertSorted_StronglySorted (x : A) (l : list A) :
  P x -> Forall P l ->
  StronglySorted R l -> StronglySorted R (insertSorted compareFn x l).
Proof.
  intros Hx HP Hl. induction Hl as [|y l Hl IH Hy]; simpl.
  - repeat constructor.
  - apply Forall_cons in HP as [Py HP].
    destruct (Z.leb_spec (compareFn x y) 0) as [Hle|Hgt].
    + constructor; [by constructor|].
      constructor; [by apply compare_le|].
      rewrite Forall_forall in Hy, HP. apply Forall_forall.
      intros z Hz. apply (R_trans x y z); auto.
    + constructor; [by apply IH|].
      rewrite insertSorted_Permutation. constructor; [|done].
      apply compare_gt; [done..|lia].
Qed.

Lemma arraySort_StronglySorted (l : list A) :
  Forall P l -> StronglySorted R (arraySort compareFn l).
Proof.
  induction l as [|x l IH]; simpl; intros HP; [constructor|].
  apply Forall_cons in HP as [Px HP].
  apply insertSorted_StronglySorted; [done| |by apply IH].
  by rewrite arraySort_Permutation.
Qed.

End ArraySortFacts.

Lemma StronglySorted_lookup {A} (R : A -> A -> Prop) (l : list A)
    (i j : nat) (a b : A) :
  StronglySorted R l -> i < j -> l !! i = Some a -> l !! j = Some b -> R a b.
Proof.
  intros Hl. revert i j. induction Hl as [|x l Hl IH Hx]; intros i j Hij Hi Hj.
  - done.
  - destruct j as [|j]; [lia|]. destruct i as [|i]; simpl in *.
    + injection Hi as ->. rewrite Forall_forall in Hx. apply Hx.
      by eapply list_elem_of_lookup_2.
    + apply (IH i j); [lia|done..].
Qed.

(** ** Comparison by code units is a total preorder *)

Lemma codeUnitCompare_le (a b : string) :
  (Fixture.codeUnitCompare a b <= 0)%Z <-> String.le a b.
Proof.
  unfold Fixture.codeUnitCompare, String.le, String.leb.
  destruct (String.compare a b); simpl; split; (done || lia).
Qed.

Lemma codeUnitCompare_total : TotalCompare Fixture.codeUnitCompare.
Proof.
  split.
  - intros a b. rewrite !codeUnitCompare_le. apply (total String.le).
  - intros a b c. rewrite !codeUnitCompare_le. apply transitivity.
Qed.

(** ** The order of documents *)

Section DocOrder.
Variable localeCompare : string -> string -> Z.
Hypothesis localeCompare_total : TotalCompare localeCompare.

Lemma compareDocs_le (a b : DocInfo) :
  (compareDocs localeCompare a b <= 0)%Z -> docOrder localeCompare a b.
Proof.
  unfold compareDocs, docOrder.
  destruct (Z.eqb_spec (effectivePosition a) (effectivePosition b)); simpl;
    intros; [right|left]; (done || lia).
Qed.

Lemma compareDocs_gt (a b : DocInfo) :
  ~ (compareDocs localeCompare a b <= 0)%Z -> docOrder localeCompare b a.
Proof using localeCompare_total.
  unfold compareDocs, docOrder.
  destruct (Z.eqb_spec (effectivePosition a) (effectivePosition b)); simpl;
    intros H; [right|left; lia].
  split; [done|].
  destruct (proj1 localeCompare_total (path a) (path b)); [done|lia].
Qed.

Lemma docOrder_trans (a b c : DocInfo) :
  docOrder localeCompare a b -> docOrder localeCompare b c -> docOrder localeCompare a c.
Proof using localeCompare_total.
  unfold docOrder. intros [H1|[E1 H1]] [H2|[E2 H2]];
    [left; lia..|].
  right. split; [congruence|].
  by apply (proj2 localeCompare_total _ (path b)).
Qed.

Lemma sortDocsByPosition_sorted (docs : list DocInfo) :
  StronglySorted (docOrder localeCompare) (sortDocsByPosition localeCompare docs).
Proof using localeCompare_total.
  apply (arraySort_StronglySorted _ (docOrder localeCompare) (fun _ => True)).
  - intros a b _ _. apply compareDocs_le.
  - intros a b _ _. apply compareDocs_gt.
  - intros a b c _ _ _. apply docOrder_trans.
  - by apply Forall_forall.
Qed.

End DocOrder.

(** The position that the comparator reads is the [sidebar_position] of
    the frontmatter, 999 when there is none. *)
Lemma effectivePosition_spec (doc : DocInfo) :
  effectivePosition doc = specPosition doc.
Proof.
  unfold effectivePosition, specPosition.
  destruct (frontMatter doc) as [fm|]; [|done]. simpl.
  by destruct (sidebar_position fm).
Qed.

(** C6.  For every list of documents, sorting returns the same documents,
    and of any two of them the one that comes first has the smaller
    position (the [sidebar_position] of its frontmatter, 999 when the
    frontmatter or the position is absent) when the positions differ,
    whatever the paths, and a path that compares lower or equal when the
    positions are equal. *)
Theorem sortDocsByPosition_order (localeCompare : string -> string -> Z)
    (localeCompare_total : TotalCompare localeCompare)
    (docs : list DocInfo) :
  sortDocsByPosition localeCompare docs ≡ₚ docs
  /\ forall (i j : nat) (a b : DocInfo),
       i < j ->
       sortDocsByPosition localeCompare docs !! i = Some a ->
       sortDocsByPosition localeCompare docs !! j = Some b ->
       (specPosition a <> specPosition b ->
        (specPosition a < specPosition b)%Z)
       /\ (specPosition a = specPosition b ->
           (localeCompare (path a) (path b) <= 0)%Z).
Proof.
  split; [apply arraySort_Permutation|].
  intros i j a b Hij Hi Hj.
  pose proof (sortDocsByPosition_sorted localeCompare localeCompare_total docs)
    as Hsorted.
  rewrite <- !effectivePosition_spec.
  destruct (StronglySorted_lookup _ _ i j a b Hsorted Hij Hi Hj) as [H|[E H]].
  - split; [done|lia].
  - split; [done|]. done.
Qed.

(** C6 on five documents, ordered by code units: the document of position
    1 comes first though its path is the last one; the two documents of
    position 2 come next, in the order of their paths; the document whose
    frontmatter has no position and the document without frontmatter come
    last, at position 999, in the order of their paths. *)
Lemma sortDocsByPosition_order_witness :
  sortDocsByPosition Fixture.codeUnitCompare Fixture.positionedDocs
  = [Fixture.docZ1; Fixture.docA2; Fixture.docB2; Fixture.docC; Fixture.docM]
  /\ (specPosition Fixture.docZ1 < specPosition Fixture.docA2)%Z
  /\ (Fixture.codeUnitCompare (path Fixture.docA2) (path Fixture.docB2) <= 0)%Z
  /\ (specPosition Fixture.docB2 < specPosition Fixture.docC)%Z
  /\ (Fixture.codeUnitCompare (path Fixture.docC) (path Fixture.docM) <= 0)%Z.
Proof.
  destruct (sortDocsByPosition_order Fixture.codeUnitCompare
              codeUnitCompare_total Fixture.positionedDocs) as [_ Horder].
  split; [reflexivity|]. split; [|split; [|split]].
  - apply (Horder 0 1 Fixture.docZ1 Fixture.docA2);
      [lia|reflexivity|reflexivity|discriminate].
  - apply (Horder 1 2 Fixture.docA2 Fixture.docB2);
      [lia|reflexivity|reflexivity|reflexivity].
  - apply (Horder 2 3 Fixture.docB2 Fixture.docC);
      [lia|reflexivity|reflexivity|discriminate].
  - apply (Horder 3 4 Fixture.docC Fixture.docM);
      [lia|reflexivity|reflexivity|reflexivity].
Defined.

(** ** Completions *)

Ltac unbind :=
  unfold mbind, mret, Completion_bind, Completion_ret in *; simpl in *.

Lemma promiseAll_normal {A B} (f : A -> Completion B) (g : A -> B)
    (xs : list A) :
  (forall x, x ∈ xs -> f x = Normal (g x)) ->
  promiseAll f xs = Normal (g <$> xs).
Proof.
  induction xs as [|x xs IH]; intros H; simpl; [done|]. unbind.
  rewrite (H x) by apply list_elem_of_here.
  rewrite IH; [done|]. intros y Hy. apply H. by apply list_elem_of_further.
Qed.

(** ** Maps in insertion order *)

Section GroupingFacts.
Context {K V : Type} `{EqDecision K}.
Implicit Types (m : list (K * list V)) (k : K) (v : V).

Lemma mapGet_pushTo k k' v m :
  mapGet k (pushTo k' v m) =
    if decide (k = k') then Some (default [] (mapGet k m) ++ [v])
    else mapGet k m.
Proof.
  induction m as [|[k0 vs] m IH]; simpl.
  - destruct (decide (k = k')); by simplify_eq/=.
  - destruct (decide (k' = k0)) as [->|Hne]; simpl.
    + destruct (decide (k = k0)); by simplify_eq/=.
    + destruct (decide (k = k0)) as [->|Hne']; simpl.
      * by rewrite decide_False by done.
      * done.
Qed.

Lemma mapKeys_pushTo k v m :
  mapKeys (pushTo k v m) =
    if decide (k ∈ mapKeys m) then mapKeys m else mapKeys m ++ [k].
Proof.
  unfold mapKeys. induction m as [|[k0 vs] m IH].
  - rewrite decide_False; [done|]. apply not_elem_of_nil.
  - cbn [pushTo]. destruct (decide (k = k0)) as [->|Hne].
    + rewrite decide_True; [done|]. rewrite fmap_cons. apply list_elem_of_here.
    + rewrite !fmap_cons, IH. cbn [fst].
      destruct (decide (k ∈ m.*1)) as [Hin|Hnin].
      * rewrite decide_True; [done|]. by apply list_elem_of_further.
      * rewrite decide_False; [done|]. rewrite not_elem_of_cons. done.
Qed.

Lemma mapGet_None k m : mapGet k m = None <-> k ∉ mapKeys m.
Proof.
  unfold mapKeys. induction m as [|[k0 vs] m IH]; simpl.
  - split; [intros _; apply not_elem_of_nil|done].
  - rewrite not_elem_of_cons. destruct (decide (k = k0)) as [->|Hne].
    + split; [done|]. by intros [[] _].
    + rewrite IH. tauto.
Qed.

Lemma mapGet_elem_of k (vs : list V) m :
  mapGet k m = Some vs -> (k, vs) ∈ m.
Proof.
  induction m as [|[k0 vs0] m IH]; simpl; [done|].
  destruct (decide (k = k0)) as [->|Hne].
  - intros [= ->]. apply list_elem_of_here.
  - intros H. apply list_elem_of_further. auto.
Qed.

Lemma elem_of_mapGet k (vs : list V) m :
  NoDup (mapKeys m) -> (k, vs) ∈ m -> mapGet k m = Some vs.
Proof.
  unfold mapKeys. induction m as [|[k0 vs0] m IH]; simpl.
  - intros _ H. by apply elem_of_nil in H.
  - intros [Hnin Hnd]%NoDup_cons [[= -> ->]|Hin]%elem_of_cons.
    + by rewrite decide_True.
    + rewrite decide_False; [by apply IH|].
      intros ->. apply Hnin. apply list_elem_of_fmap. by exists (k0, vs).
Qed.

Context (key : V -> K).

(** What [groupBy] has built after the values [vs] *)
Definition grouped m (vs : list V) : Prop :=
  NoDup (mapKeys m)
  /\ forall k, mapGet k m =
       match filter (fun v => key v = k) vs with
       | [] => None
       | l => Some l
       end.

Lemma grouped_pushTo m (vs : list V) v :
  grouped m vs -> grouped (pushTo (key v) v m) (vs ++ [v]).
Proof.
  intros [Hnd Hget]. split.
  - rewrite mapKeys_pushTo. case_decide; [done|].
    apply NoDup_app. split; [done|]. split; [|apply NoDup_singleton].
    intros k Hk ->%list_elem_of_singleton. done.
  - intros k. rewrite mapGet_pushTo, filter_app, Hget.
    rewrite filter_cons, filter_nil.
    destruct (decide (k = key v)) as [->|Hne].
    + rewrite decide_True by done.
      destruct (filter _ vs); simpl; done.
    + rewrite decide_False by done. by rewrite app_nil_r.
Qed.

Lemma groupBy_grouped (vs : list V) : grouped (groupBy key vs) vs.
Proof.
  unfold groupBy.
  cut (forall m done, grouped m done ->
         grouped (foldl (fun m v => pushTo (key v) v m) m vs) (done ++ vs)).
  { intros H. apply (H [] []). split; [constructor|done]. }
  induction vs as [|v vs IH]; intros m done Hm; simpl.
  - by rewrite app_nil_r.
  - rewrite (assoc_L (++) done [v] vs : done ++ v :: vs = (done ++ [v]) ++ vs).
    apply IH. by apply grouped_pushTo.
Qed.

(** [groupBy] keeps, under each key, the values of that key in the order of
    the input; its keys are the keys of the values, each once. *)
Lemma mapGet_groupBy (vs : list V) k :
  mapGet k (groupBy key vs) =
    match filter (fun v => key v = k) vs with
    | [] => None
    | l => Some l
    end.
Proof. apply groupBy_grouped. Qed.

Lemma NoDup_mapKeys_groupBy (vs : list V) : NoDup (mapKeys (groupBy key vs)).
Proof. apply groupBy_grouped. Qed.

Lemma elem_of_mapKeys_groupBy (vs : list V) k :
  k ∈ mapKeys (groupBy key vs) <-> exists v, v ∈ vs /\ key v = k.
Proof.
  pose proof (mapGet_None k (groupBy key vs)) as Hnone.
  rewrite mapGet_groupBy in Hnone.
  destruct (filter (fun v => key v = k) vs) as [|v l] eqn:E.
  - split.
    + intros Hin. by apply Hnone in Hin.
    + intros (v & Hv & Hk).
      assert (v ∈ filter (fun v => key v = k) vs) as Hf
        by by apply list_elem_of_filter.
      rewrite E in Hf. by apply elem_of_nil in Hf.
  - split.
    + intros _. exists v.
      assert (v ∈ filter (fun v => key v = k) vs) as Hf
        by (rewrite E; apply list_elem_of_here).
      by apply list_elem_of_filter in Hf as [Hk Hv].
    + intros _. destruct (decide (k ∈ mapKeys (groupBy key vs))); [done|].
      apply Hnone in n. done.
Qed.

Lemma groupBy_entry_nonempty (vs : list V) k (l : list V) :
  (k, l) ∈ groupBy key vs -> l <> [] /\ mapGet k (groupBy key vs) = Some l.
Proof.
  intros Hin.
  apply elem_of_mapGet in Hin; [|apply NoDup_mapKeys_groupBy].
  split; [|done]. rewrite mapGet_groupBy in Hin.
  destruct (filter _ vs); [done|]. by injection Hin as <-.
Qed.

End GroupingFacts.

(** ** Category and subdirectory extraction *)


(** C4, as the code has it.  Category extraction returns [access] for
    [/docs/sdk/access/x], [cpp-sdk] for the three-segment path
    [docs/pc/cpp-sdk] ([pc] for the two-segment path [docs/pc]), and [other]
    for [other]. *)
Theorem extractCategoryFromPath_examples :
  extractCategoryFromPath "/docs/sdk/access/x" = "access"
  /\ extractCategoryFromPath "docs/pc/cpp-sdk" = "cpp-sdk"
  /\ extractCategoryFromPath "docs/pc" = "pc"
  /\ extractCategoryFromPath "other" = "other".
Proof. repeat split; reflexivity. Qed.

(** C4, as the specification words it, fails: the category of
    [docs/pc/cpp-sdk] is not [pc]. *)
Lemma extractCategoryFromPath_pc_counterexample :
  ~ (extractCategoryFromPath "/docs/sdk/access/x" = "access"
     /\ extractCategoryFromPath "docs/pc/cpp-sdk" = "pc"
     /\ extractCategoryFromPath "other" = "other").
Proof. intros (_ & H & _). vm_compute in H. discriminate H. Qed.

(** C5.  For every document path and root-container name, subdirectory
    extraction removes the slashes at both ends and then a final [.md] or
    [.mdx], splits what is left on the slash, and returns segment 3 exactly
    when there are at least five segments and segment 0 is the root
    container; otherwise it returns null.  So it returns [release-notes] for
    [/docs/sdk/start/release-notes/unity] and null for
    [/docs/sdk/start/agreement], under the root [docs]. *)
Theorem extractSubdirectoryFromPath_segments (docPath docsDir : string) :
  (exists (lead trail : nat) (core stem : string) (parts : list string),
    docPath = Js.replicate lead "/" +:+ core +:+ Js.replicate trail "/"
    /\ head (list_ascii_of_string core) <> Some "/"%char
    /\ last (list_ascii_of_string core) <> Some "/"%char
    /\ (core = stem +:+ ".mdx" \/ core = stem +:+ ".md"
        \/ (stem = core
            /\ forall r, core <> r +:+ ".mdx" /\ core <> r +:+ ".md"))
    /\ parts <> []
    /\ Js.join "/" parts = stem
    /\ Forall (fun part => "/"%char ∉ list_ascii_of_string part) parts
    /\ (5 <= length parts /\ Js.nth 0 parts = docsDir ->
        extractSubdirectoryFromPath docPath docsDir = Some (Js.nth 3 parts))
    /\ (~ (5 <= length parts /\ Js.nth 0 parts = docsDir) ->
        extractSubdirectoryFromPath docPath docsDir = None))
  /\ extractSubdirectoryFromPath "/docs/sdk/start/release-notes/unity" "docs"
     = Some "release-notes"
  /\ extractSubdirectoryFromPath "/docs/sdk/start/agreement" "docs" = None.
Proof.
  split; [|split; reflexivity].
  destruct (ReFacts.stripSlashes_spec docPath) as (lead & trail & Hs & Hh & Hl).
  exists lead, trail, (Re.stripSlashes docPath),
    (Re.stripMdxExt (Re.stripSlashes docPath)),
    (Js.split "/" (Re.stripMdxExt (Re.stripSlashes docPath))).
  split; [done|]. split; [done|]. split; [done|].
  split; [apply ReFacts.stripMdxExt_spec|].
  split; [apply JsFacts.split_nonempty|].
  split; [apply JsFacts.join_split|].
  split; [apply JsFacts.split_no_sep|].
  unfold extractSubdirectoryFromPath.
  set (parts := Js.split "/" (Re.stripMdxExt (Re.stripSlashes docPath))).
  destruct (Nat.leb_spec 5 (length parts)) as [Hlen|Hlen];
    destruct (String.eqb_spec (Js.nth 0 parts) docsDir) as [Heq|Hne]; simpl;
    split; try done; try tauto; try lia.
  all: intros []; tauto || lia.
Qed.

(** ** Descriptions in the table of contents *)


(** ** Descriptors *)

Section DescriptorFacts.
Variable fs_readFile : string -> Completion string.
Variable JSON_parse : string -> Completion CategoryData.
Variable path_join : string -> string -> string.

Local Abbreviation readMetadata :=
  (readCategoryMetadata fs_readFile JSON_parse path_join).
Local Abbreviation getMetadata :=
  (getCategoryMetadata fs_readFile JSON_parse path_join).

Lemma readCategoryMetadata_normal (categoryPath : string) :
  readMetadata categoryPath
  = Normal (valueOr None (readMetadata categoryPath)).
Proof.
  unfold readCategoryMetadata. unbind.
  destruct (fs_readFile _); simpl; [|done].
  by destruct (JSON_parse _) as [[]|]; simpl.
Qed.

Lemma readCategoryMetadata_failure (categoryPath : string) :
  (exists e,
      fs_readFile (path_join categoryPath "_category_.json") = Throw e)
  \/ (exists text e,
         fs_readFile (path_join categoryPath "_category_.json") = Normal text
         /\ JSON_parse text = Throw e) ->
  readMetadata categoryPath = Normal None.
Proof.
  unfold readCategoryMetadata. unbind.
  intros [[e ->]|(text & e & -> & H)]; simpl; [done|]. by rewrite H.
Qed.

Lemma getCategoryMetadata_cases (docPath siteDir docsDir : string) :
  let pathParts := Js.split "/" (Re.stripMdxExt (Re.stripSlashes docPath)) in
  getMetadata docPath siteDir docsDir =
    if decide (Js.nth 0 pathParts = docsDir /\ 2 <= length pathParts) then
      Normal (default defaultMetadata
                (valueOr None
                   (readMetadata
                      (path_join siteDir
                         (Js.join "/" (take (3 `min` length pathParts)
                                         pathParts))))))
    else Normal defaultMetadata.
Proof.
  intros pathParts. unfold getCategoryMetadata.
  fold pathParts.
  destruct (String.eqb_spec (Js.nth 0 pathParts) docsDir) as [Heq|Hne].
  2:{ rewrite !andb_false_r. rewrite decide_False; [done|]. tauto. }
  rewrite !andb_true_r.
  destruct (Nat.leb_spec 3 (length pathParts)) as [H3|H3].
  { rewrite decide_True by (split; [done|lia]).
    rewrite Nat.min_l by done. unbind.
    by rewrite readCategoryMetadata_normal. }
  destruct (Nat.leb_spec 2 (length pathParts)) as [H2|H2].
  { rewrite decide_True by (split; [done|lia]).
    assert (length pathParts = 2) as Hlen by lia.
    rewrite Nat.min_r by lia. rewrite Hlen. unbind.
    by rewrite readCategoryMetadata_normal. }
  rewrite decide_False; [done|]. lia.
Qed.

Lemma getCategoryMetadata_normal (docPath siteDir docsDir : string) :
  getMetadata docPath siteDir docsDir
  = Normal (valueOr defaultMetadata
              (getMetadata docPath siteDir docsDir)).
Proof.
  pose proof (getCategoryMetadata_cases docPath siteDir docsDir) as H.
  cbv zeta in H. rewrite H. by case_decide.
Qed.

End DescriptorFacts.

(** ** The links-only file *)

Lemma foldl_insert_is_Some (entries : list (string * CategoryMetadata))
    (m0 : gmap string CategoryMetadata) (c : string) :
  c ∈ entries.*1 ->
  is_Some (foldl (fun (m : gmap string CategoryMetadata) '(k, v) =>
                    <[k := v]> m) m0 entries !! c).
Proof.
  revert m0. induction entries as [|[k v] entries IH]; intros m0; simpl.
  - intros H. by apply elem_of_nil in H.
  - destruct (decide (c ∈ entries.*1)) as [Hin|Hnin]; [intros _; by apply IH|].
    intros [->|Hin]%elem_of_cons; [|done].
    clear IH. revert m0.
    assert (forall m : gmap string CategoryMetadata, is_Some (m !! k) ->
              is_Some (foldl (fun (m : gmap string CategoryMetadata) '(k, v) =>
                                <[k := v]> m) m entries !! k))
      as Hkeep.
    { clear Hnin. induction entries as [|[k' v'] entries IH]; intros m Hm;
        simpl; [done|].
      apply IH. destruct (decide (k' = k)) as [->|Hne].
      - rewrite lookup_insert_eq. by eexists.
      - by rewrite lookup_insert_ne. }
    intros m0. apply Hkeep. rewrite lookup_insert_eq. by eexists.
Qed.

Lemma foldl_insert_Some (entries : list (string * CategoryMetadata))
    (m0 : gmap string CategoryMetadata) (c : string) (md : CategoryMetadata) :
  foldl (fun (m : gmap string CategoryMetadata) '(k, v) => <[k := v]> m)
    m0 entries !! c = Some md ->
  (c, md) ∈ entries \/ m0 !! c = Some md.
Proof.
  revert m0. induction entries as [|[k v] entries IH]; intros m0; simpl.
  - by right.
  - intros H. apply IH in H as [H|H].
    + left. by apply list_elem_of_further.
    + destruct (decide (k = c)) as [->|Hne].
      * rewrite lookup_insert_eq in H. injection H as ->.
        left. apply list_elem_of_here.
      * rewrite lookup_insert_ne in H by done. by right.
Qed.

Lemma foldl_insert_Some_None (entries : list (string * option CategoryMetadata))
    (m0 : gmap string CategoryMetadata) :
  Forall (fun e => e.2 = None) entries ->
  foldl (fun (m : gmap string CategoryMetadata) '(k, v) => match v with
                          | Some md => <[k := md]> m
                          | None => m
                          end) m0 entries = m0.
Proof.
  revert m0. induction entries as [|[k v] entries IH]; intros m0 H; simpl;
    [done|].
  apply Forall_cons in H as [Hv H]. simpl in Hv. subst v. by apply IH.
Qed.

Section NameOrder.
Variable localeCompare : string -> string -> Z.
Hypothesis localeCompare_total : TotalCompare localeCompare.
Variable m : gmap string CategoryMetadata.

(** The names on which the comparator is consistent: all of them have a
    descriptor in [m], or none has *)
Variable P : string -> Prop.
Hypothesis uniform :
  (forall c, P c -> is_Some (m !! c)) \/ (forall c, P c -> m !! c = None).

Lemma compareCategories_le (a b : string) :
  P a -> P b ->
  (compareCategories localeCompare m a b <= 0)%Z ->
  nameOrder localeCompare m a b.
Proof using uniform.
  intros Ha Hb. unfold compareCategories, nameOrder, positionIn.
  destruct uniform as [Hall|Hnone].
  - destruct (Hall a Ha) as [ma ->], (Hall b Hb) as [mb ->]. simpl.
    destruct (Z.eqb_spec (position ma) (position mb)); simpl; intros;
      [right|left]; (done || lia).
  - rewrite (Hnone a Ha), (Hnone b Hb). simpl. by right.
Qed.

Lemma compareCategories_gt (a b : string) :
  P a -> P b ->
  ~ (compareCategories localeCompare m a b <= 0)%Z ->
  nameOrder localeCompare m b a.
Proof using uniform localeCompare_total.
  intros Ha Hb. unfold compareCategories, nameOrder, positionIn.
  assert (forall x y, ~ (localeCompare x y <= 0)%Z -> (localeCompare y x <= 0)%Z)
    as Hflip.
  { intros x y Hxy. destruct (proj1 localeCompare_total x y); [done|lia]. }
  destruct uniform as [Hall|Hnone].
  - destruct (Hall a Ha) as [ma ->], (Hall b Hb) as [mb ->]. simpl.
    destruct (Z.eqb_spec (position ma) (position mb)); simpl; intros;
      [right|left; lia]. split; [done|]. by apply Hflip.
  - rewrite (Hnone a Ha), (Hnone b Hb). simpl. right. split; [done|].
    by apply Hflip.
Qed.

Lemma nameOrder_trans (a b c : string) :
  nameOrder localeCompare m a b -> nameOrder localeCompare m b c ->
  nameOrder localeCompare m a c.
Proof using localeCompare_total.
  unfold nameOrder. intros [H1|[E1 H1]] [H2|[E2 H2]]; [left; lia..|].
  right. split; [congruence|]. by apply (proj2 localeCompare_total _ b).
Qed.

Lemma arraySort_compareCategories_sorted (names : list string) :
  Forall P names ->
  StronglySorted (nameOrder localeCompare m)
    (arraySort (compareCategories localeCompare m) names).
Proof using uniform localeCompare_total.
  apply (arraySort_StronglySorted _ (nameOrder localeCompare m) P).
  - apply compareCategories_le.
  - apply compareCategories_gt.
  - intros a b c _ _ _. apply nameOrder_trans.
Qed.

End NameOrder.

Lemma compareSubdirs_eq (localeCompare : string -> string -> Z)
    (m : gmap string CategoryMetadata) :
  compareSubdirs localeCompare m = compareCategories localeCompare m.
Proof. reflexivity. Qed.

(** With no position but the default one, the order of names is that of
    [localeCompare]. *)
Lemma nameOrder_default (localeCompare : string -> string -> Z)
    (m : gmap string CategoryMetadata) (names : list string) :
  (forall c md, m !! c = Some md -> position md = 999%Z) ->
  StronglySorted (nameOrder localeCompare m) names ->
  StronglySorted (fun a b => (localeCompare a b <= 0)%Z) names.
Proof.
  intros Hm. assert (forall c, positionIn m c = 999%Z) as Hpos.
  { intros c. unfold positionIn. destruct (m !! c) as [md|] eqn:E; simpl;
      [by apply (Hm c)|done]. }
  induction 1 as [|x l Hl IH Hx]; constructor; [done|].
  eapply Forall_impl; [done|]. intros y [H|[_ H]]; [|done].
  rewrite !Hpos in H. lia.
Qed.

Section LinksFacts.
Variable localeCompare : string -> string -> Z.
Variable toUpperCase : string -> string.
Variable fs_readFile : string -> Completion string.
Variable JSON_parse : string -> Completion CategoryData.
Variable path_join : string -> string -> string.

Local Abbreviation readMetadata :=
  (readCategoryMetadata fs_readFile JSON_parse path_join).
Local Abbreviation getMetadata :=
  (getCategoryMetadata fs_readFile JSON_parse path_join).
Local Abbreviation readMetadataMap :=
  (readCategoryMetadataMap fs_readFile JSON_parse path_join).
Local Abbreviation readSubdirMap :=
  (readSubdirMetadataMap fs_readFile JSON_parse path_join).
Local Abbreviation section :=
  (categorySection localeCompare toUpperCase fs_readFile JSON_parse path_join).
Local Abbreviation byCategory :=
  (groupBy (fun doc => extractCategoryFromPath (path doc))).

Lemma readCategoryMetadataMap_truthy (docs : list DocInfo)
    (siteDir docsDir : string) :
  siteDir <> EmptyString -> docsDir <> EmptyString ->
  readMetadataMap (byCategory docs) (Some siteDir) (Some docsDir)
  = Normal (foldl (fun (m : gmap string CategoryMetadata) '(k, v) =>
                     <[k := v]> m) ∅
              (categoryEntry fs_readFile JSON_parse path_join siteDir docsDir
                 <$> byCategory docs)).
Proof.
  intros Hs Hd. unfold readCategoryMetadataMap.
  destruct siteDir as [|s0 siteDir]; [done|].
  destruct docsDir as [|d0 docsDir]; [done|].
  rewrite (promiseAll_normal _ (categoryEntry fs_readFile JSON_parse path_join
                                  (String s0 siteDir) (String d0 docsDir)));
    [done|].
  intros [c cdocs] Hin. apply groupBy_entry_nonempty in Hin as [Hne _].
  destruct cdocs as [|sampleDoc cdocs]; [done|].
  unfold categoryEntry. simpl. unbind.
  by rewrite getCategoryMetadata_normal.
Qed.

Lemma readCategoryMetadataMap_falsy (docs : list DocInfo)
    (siteDir docsDir : option string) :
  Js.truthy siteDir && Js.truthy docsDir = false ->
  readMetadataMap (byCategory docs) siteDir docsDir = Normal ∅.
Proof.
  unfold readCategoryMetadataMap.
  by destruct siteDir as [[|??]|], docsDir as [[|??]|].
Qed.

(** [categoryMetadataMap] is always built; it has a descriptor for every
    category or for none; a descriptor in it is the default one or one that
    was read. *)
Lemma readCategoryMetadataMap_normal (docs : list DocInfo)
    (siteDir docsDir : option string) :
  exists m,
    readMetadataMap (byCategory docs) siteDir docsDir = Normal m
    /\ ((forall c, c ∈ mapKeys (byCategory docs) -> is_Some (m !! c))
        \/ (forall c, c ∈ mapKeys (byCategory docs) -> m !! c = None))
    /\ (forall c md, m !! c = Some md ->
          md = defaultMetadata
          \/ exists dir, readMetadata dir = Normal (Some md)).
Proof.
  destruct (Js.truthy siteDir && Js.truthy docsDir) eqn:E.
  - destruct siteDir as [[|s0 siteDir]|]; [done| |done].
    destruct docsDir as [[|d0 docsDir]|]; [done| |done].
    eexists. split; [by apply readCategoryMetadataMap_truthy|]. split.
    + left. intros c Hc. apply foldl_insert_is_Some.
      rewrite <- list_fmap_compose. done.
    + intros c md [Hin|Hin]%foldl_insert_Some; [|by rewrite lookup_empty in Hin].
      apply list_elem_of_fmap in Hin as ([c' cdocs] & Heq & _).
      unfold categoryEntry in Heq. simpl in Heq. injection Heq as -> ->.
      destruct cdocs as [|sampleDoc cdocs]; [by left|].
      pose proof (getCategoryMetadata_cases fs_readFile JSON_parse path_join
                    (path sampleDoc) (String s0 siteDir) (String d0 docsDir))
        as Hcases. cbv zeta in Hcases. rewrite Hcases.
      case_decide; simpl; [|by left].
      rewrite readCategoryMetadata_normal.
      destruct (valueOr None _) as [md|] eqn:Hmd; simpl; [|by left].
      right. eexists. rewrite readCategoryMetadata_normal. by rewrite Hmd.
  - exists ∅. split; [by apply readCategoryMetadataMap_falsy|]. split.
    + right. intros c _. apply lookup_empty.
    + intros c md H. by rewrite lookup_empty in H.
Qed.

Lemma readSubdirMetadataMap_normal (siteDir docsDir : option string)
    (subdirPathMap : list (string * string)) :
  readSubdirMap siteDir docsDir subdirPathMap
  = Normal (valueOr ∅ (readSubdirMap siteDir docsDir subdirPathMap)).
Proof.
  unfold readSubdirMetadataMap.
  destruct (_ && _ && _); [|done].
  rewrite (promiseAll_normal _ (fun e => (e.1, valueOr None (readMetadata e.2))));
    [done|].
  intros [name p] _. simpl. unbind. by rewrite readCategoryMetadata_normal.
Qed.

(** The section of a category is always built: its heading, then its
    sections, the one of the root documents first. *)
Lemma categorySection_normal (siteDir docsDir : option string)
    (includeDescriptionInLinks : bool)
    (categoryMetadataMap : gmap string CategoryMetadata)
    (docsByCategory : list (string * list DocInfo)) (category : string) :
  let categoryDocs := default [] (mapGet category docsByCategory) in
  let docsBySubdir := groupBy (subdirOf docsDir) categoryDocs in
  let subdirMetadataMap :=
    valueOr ∅ (readSubdirMap siteDir docsDir
                 (collectSubdirPaths path_join siteDir docsDir categoryDocs)) in
  section siteDir docsDir includeDescriptionInLinks categoryMetadataMap
    docsByCategory category
  = Normal ("## " +:+ displayTitle toUpperCase
                        (categoryMetadataMap !! category) category
              +:+ nl +:+ nl
              +:+ Js.join (nl +:+ nl)
                    (rootSections localeCompare includeDescriptionInLinks
                       docsBySubdir
                     ++ subdirSections localeCompare toUpperCase
                          includeDescriptionInLinks subdirMetadataMap
                          docsBySubdir)).
Proof.
  intros. unfold categorySection.
  rewrite readSubdirMetadataMap_normal. done.
Qed.

Lemma linksContent_normal (docs : list DocInfo)
    (customRootContent siteDir docsDir : option string)
    (includeDescriptionInLinks : bool)
    (m : gmap string CategoryMetadata) :
  readMetadataMap (byCategory docs) siteDir docsDir = Normal m ->
  linksContent localeCompare toUpperCase fs_readFile JSON_parse path_join
    docs customRootContent siteDir docsDir includeDescriptionInLinks
  = Normal
      (rootContentOr customRootContent defaultLinksRootContent +:+ nl +:+ nl
         +:+ Js.join (nl +:+ nl)
               ((fun c =>
                   valueOr EmptyString
                     (section siteDir docsDir includeDescriptionInLinks m
                        (byCategory docs) c))
                  <$> sortedCategories localeCompare m (byCategory docs))).
Proof.
  intros Hm. unfold linksContent. rewrite Hm. unbind.
  rewrite (promiseAll_normal _
             (fun c => valueOr EmptyString
                         (section siteDir docsDir includeDescriptionInLinks m
                            (byCategory docs) c))); [done|].
  intros c _. by rewrite categorySection_normal.
Qed.

End LinksFacts.

(** ** Descriptor lookup never fails *)

Lemma NoDup_fst_unique {A B} (l : list (A * B)) (k : A) (v1 v2 : B) :
  NoDup l.*1 -> (k, v1) ∈ l -> (k, v2) ∈ l -> v1 = v2.
Proof.
  induction l as [|[k' v'] l IH]; intros Hnd H1 H2.
  - by apply elem_of_nil in H1.
  - rewrite fmap_cons in Hnd. apply NoDup_cons in Hnd as [Hk Hnd].
    simpl in Hk.
    apply elem_of_cons in H1 as [H1|H1];
      apply elem_of_cons in H2 as [H2|H2].
    + congruence.
    + injection H1 as -> ->. destruct Hk.
      apply list_elem_of_fmap. by exists (k', v2).
    + injection H2 as -> ->. destruct Hk.
      apply list_elem_of_fmap. by exists (k', v1).
    + by apply IH.
Qed.

(** The table of the categories holds, for every category, what the lookup
    returns for its first document. *)
Lemma readCategoryMetadataMap_lookup
    (fs_readFile : string -> Completion string)
    (JSON_parse : string -> Completion CategoryData)
    (path_join : string -> string -> string)
    (docs : list DocInfo) (siteDir docsDir : string)
    (m : gmap string CategoryMetadata)
    (c : string) (sampleDoc : DocInfo) (rest : list DocInfo) :
  siteDir <> EmptyString -> docsDir <> EmptyString ->
  readCategoryMetadataMap fs_readFile JSON_parse path_join
    (groupBy (fun doc => extractCategoryFromPath (path doc)) docs)
    (Some siteDir) (Some docsDir) = Normal m ->
  mapGet c (groupBy (fun doc => extractCategoryFromPath (path doc)) docs)
  = Some (sampleDoc :: rest) ->
  m !! c
  = Some (valueOr defaultMetadata
            (getCategoryMetadata fs_readFile JSON_parse path_join
               (path sampleDoc) siteDir docsDir)).
Proof.
  intros Hs Hd Hm Hget.
  rewrite readCategoryMetadataMap_truthy in Hm by done.
  injection Hm as <-.
  set (entries := categoryEntry fs_readFile JSON_parse path_join siteDir
                    docsDir
                    <$> groupBy (fun doc => extractCategoryFromPath (path doc))
                          docs).
  assert (entries.*1
          = mapKeys (groupBy (fun doc => extractCategoryFromPath (path doc))
                       docs)) as Hkeys.
  { unfold entries, mapKeys. rewrite <- list_fmap_compose.
    by apply list_fmap_ext. }
  assert ((c, valueOr defaultMetadata
                (getCategoryMetadata fs_readFile JSON_parse path_join
                   (path sampleDoc) siteDir docsDir)) ∈ entries) as Hin.
  { apply list_elem_of_fmap. exists (c, sampleDoc :: rest).
    split; [done|]. by apply mapGet_elem_of. }
  destruct (foldl_insert_is_Some entries ∅ c) as [md Hmd].
  { apply list_elem_of_fmap. by eexists (_, _). }
  rewrite Hmd. f_equal.
  apply foldl_insert_Some in Hmd as [Hmd|Hmd];
    [|by rewrite lookup_empty in Hmd].
  apply (NoDup_fst_unique entries c); [|done|done].
  rewrite Hkeys. apply NoDup_mapKeys_groupBy.
Qed.

(** C7, as the code has it.  For every directory, a failure to read or to
    parse the descriptor file makes the low-level reader return null, and
    the reader never throws.  The lookup of a category never throws
    either; it returns the default descriptor, position 999 and no label,
    when the reader returns null for the directory of the category, and
    for every path whose first segment is not the docs directory.  So the
    links-only text is always produced.  The categories come in ascending
    position, each at the position that its lookup returns, which is 999
    where the lookup fails, and in the order of [localeCompare] where the
    positions are equal: a category whose lookup fails comes after the
    categories of a lower position, whatever its name.  When every
    descriptor fails, the categories and the subdirectories are in the
    order of [localeCompare]. *)
Theorem descriptor_lookup_defaults
    (localeCompare : string -> string -> Z) (toUpperCase : string -> string)
    (fs_readFile : string -> Completion string)
    (JSON_parse : string -> Completion CategoryData)
    (path_join : string -> string -> string)
    (localeCompare_total : TotalCompare localeCompare) :
  let read := readCategoryMetadata fs_readFile JSON_parse path_join in
  let get := getCategoryMetadata fs_readFile JSON_parse path_join in
  let failing (dir : string) :=
    (exists e, fs_readFile (path_join dir "_category_.json") = Throw e)
    \/ (exists text e,
           fs_readFile (path_join dir "_category_.json") = Normal text
           /\ JSON_parse text = Throw e) in
  (forall dir, failing dir -> read dir = Normal None)
  /\ (forall dir, exists r, read dir = Normal r)
  /\ (forall docPath siteDir docsDir,
        exists md, get docPath siteDir docsDir = Normal md)
  /\ (forall docPath siteDir docsDir,
        let pathParts :=
          Js.split "/" (Re.stripMdxExt (Re.stripSlashes docPath)) in
        read (path_join siteDir
                (Js.join "/" (take (3 `min` length pathParts) pathParts)))
          = Normal None ->
        get docPath siteDir docsDir = Normal defaultMetadata)
  /\ (forall docPath siteDir docsDir,
        Js.nth 0 (Js.split "/" (Re.stripMdxExt (Re.stripSlashes docPath)))
          <> docsDir ->
        get docPath siteDir docsDir = Normal defaultMetadata)
  /\ (forall docs customRootContent siteDir docsDir includeDescriptionInLinks,
        exists text,
          linksContent localeCompare toUpperCase fs_readFile JSON_parse
            path_join docs customRootContent siteDir docsDir
            includeDescriptionInLinks = Normal text)
  /\ (forall docs siteDir docsDir,
        let docsByCategory :=
          groupBy (fun doc => extractCategoryFromPath (path doc)) docs in
        exists m,
          readCategoryMetadataMap fs_readFile JSON_parse path_join
            docsByCategory siteDir docsDir = Normal m
          /\ StronglySorted (nameOrder localeCompare m)
               (sortedCategories localeCompare m docsByCategory)
          /\ forall site dir c sampleDoc rest,
               siteDir = Some site -> docsDir = Some dir ->
               site <> EmptyString -> dir <> EmptyString ->
               mapGet c docsByCategory = Some (sampleDoc :: rest) ->
               exists md,
                 get (path sampleDoc) site dir = Normal md
                 /\ m !! c = Some md)
  /\ ((forall dir, failing dir) ->
      forall docs siteDir docsDir,
        let docsByCategory :=
          groupBy (fun doc => extractCategoryFromPath (path doc)) docs in
        exists m,
          readCategoryMetadataMap fs_readFile JSON_parse path_join
            docsByCategory siteDir docsDir = Normal m
          /\ StronglySorted (fun a b => (localeCompare a b <= 0)%Z)
               (sortedCategories localeCompare m docsByCategory)
          /\ forall categoryDocs,
               readSubdirMetadataMap fs_readFile JSON_parse path_join
                 siteDir docsDir
                 (collectSubdirPaths path_join siteDir docsDir categoryDocs)
                 = Normal ∅
               /\ StronglySorted (fun a b => (localeCompare a b <= 0)%Z)
                    (sortedSubdirs localeCompare ∅
                       (groupBy (subdirOf docsDir) categoryDocs))).
Proof.
  intros read get failing.
  assert (forall dir, failing dir -> read dir = Normal None) as Hfail
    by apply readCategoryMetadata_failure.
  split; [done|].
  split; [intros dir; eexists; apply readCategoryMetadata_normal|].
  split; [intros; eexists; apply getCategoryMetadata_normal|].
  split.
  { intros docPath siteDir docsDir pathParts Hnull.
    unfold get. unfold read in Hnull. subst pathParts.
    pose proof (getCategoryMetadata_cases fs_readFile JSON_parse path_join
                  docPath siteDir docsDir) as Hcases.
    cbv zeta in Hcases. rewrite Hcases. case_decide; [|done].
    by rewrite Hnull. }
  split.
  { intros docPath siteDir docsDir Hne. unfold get.
    pose proof (getCategoryMetadata_cases fs_readFile JSON_parse path_join
                  docPath siteDir docsDir) as Hcases.
    cbv zeta in Hcases. rewrite Hcases. rewrite decide_False; [done|]. tauto. }
  split.
  { intros docs customRootContent siteDir docsDir includeDescriptionInLinks.
    destruct (readCategoryMetadataMap_normal fs_readFile JSON_parse path_join
                docs siteDir docsDir) as (m & Hm & _).
    eexists. by apply linksContent_normal. }
  split.
  { intros docs siteDir docsDir docsByCategory.
    destruct (readCategoryMetadataMap_normal fs_readFile JSON_parse path_join
                docs siteDir docsDir) as (m & Hm & Huniform & _).
    exists m. split; [done|]. split.
    - apply (arraySort_compareCategories_sorted _ localeCompare_total m
               (fun c => c ∈ mapKeys docsByCategory) Huniform).
      by apply Forall_forall.
    - intros site dir c sampleDoc rest -> -> Hsite Hdir Hget.
      eexists. split; [apply getCategoryMetadata_normal|].
      by apply (readCategoryMetadataMap_lookup _ _ _ docs site dir m c
                  sampleDoc rest). }
  intros Hall docs siteDir docsDir docsByCategory.
  destruct (readCategoryMetadataMap_normal fs_readFile JSON_parse path_join
              docs siteDir docsDir) as (m & Hm & Huniform & Hvalues).
  exists m. split; [done|]. split.
  { apply (nameOrder_default _ m).
    - intros c md [->|[dir Hdir]]%Hvalues; [done|].
      fold read in Hdir. rewrite (Hfail dir (Hall dir)) in Hdir. done.
    - apply (arraySort_compareCategories_sorted _ localeCompare_total m
               (fun c => c ∈ mapKeys docsByCategory) Huniform).
      by apply Forall_forall. }
  intros categoryDocs. split.
  { unfold readSubdirMetadataMap. destruct (_ && _ && _); [|done].
    rewrite (promiseAll_normal _ (fun e => (e.1, None))).
    - unbind. f_equal. apply foldl_insert_Some_None.
      apply Forall_forall. by intros e [e' [-> _]]%list_elem_of_fmap.
    - intros [name p] _. simpl. fold read. rewrite (Hfail p (Hall p)). done. }
  apply (nameOrder_default _ ∅).
  { intros c md H. by rewrite lookup_empty in H. }
  unfold sortedSubdirs. rewrite compareSubdirs_eq.
  apply (arraySort_compareCategories_sorted _ localeCompare_total ∅
           (fun _ => True)).
  - right. intros c _. apply lookup_empty.
  - by apply Forall_forall.
Qed.

(** C7 on a site where the category [beta] has a descriptor, of position
    1, and the category [alpha] has none: the reader returns null for
    [alpha], its lookup returns the default descriptor, and [alpha], at
    position 999, comes after [beta]. *)
Lemma descriptor_lookup_defaults_witness :
  readCategoryMetadata (Fixture.readFileOf Fixture.mixedFiles)
    Fixture.parseDescriptor Fixture.joinPath "site/docs/a/alpha" = Normal None
  /\ getCategoryMetadata (Fixture.readFileOf Fixture.mixedFiles)
       Fixture.parseDescriptor Fixture.joinPath "docs/a/alpha/x" "site" "docs"
     = Normal defaultMetadata
  /\ exists m,
       readCategoryMetadataMap (Fixture.readFileOf Fixture.mixedFiles)
         Fixture.parseDescriptor Fixture.joinPath
         (groupBy (fun doc => extractCategoryFromPath (path doc))
            Fixture.mixedDocs)
         (Some "site") (Some "docs") = Normal m
       /\ m !! "alpha" = Some defaultMetadata
       /\ m !! "beta" = Some {| position := 1; label := None |}
       /\ sortedCategories Fixture.codeUnitCompare m
            (groupBy (fun doc => extractCategoryFromPath (path doc))
               Fixture.mixedDocs)
          = ["beta"; "alpha"]
       /\ StronglySorted (nameOrder Fixture.codeUnitCompare m)
            (sortedCategories Fixture.codeUnitCompare m
               (groupBy (fun doc => extractCategoryFromPath (path doc))
                  Fixture.mixedDocs)).
Proof.
  pose proof (descriptor_lookup_defaults Fixture.codeUnitCompare
                Fixture.asciiUpperCase
                (Fixture.readFileOf Fixture.mixedFiles)
                Fixture.parseDescriptor Fixture.joinPath
                codeUnitCompare_total)
    as (Hnull & _ & _ & Hdefault & _ & _ & Hsorted & _).
  assert (readCategoryMetadata (Fixture.readFileOf Fixture.mixedFiles)
            Fixture.parseDescriptor Fixture.joinPath "site/docs/a/alpha"
          = Normal None) as Halpha.
  { apply Hnull. left. exists ReadError. reflexivity. }
  split; [exact Halpha|].
  split; [apply (Hdefault "docs/a/alpha/x" "site" "docs"); exact Halpha|].
  destruct (Hsorted Fixture.mixedDocs (Some "site") (Some "docs"))
    as (m & Hm & Hs & Hlookup).
  exists m. split; [exact Hm|].
  destruct (Hlookup "site" "docs" "alpha"
              (Fixture.doc "X" "docs/a/alpha/x" None) []
              eq_refl eq_refl ltac:(discriminate) ltac:(discriminate)
              eq_refl) as (mdA & HgetA & HmA).
  destruct (Hlookup "site" "docs" "beta"
              (Fixture.doc "Y" "docs/a/beta/y" None) []
              eq_refl eq_refl ltac:(discriminate) ltac:(discriminate)
              eq_refl) as (mdB & HgetB & HmB).
  vm_compute in HgetA. injection HgetA as <-.
  vm_compute in HgetB. injection HgetB as <-.
  split; [exact HmA|]. split; [exact HmB|]. split; [|exact Hs].
  unfold sortedCategories, arraySort, mapKeys.
  change (groupBy (fun doc => extractCategoryFromPath (path doc))
            Fixture.mixedDocs)
    with [("alpha", [Fixture.doc "X" "docs/a/alpha/x" None]);
          ("beta", [Fixture.doc "Y" "docs/a/beta/y" None])].
  cbn [fmap list_fmap fst foldr insertSorted].
  unfold compareCategories. rewrite HmA, HmB. reflexivity.
Defined.

(** C7, as the specification words it, fails: on that site the lookup of
    [alpha] fails, and the categories do not fall back to the order of
    their names, in which [alpha] comes before [beta]. *)
Lemma alphabetical_fallback_counterexample :
  ~ (readCategoryMetadata (Fixture.readFileOf Fixture.mixedFiles)
       Fixture.parseDescriptor Fixture.joinPath "site/docs/a/alpha"
     = Normal None ->
     forall m,
       readCategoryMetadataMap (Fixture.readFileOf Fixture.mixedFiles)
         Fixture.parseDescriptor Fixture.joinPath
         (groupBy (fun doc => extractCategoryFromPath (path doc))
            Fixture.mixedDocs)
         (Some "site") (Some "docs") = Normal m ->
       StronglySorted (fun a b => (Fixture.codeUnitCompare a b <= 0)%Z)
         (sortedCategories Fixture.codeUnitCompare m
            (groupBy (fun doc => extractCategoryFromPath (path doc))
               Fixture.mixedDocs))).
Proof.
  intros H. specialize (H eq_refl).
  destruct (readCategoryMetadataMap_normal
              (Fixture.readFileOf Fixture.mixedFiles) Fixture.parseDescriptor
              Fixture.joinPath Fixture.mixedDocs (Some "site") (Some "docs"))
    as (m & Hm & _).
  specialize (H m Hm).
  pose proof (readCategoryMetadataMap_lookup _ _ _ _ "site" "docs" m "alpha"
                (Fixture.doc "X" "docs/a/alpha/x" None) []
                ltac:(discriminate) ltac:(discriminate) Hm eq_refl) as HmA.
  pose proof (readCategoryMetadataMap_lookup _ _ _ _ "site" "docs" m "beta"
                (Fixture.doc "Y" "docs/a/beta/y" None) []
                ltac:(discriminate) ltac:(discriminate) Hm eq_refl) as HmB.
  match type of HmA with
  | _ = Some ?md => let md' := eval vm_compute in md in change md with md' in HmA
  end.
  match type of HmB with
  | _ = Some ?md => let md' := eval vm_compute in md in change md with md' in HmB
  end.
  unfold sortedCategories, arraySort, mapKeys in H.
  change (groupBy (fun doc => extractCategoryFromPath (path doc))
            Fixture.mixedDocs)
    with [("alpha", [Fixture.doc "X" "docs/a/alpha/x" None]);
          ("beta", [Fixture.doc "Y" "docs/a/beta/y" None])] in H.
  cbn [fmap list_fmap fst foldr insertSorted] in H.
  unfold compareCategories in H. rewrite HmA, HmB in H.
  change (StronglySorted (fun a b => (Fixture.codeUnitCompare a b <= 0)%Z)
            ["beta"; "alpha"]) in H.
  apply StronglySorted_inv in H as [_ H].
  apply Forall_cons in H as [H _]. vm_compute in H. by apply H.
Qed.

(** ** Categories without subdirectories *)

Lemma groupBy_const {K V : Type} `{EqDecision K} (key : V -> K) (k0 : K)
    (vs : list V) :
  (forall v, v ∈ vs -> key v = k0) -> vs <> [] ->
  groupBy key vs = [(k0, vs)].
Proof.
  intros Hkey Hne. destruct vs as [|v0 vs]; [done|].
  unfold groupBy. cbn [foldl pushTo].
  rewrite (Hkey v0) by apply list_elem_of_here.
  assert (forall v, v ∈ vs -> key v = k0) as Hvs
    by (intros v Hv; apply Hkey; by apply list_elem_of_further).
  clear Hkey Hne. change (v0 :: vs) with ([v0] ++ vs).
  generalize [v0] as acc. induction vs as [|v vs IH]; intros acc.
  - by rewrite app_nil_r.
  - cbn [foldl pushTo]. rewrite (Hvs v) by apply list_elem_of_here.
    rewrite decide_True by done.
    rewrite IH by (intros v' Hv'; apply Hvs; by apply list_elem_of_further).
    by rewrite <- app_assoc.
Qed.

Section FlatFacts.
Variable localeCompare : string -> string -> Z.
Variable toUpperCase : string -> string.
Variable fs_readFile : string -> Completion string.
Variable JSON_parse : string -> Completion CategoryData.
Variable path_join : string -> string -> string.

Lemma collectSubdirPaths_flat (siteDir docsDir : option string)
    (categoryDocs : list DocInfo) :
  (forall doc, doc ∈ categoryDocs -> subdirOf docsDir doc = None) ->
  collectSubdirPaths path_join siteDir docsDir categoryDocs = [].
Proof.
  intros H. unfold collectSubdirPaths.
  match goal with
  | |- foldl ?f [] _ = _ =>
      cut (forall acc, foldl f acc categoryDocs = acc); [intros Hc; apply Hc|]
  end.
  induction categoryDocs as [|doc docs IH]; intros acc; [done|].
  cbn [foldl]. rewrite (H doc) by apply list_elem_of_here.
  apply IH. intros doc' Hdoc'. apply H. by apply list_elem_of_further.
Qed.

(** The sections of a category whose documents all sit at its root: the
    one list of their links, sorted, and no subdirectory section. *)
Lemma sections_flat (docsDir : option string) (includeDescriptionInLinks : bool)
    (subdirMetadataMap : gmap string CategoryMetadata)
    (categoryDocs : list DocInfo) :
  (forall doc, doc ∈ categoryDocs -> subdirOf docsDir doc = None) ->
  categoryDocs <> [] ->
  rootSections localeCompare includeDescriptionInLinks
    (groupBy (subdirOf docsDir) categoryDocs)
  = [Js.join nl
       ((fun doc => generateLinkItem doc includeDescriptionInLinks)
          <$> sortDocsByPosition localeCompare categoryDocs)]
  /\ subdirSections localeCompare toUpperCase includeDescriptionInLinks
       subdirMetadataMap (groupBy (subdirOf docsDir) categoryDocs)
     = [].
Proof.
  intros Hflat Hne. rewrite (groupBy_const _ None) by done.
  split.
  - unfold rootSections. cbn [mapGet]. rewrite decide_True by done.
    cbn [from_option id]. destruct categoryDocs; [done|]. reflexivity.
  - reflexivity.
Qed.

Lemma categorySection_flat (siteDir docsDir : option string)
    (includeDescriptionInLinks : bool)
    (categoryMetadataMap : gmap string CategoryMetadata)
    (docsByCategory : list (string * list DocInfo)) (category : string)
    (categoryDocs : list DocInfo) :
  mapGet category docsByCategory = Some categoryDocs ->
  (forall doc, doc ∈ categoryDocs -> subdirOf docsDir doc = None) ->
  categoryDocs <> [] ->
  categorySection localeCompare toUpperCase fs_readFile JSON_parse path_join
    siteDir docsDir includeDescriptionInLinks categoryMetadataMap
    docsByCategory category
  = Normal ("## " +:+ displayTitle toUpperCase
                        (categoryMetadataMap !! category) category
              +:+ nl +:+ nl
              +:+ Js.join nl
                    ((fun doc => generateLinkItem doc includeDescriptionInLinks)
                       <$> sortDocsByPosition localeCompare categoryDocs)).
Proof.
  intros Hget Hflat Hne. rewrite categorySection_normal. rewrite Hget.
  cbn [from_option id].
  destruct (sections_flat docsDir includeDescriptionInLinks
              (valueOr ∅
                 (readSubdirMetadataMap fs_readFile JSON_parse path_join
                    siteDir docsDir
                    (collectSubdirPaths path_join siteDir docsDir
                       categoryDocs)))
              categoryDocs Hflat Hne) as [-> ->].
  reflexivity.
Qed.

End FlatFacts.

(** ** The end-to-end scenario *)

Section Scenario.
Variable localeCompare : string -> string -> Z.
Variable toUpperCase : string -> string.
Variable fs_readFile : string -> Completion string.
Variable JSON_parse : string -> Completion CategoryData.
Variable path_join : string -> string -> string.
Variables (x y z : DocInfo) (siteDir : string) (label1 label2 : option string).
Hypothesis siteDir_truthy : siteDir <> EmptyString.
Hypothesis path_x : path x = "docs/a/cat1/x".
Hypothesis path_y : path y = "docs/a/cat1/y".
Hypothesis path_z : path z = "docs/a/cat2/z".
Hypothesis position_x : frontMatter x ≫= sidebar_position = Some 2%Z.
Hypothesis position_y : frontMatter y ≫= sidebar_position = Some 1%Z.
Hypothesis position_z : frontMatter z ≫= sidebar_position = None.
Hypothesis descriptor_cat1 :
  readCategoryMetadata fs_readFile JSON_parse path_join
    (path_join siteDir "docs/a/cat1")
  = Normal (Some {| position := 1; label := label1 |}).
Hypothesis descriptor_cat2 :
  readCategoryMetadata fs_readFile JSON_parse path_join
    (path_join siteDir "docs/a/cat2")
  = Normal (Some {| position := 0; label := label2 |}).

Lemma scenario_docsByCategory :
  groupBy (fun doc => extractCategoryFromPath (path doc)) [x; y; z]
  = [("cat1", [x; y]); ("cat2", [z])].
Proof using path_x path_y path_z.
  unfold groupBy. cbn [foldl]. rewrite path_x, path_y, path_z.
  vm_compute. reflexivity.
Qed.

Lemma scenario_categoryMetadataMap :
  readCategoryMetadataMap fs_readFile JSON_parse path_join
    (groupBy (fun doc => extractCategoryFromPath (path doc)) [x; y; z])
    (Some siteDir) (Some "docs")
  = Normal (<["cat2" := {| position := 0; label := label2 |}]>
              (<["cat1" := {| position := 1; label := label1 |}]> ∅)).
Proof using All.
  rewrite readCategoryMetadataMap_truthy by done.
  rewrite scenario_docsByCategory. cbn [fmap list_fmap foldl].
  unfold categoryEntry. cbn [fst snd].
  rewrite path_x, path_z. unfold getCategoryMetadata.
  change (Js.split "/" (Re.stripMdxExt (Re.stripSlashes "docs/a/cat1/x")))
    with ["docs"; "a"; "cat1"; "x"].
  change (Js.split "/" (Re.stripMdxExt (Re.stripSlashes "docs/a/cat2/z")))
    with ["docs"; "a"; "cat2"; "z"].
  change (Js.join "/" (take 3 ["docs"; "a"; "cat1"; "x"])) with "docs/a/cat1".
  change (Js.join "/" (take 3 ["docs"; "a"; "cat2"; "z"])) with "docs/a/cat2".
  rewrite descriptor_cat1, descriptor_cat2. reflexivity.
Qed.

Lemma scenario_sortedCategories :
  sortedCategories localeCompare
    (<["cat2" := {| position := 0; label := label2 |}]>
       (<["cat1" := {| position := 1; label := label1 |}]> ∅))
    [("cat1", [x; y]); ("cat2", [z])]
  = ["cat2"; "cat1"].
Proof.
  unfold sortedCategories, arraySort, mapKeys.
  cbn [fmap list_fmap fst foldr insertSorted].
  unfold compareCategories.
  rewrite lookup_insert_eq.
  rewrite lookup_insert_ne by done. rewrite lookup_insert_eq.
  reflexivity.
Qed.

Lemma scenario_subdirOf :
  subdirOf (Some "docs") x = None
  /\ subdirOf (Some "docs") y = None
  /\ subdirOf (Some "docs") z = None.
Proof using path_x path_y path_z.
  unfold subdirOf. rewrite path_x, path_y, path_z. by repeat split.
Qed.

Lemma scenario_sorted_cat1 : sortDocsByPosition localeCompare [x; y] = [y; x].
Proof using position_x position_y.
  unfold sortDocsByPosition, arraySort. cbn [foldr insertSorted].
  unfold compareDocs, effectivePosition. rewrite position_x, position_y.
  reflexivity.
Qed.

Lemma scenario_linksContent (customRootContent : option string)
    (includeDescriptionInLinks : bool) :
  linksContent localeCompare toUpperCase fs_readFile JSON_parse path_join
    [x; y; z] customRootContent (Some siteDir) (Some "docs")
    includeDescriptionInLinks
  = Normal
      (rootContentOr customRootContent defaultLinksRootContent
         +:+ nl +:+ nl
         +:+ "## "
         +:+ displayTitle toUpperCase
               (Some {| position := 0; label := label2 |}) "cat2"
         +:+ nl +:+ nl
         +:+ generateLinkItem z includeDescriptionInLinks
         +:+ nl +:+ nl
         +:+ "## "
         +:+ displayTitle toUpperCase
               (Some {| position := 1; label := label1 |}) "cat1"
         +:+ nl +:+ nl
         +:+ generateLinkItem y includeDescriptionInLinks
         +:+ nl
         +:+ generateLinkItem x includeDescriptionInLinks).
Proof using All.
  rewrite (linksContent_normal _ _ _ _ _ _ _ _ _ _ _
             scenario_categoryMetadataMap).
  rewrite scenario_docsByCategory, scenario_sortedCategories.
  cbn [fmap list_fmap].
  destruct scenario_subdirOf as (Hsx & Hsy & Hsz).
  rewrite (categorySection_flat _ _ _ _ _ _ _ _ _ _ "cat2" [z]);
    [|reflexivity
     |by intros doc ->%list_elem_of_singleton
     |done].
  rewrite (categorySection_flat _ _ _ _ _ _ _ _ _ _ "cat1" [x; y]);
    [|reflexivity
     |by intros doc [->| ->%list_elem_of_singleton]%elem_of_cons
     |done].
  rewrite scenario_sorted_cat1.
  rewrite lookup_insert_eq.
  rewrite lookup_insert_ne by done. rewrite lookup_insert_eq.
  cbn [valueOr fmap list_fmap]. unfold sortDocsByPosition, arraySort.
  cbn [foldr insertSorted Js.join String.concat].
  f_equal. rewrite !JsFacts.append_assoc. reflexivity.
Qed.

End Scenario.

(** ** The order of the category sections *)

Lemma sortedCategories_Permutation (localeCompare : string -> string -> Z)
    (m : gmap string CategoryMetadata)
    (docsByCategory : list (string * list DocInfo)) :
  sortedCategories localeCompare m docsByCategory ≡ₚ mapKeys docsByCategory.
Proof. apply arraySort_Permutation. Qed.

(** C1.  In the links-only text the category sections stand in ascending
    order of descriptor position, and in the order of [localeCompare] on
    the category keys where the positions are equal (999 stands for a
    missing descriptor).  For the documents [docs/a/cat1/x] (position 2),
    [docs/a/cat1/y] (position 1) and [docs/a/cat2/z] (no position), with
    descriptors of position 1 for [cat1] and 0 for [cat2], the section of
    [cat2] comes first, and in the section of [cat1] the entry of [y] comes
    before the entry of [x]. *)
Theorem category_sections_order
    (localeCompare : string -> string -> Z) (toUpperCase : string -> string)
    (fs_readFile : string -> Completion string)
    (JSON_parse : string -> Completion CategoryData)
    (path_join : string -> string -> string)
    (localeCompare_total : TotalCompare localeCompare) :
  (forall docs customRootContent siteDir docsDir includeDescriptionInLinks,
     let docsByCategory :=
       groupBy (fun doc => extractCategoryFromPath (path doc)) docs in
     exists (m : gmap string CategoryMetadata) (sectionOf : string -> string),
       readCategoryMetadataMap fs_readFile JSON_parse path_join
         docsByCategory siteDir docsDir = Normal m
       /\ (forall c,
             categorySection localeCompare toUpperCase fs_readFile JSON_parse
               path_join siteDir docsDir includeDescriptionInLinks m
               docsByCategory c = Normal (sectionOf c)
             /\ exists body,
                  sectionOf c =
                    "## " +:+ displayTitle toUpperCase (m !! c) c
                      +:+ nl +:+ nl +:+ body)
       /\ linksContent localeCompare toUpperCase fs_readFile JSON_parse
            path_join docs customRootContent siteDir docsDir
            includeDescriptionInLinks
          = Normal
              (rootContentOr customRootContent defaultLinksRootContent
                 +:+ nl +:+ nl
                 +:+ Js.join (nl +:+ nl)
                       (sectionOf
                          <$> sortedCategories localeCompare m docsByCategory))
       /\ NoDup (sortedCategories localeCompare m docsByCategory)
       /\ (forall c,
             c ∈ sortedCategories localeCompare m docsByCategory
             <-> exists doc,
                   doc ∈ docs /\ extractCategoryFromPath (path doc) = c)
       /\ StronglySorted (nameOrder localeCompare m)
            (sortedCategories localeCompare m docsByCategory))
  /\ (forall (x y z : DocInfo) (siteDir : string) (label1 label2 : option string)
        (customRootContent : option string) (includeDescriptionInLinks : bool),
        siteDir <> EmptyString ->
        path x = "docs/a/cat1/x" ->
        path y = "docs/a/cat1/y" ->
        path z = "docs/a/cat2/z" ->
        frontMatter x ≫= sidebar_position = Some 2%Z ->
        frontMatter y ≫= sidebar_position = Some 1%Z ->
        frontMatter z ≫= sidebar_position = None ->
        readCategoryMetadata fs_readFile JSON_parse path_join
          (path_join siteDir "docs/a/cat1")
          = Normal (Some {| position := 1; label := label1 |}) ->
        readCategoryMetadata fs_readFile JSON_parse path_join
          (path_join siteDir "docs/a/cat2")
          = Normal (Some {| position := 0; label := label2 |}) ->
        linksContent localeCompare toUpperCase fs_readFile JSON_parse
          path_join [x; y; z] customRootContent (Some siteDir) (Some "docs")
          includeDescriptionInLinks
        = Normal
            (rootContentOr customRootContent defaultLinksRootContent
               +:+ nl +:+ nl
               +:+ "## "
               +:+ displayTitle toUpperCase
                     (Some {| position := 0; label := label2 |}) "cat2"
               +:+ nl +:+ nl
               +:+ generateLinkItem z includeDescriptionInLinks
               +:+ nl +:+ nl
               +:+ "## "
               +:+ displayTitle toUpperCase
                     (Some {| position := 1; label := label1 |}) "cat1"
               +:+ nl +:+ nl
               +:+ generateLinkItem y includeDescriptionInLinks
               +:+ nl
               +:+ generateLinkItem x includeDescriptionInLinks)).
Proof.
  split.
  - intros docs customRootContent siteDir docsDir includeDescriptionInLinks
      docsByCategory.
    destruct (readCategoryMetadataMap_normal fs_readFile JSON_parse path_join
                docs siteDir docsDir) as (m & Hm & Huniform & _).
    exists m,
      (fun c => valueOr EmptyString
                  (categorySection localeCompare toUpperCase fs_readFile
                     JSON_parse path_join siteDir docsDir
                     includeDescriptionInLinks m docsByCategory c)).
    split; [done|]. split; [|split; [|split; [|split]]].
    + intros c. rewrite categorySection_normal. split; [done|]. simpl. eauto.
    + by apply linksContent_normal.
    + rewrite sortedCategories_Permutation. apply NoDup_mapKeys_groupBy.
    + intros c. rewrite sortedCategories_Permutation.
      apply elem_of_mapKeys_groupBy.
    + apply (arraySort_compareCategories_sorted _ localeCompare_total m
               (fun c => c ∈ mapKeys docsByCategory) Huniform).
      by apply Forall_forall.
  - intros x y z siteDir label1 label2 customRootContent
      includeDescriptionInLinks Hsite Hx Hy Hz Hpx Hpy Hpz Hr1 Hr2.
    by apply scenario_linksContent.
Qed.

(** C1 on the scenario, with descriptor files of position 1 for [cat1] and
    0 for [cat2], code-unit comparison and upper case of ASCII letters *)
Lemma category_sections_order_witness :
  linksContent Fixture.codeUnitCompare Fixture.asciiUpperCase
    (Fixture.readFileOf Fixture.scenarioFiles) Fixture.parseDescriptor
    Fixture.joinPath Fixture.scenarioDocs None (Some "site") (Some "docs")
    true
  = Normal
      (defaultLinksRootContent +:+ nl +:+ nl
         +:+ "## Cat2" +:+ nl +:+ nl
         +:+ "- [Z](https://example.com/docs/a/cat2/z)" +:+ nl +:+ nl
         +:+ "## Cat1" +:+ nl +:+ nl
         +:+ "- [Y](https://example.com/docs/a/cat1/y)" +:+ nl
         +:+ "- [X](https://example.com/docs/a/cat1/x)").
Proof.
  exact (proj2 (category_sections_order Fixture.codeUnitCompare
                  Fixture.asciiUpperCase
                  (Fixture.readFileOf Fixture.scenarioFiles)
                  Fixture.parseDescriptor Fixture.joinPath
                  codeUnitCompare_total)
           (Fixture.doc "X" "docs/a/cat1/x" (Some 2%Z))
           (Fixture.doc "Y" "docs/a/cat1/y" (Some 1%Z))
           (Fixture.doc "Z" "docs/a/cat2/z" None)
           "site" None None None true
           ltac:(discriminate) eq_refl eq_refl eq_refl eq_refl eq_refl eq_refl
           eq_refl eq_refl).
Defined.

(** ** Links without a docs directory *)

Lemma mapGet_groupBy_elem {K V : Type} `{EqDecision K} (key : V -> K)
    (vs : list V) (k : K) :
  k ∈ mapKeys (groupBy key vs) ->
  mapGet k (groupBy key vs) = Some (filter (fun v => key v = k) vs)
  /\ filter (fun v => key v = k) vs <> [].
Proof.
  intros Hin. pose proof (mapGet_None k (groupBy key vs)) as Hnone.
  rewrite mapGet_groupBy in *.
  destruct (filter (fun v => key v = k) vs); [|done].
  exfalso. by apply Hnone.
Qed.

(** C10.  When the generator is called without a docs directory, every
    document gets the null subdirectory; the section of each category is
    its heading and one list of the links of its documents, sorted by
    position (999 when absent) and then by path; and no category has a
    subdirectory section, the only place a third-level heading is
    written. *)
Theorem links_without_docsDir
    (localeCompare : string -> string -> Z) (toUpperCase : string -> string)
    (fs_readFile : string -> Completion string)
    (JSON_parse : string -> Completion CategoryData)
    (path_join : string -> string -> string)
    (localeCompare_total : TotalCompare localeCompare)
    (docs : list DocInfo) (customRootContent siteDir docsDir : option string)
    (includeDescriptionInLinks : bool)
    (docsDir_falsy : Js.truthy docsDir = false) :
  let docsOf (c : string) :=
    filter (fun doc => extractCategoryFromPath (path doc) = c) docs in
  let flatList (c : string) :=
    Js.join nl ((fun doc => generateLinkItem doc includeDescriptionInLinks)
                  <$> sortDocsByPosition localeCompare (docsOf c)) in
  let categories :=
    sortedCategories localeCompare ∅
      (groupBy (fun doc => extractCategoryFromPath (path doc)) docs) in
  (forall doc, subdirOf docsDir doc = None)
  /\ linksContent localeCompare toUpperCase fs_readFile JSON_parse path_join
       docs customRootContent siteDir docsDir includeDescriptionInLinks
     = Normal
         (rootContentOr customRootContent defaultLinksRootContent
            +:+ nl +:+ nl
            +:+ Js.join (nl +:+ nl)
                  ((fun c => "## " +:+ formatCategoryName toUpperCase c
                               +:+ nl +:+ nl +:+ flatList c)
                     <$> categories))
  /\ forall c,
       c ∈ categories ->
       sortDocsByPosition localeCompare (docsOf c) ≡ₚ docsOf c
       /\ StronglySorted (docOrder localeCompare)
            (sortDocsByPosition localeCompare (docsOf c))
       /\ forall subdirMetadataMap,
            rootSections localeCompare includeDescriptionInLinks
              (groupBy (subdirOf docsDir) (docsOf c)) = [flatList c]
            /\ subdirSections localeCompare toUpperCase
                 includeDescriptionInLinks subdirMetadataMap
                 (groupBy (subdirOf docsDir) (docsOf c)) = [].
Proof.
  intros docsOf flatList categories.
  assert (forall doc, subdirOf docsDir doc = None) as Hflat.
  { intros doc. unfold subdirOf. by destruct docsDir as [[|??]|]. }
  assert (forall c, c ∈ categories ->
            mapGet c (groupBy (fun doc => extractCategoryFromPath (path doc))
                        docs) = Some (docsOf c)
            /\ docsOf c <> []) as Hdocs.
  { intros c Hc. apply mapGet_groupBy_elem.
    unfold categories in Hc. by rewrite sortedCategories_Permutation in Hc. }
  split; [done|]. split.
  - rewrite (linksContent_normal _ _ _ _ _ _ _ _ _ _ ∅).
    2:{ apply readCategoryMetadataMap_falsy.
        by rewrite docsDir_falsy, andb_false_r. }
    do 5 f_equal. apply Forall_fmap_ext_1, Forall_forall. intros c Hc.
    destruct (Hdocs c Hc) as [Hget Hne].
    by rewrite (categorySection_flat _ _ _ _ _ _ _ _ _ _ c (docsOf c)).
  - intros c Hc. destruct (Hdocs c Hc) as [Hget Hne].
    split; [apply arraySort_Permutation|].
    split; [by apply sortDocsByPosition_sorted|].
    intros subdirMetadataMap. by apply sections_flat.
Qed.

(** C10 on the documents of the scenario, called without a docs directory *)
Lemma links_without_docsDir_witness :
  linksContent Fixture.codeUnitCompare Fixture.asciiUpperCase
    (Fixture.readFileOf Fixture.scenarioFiles) Fixture.parseDescriptor
    Fixture.joinPath Fixture.scenarioDocs None (Some "site") None true
  = Normal
      (defaultLinksRootContent +:+ nl +:+ nl
         +:+ "## Cat1" +:+ nl +:+ nl
         +:+ "- [Y](https://example.com/docs/a/cat1/y)" +:+ nl
         +:+ "- [X](https://example.com/docs/a/cat1/x)" +:+ nl +:+ nl
         +:+ "## Cat2" +:+ nl +:+ nl
         +:+ "- [Z](https://example.com/docs/a/cat2/z)").
Proof.
  exact (proj1 (proj2 (links_without_docsDir Fixture.codeUnitCompare
                         Fixture.asciiUpperCase
                         (Fixture.readFileOf Fixture.scenarioFiles)
                         Fixture.parseDescriptor Fixture.joinPath
                         codeUnitCompare_total Fixture.scenarioDocs
                         None (Some "site") None true eq_refl))).
Defined.

(** ** The slug of a document *)

Lemma split_snoc (sep : ascii) (s : string) :
  exists dirs lastSeg, Js.split sep s = dirs ++ [lastSeg].
Proof.
  pose proof (JsFacts.split_nonempty sep s) as Hne.
  destruct (Js.split sep s) as [|h t] using rev_ind; [done|]. eauto.
Qed.

Lemma replaceLastSegment_spec (relativePath name : string)
    (dirs : list string) (lastSeg : string) :
  Js.split "/" (Re.stripMdExt relativePath) = dirs ++ [lastSeg] ->
  replaceLastSegment relativePath name
  = Js.join "/" (dirs ++ [name]) +:+ ".md".
Proof.
  intros H. unfold replaceLastSegment. rewrite H. do 2 f_equal.
  rewrite length_app. simpl.
  replace (length dirs + 1 - 1) with (length dirs + 0) by lia.
  by rewrite insert_app_r.
Qed.

(** C8, as the code has it.  For every document whose frontmatter declares
    a slug, the final segment of the derived relative path, and no other,
    is replaced by the slug without the slashes at its ends: the slashes
    inside the slug stay, so a slug of several segments brings all of
    them.  A slug that begins with a slash gives the same path as the slug
    without it. *)
Theorem slug_replaces_final_segment (doc : DocInfo) (docsDir s : string)
    (slug_declared : frontMatter doc ≫= slug = Some s)
    (slug_truthy : s <> EmptyString) :
  (exists (dirs : list string) (lastSeg : string),
      Js.split "/" (Re.stripMdExt (derivedRelativePath doc docsDir))
        = dirs ++ [lastSeg]
      /\ namedRelativePath doc docsDir
         = Js.join "/" (dirs ++ [Re.stripSlashes s]) +:+ ".md")
  /\ (forall doc' : DocInfo,
        path doc' = path doc ->
        frontMatter doc' ≫= slug = Some ("/" +:+ s) ->
        namedRelativePath doc' docsDir = namedRelativePath doc docsDir).
Proof.
  assert (namedRelativePath doc docsDir
          = replaceLastSegment (derivedRelativePath doc docsDir)
              (Re.stripSlashes s)) as Hnamed.
  { unfold namedRelativePath. rewrite slug_declared.
    by destruct s. }
  split.
  - destruct (split_snoc "/" (Re.stripMdExt (derivedRelativePath doc docsDir)))
      as (dirs & lastSeg & Hsplit).
    exists dirs, lastSeg. split; [done|].
    rewrite Hnamed. by apply (replaceLastSegment_spec _ _ dirs lastSeg).
  - intros doc' Hpath Hslug. rewrite Hnamed.
    unfold namedRelativePath. rewrite Hslug. simpl.
    unfold derivedRelativePath. by rewrite Hpath.
Qed.

(** C8 on the document [docs/api/advanced.md] with the slug
    [/docs/advanced-api-reference] *)
Lemma slug_replaces_final_segment_witness :
  namedRelativePath
    {| title := "Advanced API"; path := "docs/api/advanced.md";
       url := "https://example.com/docs/api/advanced";
       content := EmptyString; description := EmptyString;
       frontMatter := Some {| sidebar_position := None;
                              slug := Some "/docs/advanced-api-reference";
                              fm_id := None |} |} "docs"
  = "api/docs/advanced-api-reference.md".
Proof.
  destruct (slug_replaces_final_segment
              {| title := "Advanced API"; path := "docs/api/advanced.md";
                 url := "https://example.com/docs/api/advanced";
                 content := EmptyString; description := EmptyString;
                 frontMatter := Some {| sidebar_position := None;
                                        slug := Some "/docs/advanced-api-reference";
                                        fm_id := None |} |}
              "docs" "/docs/advanced-api-reference" eq_refl
              ltac:(discriminate))
    as [(dirs & lastSeg & Hsplit & Hnamed) _].
  change (["api"] ++ ["advanced"] = dirs ++ [lastSeg]) in Hsplit.
  apply app_inj_tail in Hsplit as [<- <-]. exact Hnamed.
Defined.

(** C8, as the specification words it, fails: the slug
    [/docs/advanced-api-reference] on [docs/api/advanced.md] gives
    [api/docs/advanced-api-reference.md], not
    [api/advanced-api-reference.md]. *)
Lemma slug_trailing_segment_counterexample :
  ~ (forall (doc : DocInfo) (docsDir s : string),
       frontMatter doc ≫= slug = Some s -> s <> EmptyString ->
       namedRelativePath doc docsDir
       = specSlugPath (derivedRelativePath doc docsDir) s).
Proof.
  intros H.
  specialize (H {| title := "Advanced API"; path := "docs/api/advanced.md";
                   url := "https://example.com/docs/api/advanced";
                   content := EmptyString; description := EmptyString;
                   frontMatter := Some {| sidebar_position := None;
                                          slug := Some "/docs/advanced-api-reference";
                                          fm_id := None |} |}
                "docs" "/docs/advanced-api-reference" eq_refl
                ltac:(discriminate)).
  vm_compute in H. discriminate H.
Qed.

(** ** The full-content file *)

Lemma firstHeadingText_spec (doc : DocInfo) (text : string) :
  firstHeadingText doc = Some text
  <-> regexpHeadingLine (Js.nth 0 (Js.split LF (Js.trim (content doc)))) text.
Proof.
  unfold firstHeadingText, regexpHeadingLine. split.
  - destruct (Re.headingMatch _) as [g|] eqn:Hg; [|done].
    intros [= <-]. apply ReFacts.headingMatch_Some in Hg
      as (k & ws & Hm & Hne & Hlt).
    by exists k, ws, g.
  - intros (k & ws & body & Hm & Hne & Hlt & <-).
    destruct (ReFacts.headingMatch_marked _ k ws body Hm Hne Hlt)
      as (g & -> & Hg).
    simpl. by rewrite Hg.
Qed.

Lemma restOfContent_spec (doc : DocInfo) :
  let trimmed := Js.trim (content doc) in
  let firstLine := Js.nth 0 (Js.split LF trimmed) in
  (trimmed = firstLine /\ restOfContent doc = EmptyString)
  \/ trimmed = firstLine +:+ nl +:+ restOfContent doc.
Proof.
  intros trimmed firstLine. unfold restOfContent, firstLine. fold trimmed.
  pose proof (JsFacts.join_split LF trimmed) as Hj.
  destruct (Js.split LF trimmed) as [|h [|h' t]]; simpl in *.
  - by left.
  - by left.
  - right. by rewrite <- Hj.
Qed.

(** The headers that are used when the section of a document is made are
    those that the documents before it have left. *)
Lemma fullContentSections_lookup (toUpperCase : string -> string)
    (ensureUniqueIdentifier :
       string -> gset string -> (Z -> string -> string)
       -> string * gset string)
    (docs : list DocInfo) :
  forall (usedHeaders : gset string),
    length (fullContentSections toUpperCase ensureUniqueIdentifier docs
              usedHeaders) = length docs
    /\ forall (i : nat) (doc : DocInfo),
         docs !! i = Some doc ->
         fullContentSections toUpperCase ensureUniqueIdentifier docs
           usedHeaders !! i
         = Some (fullContentSection toUpperCase ensureUniqueIdentifier doc
                   (foldl (fun used d =>
                             (ensureUniqueIdentifier (title d) used
                                (headerFallback toUpperCase d)).2)
                      usedHeaders (take i docs))).1.
Proof.
  induction docs as [|d docs IH]; intros usedHeaders.
  - split; [done|]. intros i doc H. by rewrite lookup_nil in H.
  - cbn [fullContentSections].
    assert ((fullContentSection toUpperCase ensureUniqueIdentifier d
               usedHeaders).2
            = (ensureUniqueIdentifier (title d) usedHeaders
                 (headerFallback toUpperCase d)).2) as Hused.
    { unfold fullContentSection.
      destruct (ensureUniqueIdentifier _ _ _) as [uniqueHeader used].
      case_decide; [by destruct (negb _)|done]. }
    destruct (fullContentSection toUpperCase ensureUniqueIdentifier d
                usedHeaders) as [section used] eqn:E.
    simpl in Hused. subst used.
    destruct (IH ((ensureUniqueIdentifier (title d) usedHeaders
                     (headerFallback toUpperCase d)).2)) as [Hlen Hidx].
    split; [simpl; by rewrite Hlen|].
    intros [|i] doc Hdoc; simpl in Hdoc.
    + injection Hdoc as <-. simpl. by rewrite E.
    + simpl. by apply Hidx.
Qed.

(** X22.  In the full-content text, for every document: when the first
    line of the trimmed body, up to the first line feed, is a run of [#],
    white space and a text without carriage return that is the title once
    trimmed, the section is [## ], the display header, an empty line and
    the trimmed body without that first line; otherwise it is [## ], the
    display header, an empty line and the body.  The display header of a
    document is the one that [ensureUniqueIdentifier] gives for its title
    and the headers that the documents before it have left.  The
    sections, one per document and in the order of the documents, are
    joined by a line of three dashes between two empty lines. *)
Theorem fullContent_sections (toUpperCase : string -> string)
    (ensureUniqueIdentifier :
       string -> gset string -> (Z -> string -> string)
       -> string * gset string) :
  (forall (doc : DocInfo) (usedHeaders : gset string),
     let trimmed := Js.trim (content doc) in
     let firstLine := Js.nth 0 (Js.split LF trimmed) in
     let header :=
       (ensureUniqueIdentifier (title doc) usedHeaders
          (headerFallback toUpperCase doc)).1 in
     let section :=
       (fullContentSection toUpperCase ensureUniqueIdentifier doc
          usedHeaders).1 in
     (regexpHeadingLine firstLine (title doc) ->
      exists rest,
        ((trimmed = firstLine /\ rest = EmptyString)
         \/ trimmed = firstLine +:+ nl +:+ rest)
        /\ section = "## " +:+ header +:+ nl +:+ nl +:+ rest)
     /\ (~ regexpHeadingLine firstLine (title doc) ->
         section = "## " +:+ header +:+ nl +:+ nl +:+ content doc))
  /\ (forall (docs : list DocInfo) (customRootContent : option string),
        fullContent toUpperCase ensureUniqueIdentifier docs customRootContent
        = rootContentOr customRootContent defaultFullRootContent
            +:+ nl +:+ nl
            +:+ Js.join (nl +:+ nl +:+ "---" +:+ nl +:+ nl)
                  (fullContentSections toUpperCase ensureUniqueIdentifier
                     docs ∅))
  /\ (forall docs : list DocInfo,
        let sections :=
          fullContentSections toUpperCase ensureUniqueIdentifier docs ∅ in
        let usedBefore (i : nat) : gset string :=
          foldl (fun used doc =>
                   (ensureUniqueIdentifier (title doc) used
                      (headerFallback toUpperCase doc)).2)
            ∅ (take i docs) in
        length sections = length docs
        /\ forall (i : nat) (doc : DocInfo),
             docs !! i = Some doc ->
             sections !! i
             = Some (fullContentSection toUpperCase ensureUniqueIdentifier
                       doc (usedBefore i)).1).
Proof.
  split; [|split].
  - intros doc usedHeaders trimmed firstLine header section.
    unfold section, header, fullContentSection.
    destruct (ensureUniqueIdentifier _ _ _) as [uniqueHeader used]. simpl.
    split.
    + intros Hheading. apply firstHeadingText_spec in Hheading.
      rewrite decide_True by done.
      exists (restOfContent doc). split; [apply restOfContent_spec|].
      by destruct (negb _).
    + intros Hno. rewrite decide_False; [done|].
      intros H. by apply Hno, firstHeadingText_spec.
  - reflexivity.
  - intros docs sections usedBefore.
    apply (fullContentSections_lookup toUpperCase ensureUniqueIdentifier
             docs ∅).
Qed.

(** C9 fails on a document with CRLF line ends.  The first line of the
    trimmed body of the document [# Title], CR, LF, [Body], whose title is
    [Title], is a heading whose text is the title; the regular expression
    does not match it, as [.] matches no carriage return, and the heading
    line stays in the section, after the heading that is made of the
    title. *)
Theorem fullContent_crlf_heading_kept (toUpperCase : string -> string)
    (ensureUniqueIdentifier :
       string -> gset string -> (Z -> string -> string)
       -> string * gset string)
    (usedHeaders : gset string) :
  let doc := Fixture.crlfDoc in
  let firstLine := Js.nth 0 (Js.split LF (Js.trim (content doc))) in
  let header :=
    (ensureUniqueIdentifier (title doc) usedHeaders
       (headerFallback toUpperCase doc)).1 in
  firstLine = "# Title" +:+ String CR EmptyString
  /\ headingLine firstLine (title doc)
  /\ firstHeadingText doc = None
  /\ (fullContentSection toUpperCase ensureUniqueIdentifier doc
        usedHeaders).1
     = "## " +:+ header +:+ nl +:+ nl
         +:+ "# Title" +:+ String CR (String LF "Body").
Proof.
  intros doc firstLine header.
  split; [reflexivity|]. split; [|split; [reflexivity|]].
  - exists 1, " ", ("Title" +:+ String CR EmptyString).
    split; [|split; [done|reflexivity]].
    split; [lia|]. split; [done|]. split; reflexivity.
  - unfold header, fullContentSection.
    destruct (ensureUniqueIdentifier _ _ _) as [uniqueHeader used].
    reflexivity.
Qed.

(** * More of the generator and of the plugin *)

(** ** Lower case and numbered paths *)

Lemma mapChars_append (f : ascii -> ascii) (a b : string) :
  Js.mapChars f (a +:+ b) = Js.mapChars f a +:+ Js.mapChars f b.
Proof. induction a as [|c a IH]; simpl; [done|]. by rewrite IH. Qed.

Lemma length_mapChars (f : ascii -> ascii) (s : string) :
  String.length (Js.mapChars f s) = String.length s.
Proof. induction s as [|c s IH]; simpl; [done|]. by rewrite IH. Qed.

Lemma append_inv_tail (a b c : string) : a +:+ c = b +:+ c -> a = b.
Proof.
  intros H. apply JsFacts.chars_inj.
  apply (f_equal list_ascii_of_string) in H.
  rewrite !JsFacts.chars_append in H. by apply app_inv_tail in H.
Qed.

Lemma toLowerCase_string_of_uint (d : Decimal.uint) :
  Js.toLowerCase (NilEmpty.string_of_uint d) = NilEmpty.string_of_uint d.
Proof.
  unfold Js.toLowerCase.
  induction d; simpl; [done|..]; by rewrite IHd.
Qed.

Lemma toLowerCase_numberToString (n : Z) :
  Js.toLowerCase (Js.numberToString n) = Js.numberToString n.
Proof.
  unfold Js.numberToString. destruct (Z.to_int n) as [d|d]; simpl.
  - apply toLowerCase_string_of_uint.
  - unfold Js.toLowerCase. simpl. f_equal. apply toLowerCase_string_of_uint.
Qed.

Lemma numberToString_inj (n m : Z) :
  Js.numberToString n = Js.numberToString m -> n = m.
Proof.
  unfold Js.numberToString. intros H. apply DecimalZ.to_int_inj.
  apply (f_equal NilEmpty.int_of_string) in H.
  rewrite !NilEmpty.isi in H. by injection H.
Qed.

(** The candidates of two counters differ, also when case is ignored. *)
Lemma numberedPath_lower_inj (relativePath : string) (n m : Z) :
  Js.toLowerCase (numberedPath relativePath n)
  = Js.toLowerCase (numberedPath relativePath m) ->
  n = m.
Proof.
  unfold numberedPath, Js.toLowerCase. rewrite !mapChars_append.
  intros H. do 2 apply (inj _) in H. apply append_inv_tail in H.
  apply numberToString_inj.
  pose proof (toLowerCase_numberToString n) as Hn.
  pose proof (toLowerCase_numberToString m) as Hm.
  unfold Js.toLowerCase in Hn, Hm. congruence.
Qed.

(** ** The loop that makes a path unique *)

(** A set that holds the images of [m] numbers under an injective function
    has at least [m] elements. *)
Lemma size_injective_range (used : gset string) (f : nat -> string)
    (m : nat) :
  (forall i j, f i = f j -> i = j) ->
  (forall j, j < m -> f j ∈ used) ->
  m <= size used.
Proof.
  intros Hinj Hin.
  assert (NoDup (f <$> seq 0 m)) as Hnd.
  { apply NoDup_fmap_2; [intros i j; apply Hinj | apply NoDup_seq]. }
  assert (size (list_to_set (C:=gset string) (f <$> seq 0 m)) = m) as Hsize.
  { rewrite size_list_to_set by done. by rewrite length_fmap, length_seq. }
  rewrite <- Hsize at 1. apply subseteq_size. intros x Hx.
  apply elem_of_list_to_set, list_elem_of_fmap in Hx as (j & -> & Hj).
  apply Hin. apply elem_of_seq in Hj. lia.
Qed.

(** [parts.join(sep)] when the last part is set apart *)
Lemma join_snoc (sep : string) (dirs : list string) (lastSeg : string) :
  Js.join sep (dirs ++ [lastSeg])
  = match dirs with
    | [] => lastSeg
    | _ => Js.join sep dirs +:+ sep +:+ lastSeg
    end.
Proof.
  unfold Js.join. induction dirs as [|d dirs IH]; [done|].
  destruct dirs as [|d' dirs]; [done|].
  change (String.concat sep ((d :: d' :: dirs) ++ [lastSeg]))
    with (d +:+ sep +:+ String.concat sep ((d' :: dirs) ++ [lastSeg])).
  rewrite IH.
  change (String.concat sep (d :: d' :: dirs))
    with (d +:+ sep +:+ String.concat sep (d' :: dirs)).
  by rewrite !JsFacts.append_assoc.
Qed.

(** A numbered candidate is longer than the path it comes from. *)
Lemma length_numberedPath (relativePath : string) (n : Z) :
  String.length relativePath
  < String.length (numberedPath relativePath n).
Proof.
  unfold numberedPath.
  destruct (split_snoc "." relativePath) as (dirs & lastSeg & Hsplit).
  rewrite <- (JsFacts.join_split "." relativePath) at 1.
  rewrite Hsplit, last_snoc, removelast_last, join_snoc.
  cbv zeta. rewrite !JsFacts.length_append.
  assert (String.length lastSeg
          <= String.length match lastSeg with
                           | String _ _ => lastSeg
                           | EmptyString => "md"
                           end) by (destruct lastSeg; simpl; lia).
  destruct dirs as [|d dirs]; [simpl; lia|].
  rewrite !JsFacts.length_append. simpl. lia.
Qed.

(** The state of the loop when [counter] is [n]: at [n = 1] [uniquePath]
    is [relativePath]; from [n = 2] on it is the candidate of [n], and
    [relativePath] and the candidates of the counters from 2 to [n - 1]
    have been found in [usedPaths]. *)
Lemma uniquePathLoop_invariant (usedPaths : gset string)
    (relativePath : string) (fuel : nat) :
  forall (n : nat) (uniquePath : string),
    1 <= n ->
    (n = 1 -> uniquePath = relativePath) ->
    (2 <= n -> uniquePath = numberedPath relativePath (Z.of_nat n)) ->
    (2 <= n -> Js.toLowerCase relativePath ∈ usedPaths) ->
    (forall j, 2 <= j < n ->
       Js.toLowerCase (numberedPath relativePath (Z.of_nat j)) ∈ usedPaths) ->
    size usedPaths + 1 <= fuel + n ->
    exists p,
      uniquePathLoop fuel usedPaths relativePath (Z.of_nat n) uniquePath
      = Some p
      /\ (Js.toLowerCase p ∉ usedPaths)
      /\ (p = uniquePath
          \/ exists k, (n < k <= size usedPaths + 1)
               /\ p = numberedPath relativePath (Z.of_nat k)
               /\ (Js.toLowerCase uniquePath ∈ usedPaths)
               /\ forall j, n < j < k ->
                    Js.toLowerCase (numberedPath relativePath (Z.of_nat j))
                    ∈ usedPaths).
Proof.
  pose (f := fun j =>
               match j with
               | O => Js.toLowerCase relativePath
               | S j => Js.toLowerCase
                          (numberedPath relativePath (Z.of_nat (j + 2)))
               end).
  assert (forall i j, f i = f j -> i = j) as Hinj.
  { intros [|i] [|j] Hij; simpl in Hij; [done| | |].
    - apply (f_equal String.length) in Hij.
      unfold Js.toLowerCase in Hij. rewrite !length_mapChars in Hij.
      pose proof (length_numberedPath relativePath (Z.of_nat (j + 2))). lia.
    - apply (f_equal String.length) in Hij.
      unfold Js.toLowerCase in Hij. rewrite !length_mapChars in Hij.
      pose proof (length_numberedPath relativePath (Z.of_nat (i + 2))). lia.
    - apply numberedPath_lower_inj in Hij. lia. }
  assert (forall n cand,
            1 <= n ->
            (n = 1 -> cand = relativePath) ->
            (2 <= n -> cand = numberedPath relativePath (Z.of_nat n)) ->
            (forall j, 2 <= j < n ->
               Js.toLowerCase (numberedPath relativePath (Z.of_nat j))
               ∈ usedPaths) ->
            Js.toLowerCase cand ∈ usedPaths ->
            (2 <= n -> Js.toLowerCase relativePath ∈ usedPaths) ->
            n <= size usedPaths) as Hcount.
  { intros n cand Hn Hone Hcand Htried Hused Hrel.
    apply (size_injective_range usedPaths f); [done|].
    intros [|j] Hj; simpl.
    - destruct (decide (n = 1)) as [E|E]; [by rewrite <- Hone|apply Hrel; lia].
    - destruct (decide (j + 2 = n)) as [E|E].
      + rewrite E, <- Hcand by lia. done.
      + apply Htried. lia. }
  clear f Hinj.
  induction fuel as [|fuel IH];
    intros n cand Hn Hone Hcand Hrel Htried Hfuel; simpl;
    case_bool_decide as Hused; try (exists cand; by auto).
  - exfalso. specialize (Hcount n cand Hn Hone Hcand Htried Hused Hrel). lia.
  - specialize (Hcount n cand Hn Hone Hcand Htried Hused Hrel).
    replace (Z.of_nat n + 1)%Z with (Z.of_nat (S n)) by lia.
    assert (Js.toLowerCase relativePath ∈ usedPaths) as Hrel'.
    { destruct (decide (n = 1)) as [E|E]; [by rewrite <- Hone|apply Hrel; lia]. }
    destruct (IH (S n) (numberedPath relativePath (Z.of_nat (S n))))
      as (p & Hp & Hfresh & Hshape); [lia|lia|done|done| |lia|].
    { intros j Hj. destruct (decide (j = n)) as [->|E].
      - rewrite <- Hcand by lia. done.
      - apply Htried. lia. }
    exists p. split; [done|]. split; [done|]. right.
    destruct Hshape as [->|(k & Hk & -> & Hin & Hbetween)].
    + exists (S n). split; [lia|]. split; [done|]. split; [done|].
      intros j Hj. lia.
    + exists k. split; [lia|]. split; [done|]. split; [done|].
      intros j Hj. destruct (decide (j = S n)) as [->|E]; [done|].
      apply Hbetween. lia.
Qed.

(** X1.  The loop that makes a path unique always ends, after at most as
    many rounds as there are used paths, and leaves a path that no used
    path equals when case is ignored.  A path that is free stays as it is;
    a path that is taken gets the least counter from 2 on whose candidate
    is free, and that counter is at most the number of used paths plus
    one. *)
Theorem uniquePathLoop_terminates (usedPaths : gset string)
    (relativePath : string) (fuel : nat) :
  size usedPaths <= fuel ->
  exists p,
    uniquePathLoop fuel usedPaths relativePath 1 relativePath = Some p
    /\ (Js.toLowerCase p ∉ usedPaths)
    /\ ((Js.toLowerCase relativePath ∉ usedPaths) /\ p = relativePath
        \/ (Js.toLowerCase relativePath ∈ usedPaths)
           /\ exists k : nat,
                (2 <= k <= size usedPaths + 1)
                /\ p = numberedPath relativePath (Z.of_nat k)
                /\ forall j : nat, 2 <= j < k ->
                     Js.toLowerCase (numberedPath relativePath (Z.of_nat j))
                     ∈ usedPaths).
Proof.
  intros Hfuel.
  destruct (uniquePathLoop_invariant usedPaths relativePath fuel 1
              relativePath) as (p & Hp & Hfresh & Hshape);
    [lia|done|lia|lia|lia|lia|].
  exists p. split; [done|]. split; [done|].
  destruct Hshape as [->|(k & Hk & -> & Hin & Hbetween)]; [by left|].
  right. split; [done|]. exists k. split; [lia|]. split; [done|].
  intros j Hj. apply Hbetween. lia.
Qed.

Lemma uniquePathLoop_terminates_witness :
  exists p,
    uniquePathLoop 1 {["docs/readme.md"]} "docs/README.md" 1 "docs/README.md"
    = Some p
    /\ (Js.toLowerCase p ∉ ({["docs/readme.md"]} : gset string)).
Proof.
  destruct (uniquePathLoop_terminates {["docs/readme.md"]} "docs/README.md" 1)
    as (p & Hp & Hfresh & _).
  - rewrite size_singleton. lia.
  - by exists p.
Defined.

(** ** The files of the documents *)

Section IndividualFacts.

Variable sanitizeForFilename : string -> string -> string.
Variable path_join : string -> string -> string.
Variable markdownText : DocInfo -> list string -> string.
Variables outputDir siteUrl docsDir : string.
Variable keepFrontMatter : list string.

Local Abbreviation candidate doc :=
  (candidateRelativePath sanitizeForFilename doc docsDir).
Local Abbreviation lowerPath := (fun f => Js.toLowerCase (uniquePath f)).
Local Abbreviation filesFrom :=
  (markdownFilesFrom sanitizeForFilename path_join markdownText
     outputDir siteUrl docsDir keepFrontMatter).

(** The file of [doc] at the path [p] *)
Local Abbreviation fileAt doc p :=
  {| uniquePath := p;
     fullPath := path_join outputDir p;
     markdownContent := markdownText doc keepFrontMatter;
     updatedDoc :=
       {| title := title doc;
          path := "/" +:+ Re.backslashesToSlashes p;
          url := siteUrl +:+ "/" +:+ Re.backslashesToSlashes p;
          content := content doc;
          description := description doc;
          frontMatter := frontMatter doc |} |}.

(** How the path of a file comes from the candidate of its document and
    from the paths [taken] before it *)
Local Abbreviation named doc p taken :=
  ((p = candidate doc /\ (Js.toLowerCase (candidate doc) ∉ taken))
   \/ ((Js.toLowerCase (candidate doc) ∈ taken)
       /\ exists k : nat,
            (2 <= k <= size taken + 1)
            /\ p = numberedPath (candidate doc) (Z.of_nat k)
            /\ forall j : nat, 2 <= j < k ->
                 Js.toLowerCase (numberedPath (candidate doc) (Z.of_nat j))
                 ∈ taken)).

Lemma markdownFileOf_spec (usedPaths : gset string) (doc : DocInfo) :
  exists p,
    markdownFileOf sanitizeForFilename path_join markdownText
      outputDir siteUrl docsDir keepFrontMatter usedPaths doc
    = Some (fileAt doc p, {[Js.toLowerCase p]} ∪ usedPaths)
    /\ (Js.toLowerCase p ∉ usedPaths)
    /\ named doc p usedPaths.
Proof.
  destruct (uniquePathLoop_invariant usedPaths (candidate doc)
              (S (size usedPaths)) 1 (candidate doc))
    as (p & Hp & Hfresh & Hshape); [lia|done|lia|lia|lia|lia|].
  exists p. unfold markdownFileOf. cbv zeta.
  change (Z.of_nat 1) with 1%Z in Hp. rewrite Hp. simpl.
  split; [done|]. split; [done|].
  destruct Hshape as [->|(k & Hk & -> & Hin & Hbetween)]; [by left|].
  right. split; [done|]. exists k. split; [lia|]. split; [done|].
  intros j Hj. apply Hbetween. lia.
Qed.

Lemma markdownFilesFrom_spec (docs : list DocInfo) :
  forall usedPaths : gset string,
  exists files,
    filesFrom usedPaths docs = Some files
    /\ Forall2 (fun doc f => f = fileAt doc (uniquePath f)) docs files
    /\ NoDup (lowerPath <$> files)
    /\ Forall (fun f => lowerPath f ∉ usedPaths) files
    /\ forall (i : nat) doc f,
         docs !! i = Some doc -> files !! i = Some f ->
         named doc (uniquePath f)
           (usedPaths ∪ list_to_set (lowerPath <$> take i files)).
Proof.
  induction docs as [|d docs IH]; intros usedPaths.
  - exists []. simpl. split; [done|]. split; [constructor|].
    split; [constructor|]. split; [constructor|].
    intros i doc f Hd. by rewrite lookup_nil in Hd.
  - destruct (markdownFileOf_spec usedPaths d) as (p & Hfile & Hfresh & Hnamed).
    destruct (IH ({[Js.toLowerCase p]} ∪ usedPaths))
      as (files & Hfiles & HR & Hnd & Hout & Hidx).
    exists (fileAt d p :: files). cbn [markdownFilesFrom].
    rewrite Hfile. simpl. rewrite Hfiles. simpl. split; [done|].
    split; [by constructor|].
    rewrite Forall_forall in Hout.
    split.
    { constructor; [|done]. intros Hin.
      apply list_elem_of_fmap in Hin as (g & Hg & Hgin).
      apply (Hout g Hgin). rewrite <- Hg.
      by apply elem_of_union_l, elem_of_singleton_2. }
    split.
    { constructor; [done|]. apply Forall_forall. intros g Hg.
      intros Hin. by apply (Hout g Hg), elem_of_union_r. }
    intros [|i] doc f Hd Hf; simpl in Hd, Hf.
    + injection Hd as <-. injection Hf as <-. simpl.
      rewrite (right_id_L ∅ (∪)). exact Hnamed.
    + specialize (Hidx i doc f Hd Hf). cbn [take fmap list_fmap list_to_set].
      replace (usedPaths
               ∪ ({[Js.toLowerCase p]}
                  ∪ list_to_set (lowerPath <$> take i files)))
        with ({[Js.toLowerCase p]} ∪ usedPaths
              ∪ list_to_set (lowerPath <$> take i files)); [exact Hidx|].
      by rewrite (assoc_L (∪)), (comm_L (∪) usedPaths).
Qed.

Lemma backslashesToSlashes_no_backslash (s : string) :
  "\"%char ∉ list_ascii_of_string (Re.backslashesToSlashes s).
Proof.
  unfold Re.backslashesToSlashes.
  induction s as [|c s IH]; simpl; [apply not_elem_of_nil|].
  apply not_elem_of_cons. split; [|done].
  destruct (Ascii.eqb c "\") eqn:E; [done|].
  intros <-. by rewrite Ascii.eqb_refl in E.
Qed.

(** Documents whose candidates differ, also when case is ignored, and are
    not among the used paths, get their candidates. *)
Lemma markdownFilesFrom_candidates (docs : list DocInfo) :
  forall usedPaths : gset string,
    NoDup ((fun doc => Js.toLowerCase (candidate doc)) <$> docs) ->
    Forall (fun doc => Js.toLowerCase (candidate doc) ∉ usedPaths) docs ->
    filesFrom usedPaths docs
    = Some ((fun doc => fileAt doc (candidate doc)) <$> docs).
Proof.
  induction docs as [|d docs IH]; intros usedPaths Hnd Hout; [done|].
  rewrite fmap_cons in Hnd. apply NoDup_cons in Hnd as [Hd Hnd].
  apply Forall_cons in Hout as [Hfree Hout].
  destruct (markdownFileOf_spec usedPaths d) as (p & Hfile & _ & Hnamed).
  destruct Hnamed as [[-> _]|[Hin _]]; [|done].
  cbn [markdownFilesFrom]. rewrite Hfile. simpl. rewrite IH; [done|done|].
  rewrite Forall_forall in Hout. apply Forall_forall. intros doc Hdoc.
  intros Hin. apply elem_of_union in Hin as [Hin|Hin]; [|by apply (Hout doc)].
  apply elem_of_singleton in Hin. apply Hd. rewrite <- Hin.
  apply list_elem_of_fmap. by exists doc.
Qed.

(** X2.  [generateIndividualMarkdownFiles] leaves its uniqueness loop for
    every document, whatever the documents are, and gives one file for
    each document; no two of the files have the same path, also when the
    case of letters is ignored. *)
Theorem generateIndividualMarkdownFiles_distinct_paths (docs : list DocInfo) :
  exists files,
    generateIndividualMarkdownFiles sanitizeForFilename path_join markdownText
      docs outputDir siteUrl docsDir keepFrontMatter = Some files
    /\ length files = length docs
    /\ NoDup ((fun f => Js.toLowerCase (uniquePath f)) <$> files).
Proof.
  destruct (markdownFilesFrom_spec docs ∅)
    as (files & Hfiles & HR & Hnd & _).
  exists files. split; [done|]. split; [|done].
  symmetry. by eapply Forall2_length.
Qed.

(** X3.  The documents that [generateIndividualMarkdownFiles] returns are
    the documents it was given, in their order: title, content,
    description and frontmatter are unchanged; the new path is a slash
    followed by the path of the file with every backslash turned into a
    slash, so it holds no backslash; the new url is the site url followed
    by the new path; and the file is written at the path of the file
    under the output directory. *)
Theorem generateIndividualMarkdownFiles_updates (docs : list DocInfo) :
  exists files,
    generateIndividualMarkdownFiles sanitizeForFilename path_join markdownText
      docs outputDir siteUrl docsDir keepFrontMatter = Some files
    /\ Forall2
         (fun doc f =>
            title (updatedDoc f) = title doc
            /\ content (updatedDoc f) = content doc
            /\ description (updatedDoc f) = description doc
            /\ frontMatter (updatedDoc f) = frontMatter doc
            /\ path (updatedDoc f)
               = "/" +:+ Re.backslashesToSlashes (uniquePath f)
            /\ ("\"%char ∉ list_ascii_of_string (path (updatedDoc f)))
            /\ url (updatedDoc f) = siteUrl +:+ path (updatedDoc f)
            /\ fullPath f = path_join outputDir (uniquePath f)
            /\ markdownContent f = markdownText doc keepFrontMatter)
         docs files.
Proof.
  destruct (markdownFilesFrom_spec docs ∅) as (files & Hfiles & HR & _).
  exists files. split; [done|].
  eapply Forall2_impl; [exact HR|]. intros doc f ->. simpl.
  repeat split.
  apply not_elem_of_cons. split; [done|].
  apply backslashesToSlashes_no_backslash.
Qed.

(** X4.  How [generateIndividualMarkdownFiles] names the file of a
    document, from the paths of the files of the documents before it.
    When none of them is the candidate of the document, case ignored, the
    file gets the candidate.  Otherwise it gets the candidate with a
    counter before its extension: the least counter from 2 on that gives
    a path none of them has, which is at most the number of those paths
    plus one. *)
Theorem generateIndividualMarkdownFiles_naming (docs : list DocInfo) :
  exists files,
    generateIndividualMarkdownFiles sanitizeForFilename path_join markdownText
      docs outputDir siteUrl docsDir keepFrontMatter = Some files
    /\ forall (i : nat) doc f,
         docs !! i = Some doc -> files !! i = Some f ->
         let taken : gset string :=
           list_to_set
             ((fun f => Js.toLowerCase (uniquePath f)) <$> take i files) in
         let relativePath :=
           candidateRelativePath sanitizeForFilename doc docsDir in
         (uniquePath f = relativePath
          /\ (Js.toLowerCase relativePath ∉ taken))
         \/ ((Js.toLowerCase relativePath ∈ taken)
             /\ exists k : nat,
                  (2 <= k <= size taken + 1)
                  /\ uniquePath f = numberedPath relativePath (Z.of_nat k)
                  /\ (Js.toLowerCase (uniquePath f) ∉ taken)
                  /\ forall j : nat, 2 <= j < k ->
                       Js.toLowerCase
                         (numberedPath relativePath (Z.of_nat j)) ∈ taken).
Proof.
  destruct (markdownFilesFrom_spec docs ∅)
    as (files & Hfiles & _ & Hnd & _ & Hidx).
  exists files. split; [done|]. intros i doc f Hd Hf taken relativePath.
  specialize (Hidx i doc f Hd Hf). rewrite (left_id_L ∅ (∪)) in Hidx.
  destruct Hidx as [?|(Hin & k & Hk & Hp & Hbetween)]; [by left|].
  right. split; [done|]. exists k. split; [done|]. split; [done|].
  split; [|done].
  intros Htaken. apply elem_of_list_to_set in Htaken.
  apply list_elem_of_fmap in Htaken as (g & Hg & Hgin).
  apply list_elem_of_lookup in Hgin as (j & Hj).
  apply lookup_take_Some in Hj as [Hj Hlt].
  pose proof (proj1 (NoDup_alt _) Hnd i j (Js.toLowerCase (uniquePath f)))
    as Hij.
  rewrite !list_lookup_fmap, Hf, Hj in Hij. simpl in Hij.
  rewrite <- Hg in Hij. specialize (Hij eq_refl eq_refl). lia.
Qed.

(** X5.  When the candidates of the documents are pairwise different,
    also when the case of letters is ignored,
    [generateIndividualMarkdownFiles] adds no counter: every document gets
    the file of its candidate. *)
Theorem generateIndividualMarkdownFiles_no_collision (docs : list DocInfo) :
  NoDup ((fun doc =>
            Js.toLowerCase
              (candidateRelativePath sanitizeForFilename doc docsDir))
         <$> docs) ->
  exists files,
    generateIndividualMarkdownFiles sanitizeForFilename path_join markdownText
      docs outputDir siteUrl docsDir keepFrontMatter = Some files
    /\ uniquePath <$> files
       = (fun doc => candidateRelativePath sanitizeForFilename doc docsDir)
         <$> docs.
Proof.
  intros Hnd. unfold generateIndividualMarkdownFiles.
  rewrite markdownFilesFrom_candidates; [|done|].
  - eexists. split; [done|]. rewrite <- list_fmap_compose.
    by apply list_fmap_ext.
  - apply Forall_forall. intros doc _. apply not_elem_of_empty.
Qed.

End IndividualFacts.

Lemma generateIndividualMarkdownFiles_no_collision_witness :
  exists files,
    generateIndividualMarkdownFiles (fun s _ => s) Fixture.joinPath
      (fun doc _ => content doc)
      [Fixture.doc "Intro" "/docs/intro.mdx" None;
       Fixture.doc "Guide" "docs/guide/start.md" None]
      "build" "https://example.com" "docs" [] = Some files
    /\ uniquePath <$> files = ["intro.md"; "guide/start.md"].
Proof.
  apply (generateIndividualMarkdownFiles_no_collision (fun s _ => s)
           Fixture.joinPath (fun doc _ => content doc)
           "build" "https://example.com" "docs" []
           [Fixture.doc "Intro" "/docs/intro.mdx" None;
            Fixture.doc "Guide" "docs/guide/start.md" None]).
  vm_compute. repeat constructor; rewrite ?list_elem_of_singleton;
    [intros [=]|apply not_elem_of_nil].
Defined.

(** ** The shape of a numbered path *)

Lemma split_single (sep : ascii) (s : string) :
  sep ∉ list_ascii_of_string s -> Js.split sep s = [s].
Proof.
  intros H. apply (JsFacts.split_join_unique sep [s]); [done|].
  by constructor.
Qed.

Lemma split_last_part (sep : ascii) (r e : string) :
  sep ∉ list_ascii_of_string e ->
  Js.split sep (r +:+ String sep e) = Js.split sep r ++ [e].
Proof.
  intros He. induction r as [|c r IH]; simpl.
  - by rewrite Ascii.eqb_refl, split_single.
  - destruct (Ascii.eqb c sep); rewrite IH; [done|].
    pose proof (JsFacts.split_nonempty sep r).
    by destruct (Js.split sep r).
Qed.

(** X6.  The path that the uniqueness loop tries for a counter.  For a
    path that ends in a dot and an extension, the counter goes, after a
    hyphen, right before the dot of the extension.  A path that ends in a
    dot gets the extension [md].  A path without any dot is taken for an
    extension: hyphen and counter come first, then a dot, then the whole
    path. *)
Theorem numberedPath_shape (counter : Z) :
  (forall base ext : string,
      ext <> EmptyString -> "."%char ∉ list_ascii_of_string ext ->
      numberedPath (base +:+ "." +:+ ext) counter
      = base +:+ "-" +:+ Js.numberToString counter +:+ "." +:+ ext)
  /\ (forall base : string,
        numberedPath (base +:+ ".") counter
        = base +:+ "-" +:+ Js.numberToString counter +:+ ".md")
  /\ (forall name : string,
        name <> EmptyString -> "."%char ∉ list_ascii_of_string name ->
        numberedPath name counter
        = "-" +:+ Js.numberToString counter +:+ "." +:+ name).
Proof.
  split; [|split].
  - intros base ext Hne Hdot. unfold numberedPath.
    change (base +:+ "." +:+ ext) with (base +:+ String "." ext).
    rewrite split_last_part by done. cbv zeta.
    rewrite last_snoc, removelast_last, JsFacts.join_split.
    by destruct ext.
  - intros base. unfold numberedPath.
    change (base +:+ ".") with (base +:+ String "." EmptyString).
    rewrite split_last_part by apply not_elem_of_nil. cbv zeta.
    by rewrite last_snoc, removelast_last, JsFacts.join_split.
  - intros name Hne Hdot. unfold numberedPath.
    rewrite split_single by done. simpl. by destruct name.
Qed.

(** ** The id of a document *)

(** X7.  For every document whose frontmatter has no slug, or an empty
    one, and declares an id that is not empty, the final segment of the
    derived relative path, and no other, is replaced by the id, which is
    taken as it is, and [.md] is put after it.  The path that results is
    neither empty nor [.md], so the fallback on the title is not taken. *)
Theorem id_replaces_final_segment
    (sanitizeForFilename : string -> string -> string)
    (doc : DocInfo) (docsDir i : string)
    (no_slug : Js.truthy (frontMatter doc ≫= slug) = false)
    (id_declared : frontMatter doc ≫= fm_id = Some i)
    (id_truthy : i <> EmptyString) :
  (exists (dirs : list string) (lastSeg : string),
      Js.split "/" (Re.stripMdExt (derivedRelativePath doc docsDir))
        = dirs ++ [lastSeg]
      /\ namedRelativePath doc docsDir = Js.join "/" (dirs ++ [i]) +:+ ".md")
  /\ candidateRelativePath sanitizeForFilename doc docsDir
     = namedRelativePath doc docsDir.
Proof.
  assert (namedRelativePath doc docsDir
          = replaceLastSegment (derivedRelativePath doc docsDir) i) as Hnamed.
  { unfold namedRelativePath. rewrite id_declared.
    destruct (frontMatter doc ≫= slug) as [[|? ?]|]; try done;
      by destruct i. }
  destruct (split_snoc "/" (Re.stripMdExt (derivedRelativePath doc docsDir)))
    as (dirs & lastSeg & Hsplit).
  assert (namedRelativePath doc docsDir = Js.join "/" (dirs ++ [i]) +:+ ".md")
    as Hjoin.
  { rewrite Hnamed. by apply (replaceLastSegment_spec _ _ dirs lastSeg). }
  split; [by exists dirs, lastSeg|].
  unfold candidateRelativePath. cbv zeta. rewrite decide_False; [done|].
  rewrite Hjoin, join_snoc. intros [H|H].
  - apply (f_equal String.length) in H.
    destruct dirs; rewrite !JsFacts.length_append in H; simpl in H; lia.
  - apply (f_equal String.length) in H.
    destruct dirs; rewrite !JsFacts.length_append in H; simpl in H; [|lia].
    destruct i; [done|simpl in H; lia].
Qed.

Lemma id_replaces_final_segment_witness :
  namedRelativePath
    {| title := "Advanced API"; path := "docs/api/advanced.md";
       url := "https://example.com/docs/api/advanced";
       content := EmptyString; description := EmptyString;
       frontMatter := Some {| sidebar_position := None; slug := None;
                              fm_id := Some "reference" |} |} "docs"
  = "api/reference.md".
Proof.
  destruct (id_replaces_final_segment (fun s _ => s)
              {| title := "Advanced API"; path := "docs/api/advanced.md";
                 url := "https://example.com/docs/api/advanced";
                 content := EmptyString; description := EmptyString;
                 frontMatter := Some {| sidebar_position := None;
                                        slug := None;
                                        fm_id := Some "reference" |} |}
              "docs" "reference" eq_refl eq_refl ltac:(discriminate))
    as [(dirs & lastSeg & Hsplit & Hnamed) _].
  change (["api"] ++ ["advanced"] = dirs ++ [lastSeg]) in Hsplit.
  apply app_inj_tail in Hsplit as [<- <-]. exact Hnamed.
Defined.

(** ** The files that are collected *)

(** X8.  [collectDocFiles] never throws.  It returns the files of the docs
    directory followed by those of the blog directory.  A directory that
    cannot be accessed, or whose files cannot be read, counts for no file
    and does not stop the other directory from being read; the blog
    directory counts for no file when the blog is not included. *)
Theorem collectDocFiles_never_throws
    (fs_access : string -> Completion unit)
    (readMarkdownFiles :
       string -> string -> list string -> Completion (list string))
    (path_join : string -> string -> string)
    (siteDir docsDir : string) (ignoreFiles : list string)
    (includeBlog : bool) :
  let filesOf dir :=
    valueOr []
      (_ ← fs_access dir; readMarkdownFiles dir siteDir ignoreFiles) in
  collectDocFiles fs_access readMarkdownFiles path_join siteDir docsDir
    ignoreFiles includeBlog
  = Normal (filesOf (path_join siteDir docsDir)
              ++ (if includeBlog then filesOf (path_join siteDir "blog")
                  else []))
  /\ (forall dir,
        filesOf dir <> [] ->
        fs_access dir = Normal tt
        /\ readMarkdownFiles dir siteDir ignoreFiles = Normal (filesOf dir)).
Proof.
  intros filesOf. split.
  - unfold collectDocFiles, collectFrom, filesOf. unbind.
    destruct (fs_access (path_join siteDir docsDir)) as [[]|]; simpl;
      [destruct (readMarkdownFiles (path_join siteDir docsDir) _ _); simpl|];
      destruct includeBlog; simpl; try done;
      (destruct (fs_access (path_join siteDir "blog")) as [[]|]; simpl;
       [destruct (readMarkdownFiles (path_join siteDir "blog") _ _); simpl|];
       done).
  - intros dir. unfold filesOf. unbind.
    destruct (fs_access dir) as [[]|]; simpl; [|done].
    by destruct (readMarkdownFiles dir siteDir ignoreFiles); simpl.
Qed.

(** ** The locale of a build *)

Lemma localeOfProps_Some (knownLocales : list string)
    (props : option Plugin.Props) (l : string) :
  Plugin.localeOfProps knownLocales props = Some l ->
  l ∈ knownLocales /\ l <> EmptyString.
Proof.
  unfold Plugin.localeOfProps.
  destruct (Js.orElse _ _) as [[|c s]|]; [done| |done].
  case_bool_decide; [|done]. by intros [= <-].
Qed.

Lemma localeOfRoutes_Some (knownLocales : list string)
    (props : option Plugin.Props) (l : string) :
  Plugin.localeOfRoutes knownLocales props = Some l ->
  l ∈ knownLocales /\ l <> EmptyString.
Proof.
  unfold Plugin.localeOfRoutes.
  destruct (props ≫= Plugin.routes) as [[|firstRoute ?]|]; [done| |done].
  destruct (Plugin.route_path firstRoute) as [[|c s]|]; [done| |done].
  destruct (filter _ _) as [|first parts] eqn:Hparts; [done|].
  case_bool_decide; [|done]. intros [= <-]. split; [done|].
  assert (first ∈ first :: parts) as Hin by apply list_elem_of_here.
  rewrite <- Hparts in Hin. by apply list_elem_of_filter in Hin as [? _].
Qed.

Lemma localeOfOutDir_Some (knownLocales : list string) (sep : ascii)
    (outDir l : string) :
  Plugin.localeOfOutDir knownLocales sep outDir = Some l ->
  l ∈ knownLocales /\ l = default EmptyString (last (Js.split sep outDir)).
Proof.
  unfold Plugin.localeOfOutDir. cbv zeta.
  case_bool_decide; [|done]. by intros [= <-].
Qed.

Lemma detectCurrentLocale_Some (cfg : Plugin.I18nConfig) (sep : ascii)
    (outDir : string) (props : option Plugin.Props) :
  exists l,
    Plugin.detectCurrentLocale (Some cfg) sep outDir props = Some l
    /\ (l ∈ default [] (Plugin.locales cfg) \/ l = Plugin.defaultLocale cfg).
Proof.
  unfold Plugin.detectCurrentLocale. cbv zeta.
  destruct (Plugin.localeOfProps _ props) as [l|] eqn:H1.
  { exists l. split; [done|]. left. by apply localeOfProps_Some in H1 as [? _]. }
  destruct (Plugin.localeOfRoutes _ props) as [l|] eqn:H2.
  { exists l. split; [done|]. left. by apply localeOfRoutes_Some in H2 as [? _]. }
  destruct (Plugin.localeOfOutDir _ sep outDir) as [l|] eqn:H3.
  { exists l. split; [done|]. left. by apply localeOfOutDir_Some in H3 as [? _]. }
  eexists. split; [done|]. by right.
Qed.

(** X9.  [detectCurrentLocale] returns undefined exactly when the site has
    no i18n configuration.  With one, it returns a locale, which is one
    of the configured locales or the default locale.  When the props
    carry neither a locale nor routes, the locale is the last part of the
    output directory when that part is a configured locale, and the
    default locale otherwise. *)
Theorem detectCurrentLocale_result (sep : ascii) (outDir : string) :
  (forall props, Plugin.detectCurrentLocale None sep outDir props = None)
  /\ (forall cfg props,
        exists l,
          Plugin.detectCurrentLocale (Some cfg) sep outDir props = Some l
          /\ (l ∈ default [] (Plugin.locales cfg)
              \/ l = Plugin.defaultLocale cfg))
  /\ (forall cfg props,
        Js.orElse (props ≫= Plugin.locale) (props ≫= Plugin.currentLocale)
          = None ->
        props ≫= Plugin.routes = None ->
        let lastPart := default EmptyString (last (Js.split sep outDir)) in
        Plugin.detectCurrentLocale (Some cfg) sep outDir props
        = Some (if bool_decide (lastPart ∈ default [] (Plugin.locales cfg))
                then lastPart else Plugin.defaultLocale cfg)).
Proof.
  split; [done|]. split.
  - intros cfg props. apply detectCurrentLocale_Some.
  - intros cfg props Hlocale Hroutes lastPart.
    unfold Plugin.detectCurrentLocale, Plugin.localeOfProps,
      Plugin.localeOfRoutes, Plugin.localeOfOutDir.
    cbv zeta. rewrite Hlocale, Hroutes. fold lastPart.
    by case_bool_decide.
Qed.

Lemma postBuild_SkippedLocale
    (collectDocFiles : Completion (list string))
    (generateStandardLLMFiles generateCustomLLMFiles :
       list string -> Completion unit)
    (i18n : option Plugin.I18nConfig) (sep : ascii) (outDir : string)
    (props : option Plugin.Props) :
  Plugin.postBuild collectDocFiles generateStandardLLMFiles
    generateCustomLLMFiles i18n sep outDir props = Plugin.SkippedLocale
  <-> Plugin.skipsLocale i18n sep outDir props = true.
Proof.
  unfold Plugin.postBuild.
  destruct (Plugin.skipsLocale i18n sep outDir props); [done|].
  split; [|done].
  destruct collectDocFiles as [allDocFiles|]; [|done].
  destruct (length allDocFiles =? 0); [done|].
  destruct (generateStandardLLMFiles allDocFiles); [|done].
  by destruct (generateCustomLLMFiles allDocFiles).
Qed.

Lemma skipsLocale_true (cfg : Plugin.I18nConfig) (sep : ascii)
    (outDir : string) (props : option Plugin.Props) (l : string) :
  Plugin.detectCurrentLocale (Some cfg) sep outDir props = Some l ->
  Plugin.skipsLocale (Some cfg) sep outDir props = true
  <-> l <> EmptyString /\ Plugin.defaultLocale cfg <> EmptyString
      /\ l <> Plugin.defaultLocale cfg.
Proof.
  intros Hl. unfold Plugin.skipsLocale. cbv zeta. rewrite Hl. simpl.
  destruct l as [|c l]; [simpl; split; [done|by intros [? _]]|].
  destruct (Plugin.defaultLocale cfg) as [|d dl] eqn:Hd;
    [simpl; split; [done|by intros (_ & ? & _)]|].
  simpl. case_bool_decide as Heq; simpl.
  - split; [done|]. intros (_ & _ & Hdiff). destruct Hdiff.
    by injection Heq as -> ->.
  - split; [|done]. intros _. repeat split; try done.
    intros E. apply Heq. by rewrite E.
Qed.

(** X10.  [postBuild] returns at once, without collecting any file, exactly
    when the site has an i18n configuration whose default locale is not
    empty and the detected locale is another one, not empty.  That locale
    is then one of the configured locales.  So a site without i18n
    configuration, and a site whose configured locales are all the default
    locale, are never skipped. *)
Theorem postBuild_skips_other_locales
    (collectDocFiles : Completion (list string))
    (generateStandardLLMFiles generateCustomLLMFiles :
       list string -> Completion unit)
    (i18n : option Plugin.I18nConfig) (sep : ascii) (outDir : string)
    (props : option Plugin.Props) :
  let outcome :=
    Plugin.postBuild collectDocFiles generateStandardLLMFiles
      generateCustomLLMFiles i18n sep outDir props in
  (outcome = Plugin.SkippedLocale
   <-> exists cfg l,
         i18n = Some cfg
         /\ Plugin.detectCurrentLocale i18n sep outDir props = Some l
         /\ l <> EmptyString
         /\ Plugin.defaultLocale cfg <> EmptyString
         /\ l <> Plugin.defaultLocale cfg)
  /\ (outcome = Plugin.SkippedLocale ->
      exists cfg l,
        i18n = Some cfg /\ Plugin.locales cfg <> None
        /\ l ∈ default [] (Plugin.locales cfg)
        /\ l <> Plugin.defaultLocale cfg
        /\ Plugin.detectCurrentLocale i18n sep outDir props = Some l)
  /\ (i18n = None -> outcome <> Plugin.SkippedLocale)
  /\ (forall cfg,
        i18n = Some cfg ->
        Forall (fun l => l = Plugin.defaultLocale cfg)
          (default [] (Plugin.locales cfg)) ->
        outcome <> Plugin.SkippedLocale).
Proof.
  intros outcome.
  pose proof (postBuild_SkippedLocale collectDocFiles generateStandardLLMFiles
                generateCustomLLMFiles i18n sep outDir props) as Hpb.
  fold outcome in Hpb.
  assert (outcome = Plugin.SkippedLocale ->
          exists cfg l,
            i18n = Some cfg
            /\ Plugin.detectCurrentLocale i18n sep outDir props = Some l
            /\ (l ∈ default [] (Plugin.locales cfg)
                \/ l = Plugin.defaultLocale cfg)
            /\ l <> EmptyString
            /\ Plugin.defaultLocale cfg <> EmptyString
            /\ l <> Plugin.defaultLocale cfg) as Hskip.
  { intros H. apply Hpb in H. destruct i18n as [cfg|]; [|done].
    destruct (detectCurrentLocale_Some cfg sep outDir props)
      as (l & Hl & Hin).
    apply (skipsLocale_true _ _ _ _ _ Hl) in H. by exists cfg, l. }
  assert (outcome = Plugin.SkippedLocale ->
          exists cfg l,
            i18n = Some cfg /\ Plugin.locales cfg <> None
            /\ l ∈ default [] (Plugin.locales cfg)
            /\ l <> Plugin.defaultLocale cfg
            /\ Plugin.detectCurrentLocale i18n sep outDir props = Some l)
    as Hconfigured.
  { intros H.
    apply Hskip in H as (cfg & l & Hcfg & Hl & Hin & _ & _ & Hdiff).
    exists cfg, l. destruct Hin as [Hin|Hin]; [|done].
    repeat split; try done.
    intros Hnone. rewrite Hnone in Hin. simpl in Hin.
    by apply elem_of_nil in Hin. }
  split; [split|].
  - intros H. apply Hskip in H as (cfg & l & ? & ? & _ & ?). by exists cfg, l.
  - intros (cfg & l & Hcfg & Hl & H). apply Hpb. rewrite Hcfg in Hl |- *.
    by apply (skipsLocale_true _ _ _ _ _ Hl).
  - split; [done|]. split.
    + intros Hnone H. apply Hconfigured in H as (? & ? & Hcfg & _).
      by rewrite Hnone in Hcfg.
    + intros cfg Hcfg Hall H.
      apply Hconfigured in H as (cfg' & l & Hcfg' & _ & Hin & Hdiff & _).
      rewrite Hcfg in Hcfg'. injection Hcfg' as <-.
      rewrite Forall_forall in Hall. by apply Hdiff, Hall.
Qed.

(** X11.  A build whose props carry neither a locale nor routes is told
    by its output directory: [postBuild] returns at once exactly when the
    last part of the output directory is a configured locale that is not
    the default locale, neither of them empty.  A build into the base
    output directory is not skipped. *)
Theorem postBuild_outDir_locale
    (collectDocFiles : Completion (list string))
    (generateStandardLLMFiles generateCustomLLMFiles :
       list string -> Completion unit)
    (cfg : Plugin.I18nConfig) (sep : ascii) (outDir : string) :
  let lastPart := default EmptyString (last (Js.split sep outDir)) in
  Plugin.postBuild collectDocFiles generateStandardLLMFiles
    generateCustomLLMFiles (Some cfg) sep outDir None = Plugin.SkippedLocale
  <-> lastPart ∈ default [] (Plugin.locales cfg)
      /\ lastPart <> EmptyString
      /\ Plugin.defaultLocale cfg <> EmptyString
      /\ lastPart <> Plugin.defaultLocale cfg.
Proof.
  intros lastPart. rewrite postBuild_SkippedLocale.
  assert (Plugin.detectCurrentLocale (Some cfg) sep outDir None
          = Some (if bool_decide (lastPart ∈ default [] (Plugin.locales cfg))
                  then lastPart else Plugin.defaultLocale cfg)) as Hl.
  { unfold Plugin.detectCurrentLocale, Plugin.localeOfOutDir. cbv zeta.
    fold lastPart. simpl. by case_bool_decide. }
  rewrite (skipsLocale_true _ _ _ _ _ Hl).
  case_bool_decide as Hin; [tauto|]. tauto.
Qed.

(** ** The site url *)

Lemma dropLast_append_char (s : string) (c : ascii) :
  Js.dropLast (s +:+ String c EmptyString) = s.
Proof.
  induction s as [|d s IH]; simpl; [done|].
  destruct (s +:+ String c EmptyString) eqn:E; [by destruct s|].
  by rewrite IH.
Qed.

(** X12.  The site url is the url of the site followed by its base url
    without the slash at its end: one slash is removed, not a run of
    them, and a base url that does not end in a slash is kept whole.  So
    the base url [/] gives the url of the site itself. *)
Theorem siteUrl_drops_one_slash (url : string) :
  (forall base : string, Plugin.siteUrl url (base +:+ "/") = url +:+ base)
  /\ (forall baseUrl : string,
        Js.lastChar baseUrl <> Some "/"%char ->
        Plugin.siteUrl url baseUrl = url +:+ baseUrl)
  /\ Plugin.siteUrl url "/" = url.
Proof.
  split; [|split].
  - intros base. unfold Plugin.siteUrl, Js.endsWithSlash.
    by rewrite JsFacts.lastChar_append_char, dropLast_append_char.
  - intros baseUrl Hlast. unfold Plugin.siteUrl, Js.endsWithSlash.
    destruct (Js.lastChar baseUrl) as [c|]; [|done].
    unfold Js.isSlash. destruct (Ascii.eqb_spec c "/") as [->|]; done.
  - unfold Plugin.siteUrl. simpl. apply JsFacts.append_nil_r.
Qed.

(** ** Link items *)

Lemma cleanDescriptionForToc_length (description : string) :
  String.length (cleanDescriptionForToc description) <= 150.
Proof.
  destruct description as [|c d]; [simpl; lia|].
  unfold cleanDescriptionForToc. cbv zeta.
  set (cleaned := Re.stripHeadingMarker _).
  destruct (Nat.ltb_spec 150 (String.length cleaned)) as [Hlong|Hshort];
    [|done].
  destruct (ReFacts.substring0_spec 147 cleaned ltac:(lia)) as (_ & _ & Hl).
  rewrite JsFacts.length_append, Hl. simpl. lia.
Qed.

Lemma cleanDescriptionForToc_one_line (description : string) :
  LF ∉ list_ascii_of_string (cleanDescriptionForToc description).
Proof.
  destruct description as [|c d]; [apply not_elem_of_nil|].
  unfold cleanDescriptionForToc. cbv zeta.
  set (firstLine := Js.nth 0 (Js.split LF (String c d))).
  set (cleaned := Re.stripHeadingMarker firstLine).
  assert (LF ∉ list_ascii_of_string firstLine) as Hfirst
    by apply ReFacts.split_head_spec.
  assert (LF ∉ list_ascii_of_string cleaned) as Hcleaned.
  { destruct (ReFacts.stripHeadingMarker_spec firstLine)
      as [(k & ws & (_ & _ & _ & Hline) & _)|[Heq _]].
    - fold cleaned in Hline. rewrite Hline in Hfirst.
      rewrite !JsFacts.chars_append in Hfirst.
      intros Hin. apply Hfirst. by apply elem_of_app; right; apply elem_of_app; right.
    - unfold cleaned. by rewrite Heq. }
  destruct (Nat.ltb_spec 150 (String.length cleaned)) as [Hlong|Hshort];
    [|done].
  destruct (ReFacts.substring0_spec 147 cleaned ltac:(lia)) as (d' & Hd & _).
  rewrite Hd, JsFacts.chars_append in Hcleaned.
  rewrite JsFacts.chars_append. intros Hin.
  apply elem_of_app in Hin as [Hin|Hin].
  - apply Hcleaned. by apply elem_of_app; left.
  - vm_compute in Hin. repeat (apply elem_of_cons in Hin as [Hin|Hin]; [done|]).
    by apply elem_of_nil in Hin.
Qed.

(** X13.  A link item is the link [- [title](url)] followed by a tail.
    The tail is empty when descriptions are not included, and when the
    cleaned description is empty; otherwise it is a colon, a space and the
    cleaned description.  The tail has at most 152 code units and no line
    feed, so a description of several lines never breaks the list. *)
Theorem generateLinkItem_tail (doc : DocInfo) (includeDescription : bool) :
  exists tail : string,
    generateLinkItem doc includeDescription
    = "- [" +:+ title doc +:+ "](" +:+ url doc +:+ ")" +:+ tail
    /\ String.length tail <= 152
    /\ (LF ∉ list_ascii_of_string tail)
    /\ (tail = EmptyString
        \/ includeDescription = true
           /\ cleanDescriptionForToc (description doc) <> EmptyString
           /\ tail = ": " +:+ cleanDescriptionForToc (description doc))
    /\ (tail = EmptyString ->
        includeDescription = false
        \/ cleanDescriptionForToc (description doc) = EmptyString).
Proof.
  unfold generateLinkItem. destruct includeDescription.
  2:{ exists EmptyString. rewrite !JsFacts.append_nil_r.
      repeat split; [simpl; lia|apply not_elem_of_nil|by left|by left]. }
  cbv zeta.
  pose proof (cleanDescriptionForToc_length (description doc)) as Hlen.
  pose proof (cleanDescriptionForToc_one_line (description doc)) as Hline.
  destruct (cleanDescriptionForToc (description doc)) as [|c d] eqn:E.
  - exists EmptyString.
    repeat split; [simpl; lia|apply not_elem_of_nil|by left|by right].
  - exists (": " +:+ String c d). split; [done|].
    split; [simpl in *; lia|]. split; [|split; [by right|done]].
    simpl. rewrite !not_elem_of_cons. simpl in Hline.
    rewrite not_elem_of_cons in Hline. destruct Hline as [Hc Hd].
    repeat split; try done; intros H; vm_compute in H; discriminate H.
Qed.

(** ** What the reader of descriptors returns *)

(** X14.  The reader of descriptors returns null exactly when the file
    cannot be read, when its text cannot be parsed, and when it parses to
    null.  What it returns otherwise has the position of the descriptor
    when that is a number, 999 when the descriptor has no [position]
    member, and its label, null when the descriptor has none or an empty
    one: a label is never the empty string.  (A [position] member that is
    null or no integer is outside [CategoryData]; the reader keeps it as
    it is.) *)
Theorem readCategoryMetadata_null_iff
    (fs_readFile : string -> Completion string)
    (JSON_parse : string -> Completion CategoryData)
    (path_join : string -> string -> string) (categoryPath : string) :
  let read := readCategoryMetadata fs_readFile JSON_parse path_join in
  let file := fs_readFile (path_join categoryPath "_category_.json") in
  (read categoryPath = Normal None
   <-> (exists e, file = Throw e)
       \/ (exists text,
             file = Normal text
             /\ ((exists e, JSON_parse text = Throw e)
                 \/ JSON_parse text = Normal DataNull)))
  /\ (forall md,
        read categoryPath = Normal (Some md) ->
        label md <> Some EmptyString
        /\ exists text p l,
             file = Normal text
             /\ (JSON_parse text = Normal (DataObject p l)
                 \/ JSON_parse text = Normal DataOther
                    /\ p = None /\ l = None)
             /\ (forall n, p = Some n -> position md = n)
             /\ (p = None -> position md = 999%Z)
             /\ label md = if Js.truthy l then l else None).
Proof.
  intros read file. unfold read, file, readCategoryMetadata. unbind.
  destruct (fs_readFile (path_join categoryPath "_category_.json"))
    as [text|e]; simpl.
  2:{ split; [|done]. split; [|done]. intros _. left. by exists e. }
  destruct (JSON_parse text) as [[|p l|]|e] eqn:Hparse; simpl.
  - split; [|done]. split; [|done]. intros _. right. exists text.
    split; [done|]. by right.
  - split.
    + split; [done|].
      intros [[e [=]]|(text' & [= <-] & [[e H]|H])]; congruence.
    + intros md [= <-]. simpl. split; [by destruct l as [[|? ?]|]|].
      exists text, p, l. split; [done|]. split; [by left|].
      split; [by intros n ->|]. split; [by intros ->|done].
  - split.
    + split; [done|].
      intros [[e [=]]|(text' & [= <-] & [[e H]|H])]; congruence.
    + intros md [= <-]. simpl. split; [done|].
      exists text, None, None. split; [done|]. split; [by right|].
      split; [done|]. by split.
  - split; [|done]. split; [|done]. intros _. right. exists text.
    split; [done|]. left. by exists e.
Qed.

(** ** The directory of the descriptor of a category *)

(** What is put after a string, and holds no separator, goes to the last
    part. *)
Lemma split_append_no_sep (sep : ascii) (r e : string)
    (dirs : list string) (lastSeg : string) :
  sep ∉ list_ascii_of_string e ->
  Js.split sep r = dirs ++ [lastSeg] ->
  Js.split sep (r +:+ e) = dirs ++ [lastSeg +:+ e].
Proof.
  intros He Hsplit.
  pose proof (JsFacts.split_no_sep sep r) as Hno. rewrite Hsplit in Hno.
  apply Forall_app in Hno as [Hdirs Hlast].
  rewrite Forall_singleton in Hlast.
  rewrite <- (JsFacts.join_split sep r), Hsplit.
  replace (Js.join (String sep EmptyString) (dirs ++ [lastSeg]) +:+ e)
    with (Js.join (String sep EmptyString) (dirs ++ [lastSeg +:+ e])).
  - apply JsFacts.split_join_unique; [by destruct dirs|].
    apply Forall_app. split; [done|]. apply Forall_singleton.
    rewrite JsFacts.chars_append. intros Hin.
    by apply elem_of_app in Hin as [Hin|Hin].
  - rewrite !join_snoc. destruct dirs; [done|].
    by rewrite !JsFacts.append_assoc.
Qed.

(** Removing the extension changes the last segment only. *)
Lemma split_stripMdxExt (s : string) :
  exists (dirs : list string) (lastSeg ext : string),
    Js.split "/" (Re.stripMdxExt s) = dirs ++ [lastSeg]
    /\ Js.split "/" s = dirs ++ [lastSeg +:+ ext].
Proof.
  destruct (split_snoc "/" (Re.stripMdxExt s)) as (dirs & lastSeg & Hsplit).
  exists dirs, lastSeg.
  destruct (ReFacts.stripMdxExt_spec s) as [H|[H|[H _]]].
  - exists ".mdx". split; [done|]. rewrite H at 1.
    apply split_append_no_sep; [|done].
    vm_compute. intros Hin.
    repeat (apply elem_of_cons in Hin as [Hin|Hin]; [done|]).
    by apply elem_of_nil in Hin.
  - exists ".md". split; [done|]. rewrite H at 1.
    apply split_append_no_sep; [|done].
    vm_compute. intros Hin.
    repeat (apply elem_of_cons in Hin as [Hin|Hin]; [done|]).
    by apply elem_of_nil in Hin.
  - exists EmptyString. split; [done|].
    rewrite JsFacts.append_nil_r. by rewrite <- H at 1.
Qed.

(** X15.  For every document at least four segments deep under the docs
    directory, the descriptor that [getCategoryMetadata] reads is the one
    of the directory made of the first two segments of the path and of
    the category that [extractCategoryFromPath] gives to the document:
    the extension of the document plays no part. *)
Theorem getCategoryMetadata_directory
    (fs_readFile : string -> Completion string)
    (JSON_parse : string -> Completion CategoryData)
    (path_join : string -> string -> string)
    (docPath siteDir docsDir : string) :
  let parts := Js.split "/" (Re.stripSlashes docPath) in
  4 <= length parts ->
  Js.nth 0 parts = docsDir ->
  getCategoryMetadata fs_readFile JSON_parse path_join docPath siteDir docsDir
  = Normal
      (default defaultMetadata
         (valueOr None
            (readCategoryMetadata fs_readFile JSON_parse path_join
               (path_join siteDir
                  (docsDir +:+ "/" +:+ Js.nth 1 parts +:+ "/"
                     +:+ extractCategoryFromPath docPath))))).
Proof.
  intros parts Hlen Hfirst. unfold parts in *. clear parts.
  destruct (split_stripMdxExt (Re.stripSlashes docPath))
    as (dirs & lastSeg & ext & Hstem & Hparts).
  assert (3 <= length dirs) as Hdirs.
  { rewrite Hparts, length_app in Hlen. simpl in Hlen. lia. }
  destruct dirs as [|d0 [|d1 [|d2 dirs]]]; simpl in Hdirs; try lia.
  assert (extractCategoryFromPath docPath = d2) as ->.
  { unfold extractCategoryFromPath. by rewrite Hparts. }
  rewrite Hparts in Hfirst |- *. unfold Js.nth in Hfirst |- *.
  simpl in Hfirst. subst d0.
  unfold getCategoryMetadata. cbv zeta. rewrite Hstem. simpl.
  rewrite String.eqb_refl. simpl. unbind.
  by rewrite readCategoryMetadata_normal.
Qed.

Lemma getCategoryMetadata_directory_witness :
  getCategoryMetadata (Fixture.readFileOf Fixture.scenarioFiles)
    Fixture.parseDescriptor Fixture.joinPath "/docs/a/cat1/x.mdx" "site" "docs"
  = Normal {| position := 1; label := None |}.
Proof.
  rewrite (getCategoryMetadata_directory
             (Fixture.readFileOf Fixture.scenarioFiles)
             Fixture.parseDescriptor Fixture.joinPath
             "/docs/a/cat1/x.mdx" "site" "docs");
    [reflexivity|vm_compute; lia|reflexivity].
Defined.

(** ** Every document of a category has one link *)

Section PartitionFacts.
Context {K V : Type} `{EqDecision K}.

Lemma concat_fmap_nil (f : K -> list V) (ks : list K) :
  (forall k, k ∈ ks -> f k = []) -> concat (f <$> ks) = [].
Proof.
  induction ks as [|k ks IH]; intros Hf; [done|].
  rewrite fmap_cons. cbn [concat].
  rewrite (Hf k) by apply list_elem_of_here.
  apply IH. intros k' Hk'. apply Hf. by apply list_elem_of_further.
Qed.

Lemma concat_fmap_Permutation {A} (f g : A -> list V) (l : list A) :
  (forall x, x ∈ l -> f x ≡ₚ g x) -> concat (f <$> l) ≡ₚ concat (g <$> l).
Proof.
  induction l as [|x l IH]; intros Hfg; [done|].
  rewrite !fmap_cons. cbn [concat].
  rewrite (Hfg x) by apply list_elem_of_here.
  rewrite IH; [done|]. intros y Hy. apply Hfg. by apply list_elem_of_further.
Qed.

(** One more value under one of the keys *)
Lemma concat_fmap_cons_at (f : K -> list V) (k0 : K) (v : V) (ks : list K) :
  NoDup ks -> k0 ∈ ks ->
  concat ((fun k => if decide (k0 = k) then v :: f k else f k) <$> ks)
  ≡ₚ v :: concat (f <$> ks).
Proof.
  induction ks as [|k ks IH]; intros Hnd Hin.
  - by apply elem_of_nil in Hin.
  - apply NoDup_cons in Hnd as [Hk Hnd]. rewrite !fmap_cons. cbn [concat].
    destruct (decide (k0 = k)) as [->|Hne].
    + cbn [app]. constructor. apply Permutation_app_head.
      rewrite (list_fmap_ext _ f ks); [done|].
      intros i k' Hk'. rewrite decide_False; [done|].
      intros <-. apply Hk. by eapply list_elem_of_lookup_2.
    + apply elem_of_cons in Hin as [Hin|Hin]; [done|].
      rewrite (IH Hnd Hin). by rewrite Permutation_middle.
Qed.

(** The groups of [groupBy], taken under keys that are pairwise different
    and among which is the key of every value, hold every value once. *)
Lemma concat_groupBy (key : V -> K) (vs : list V) (ks : list K) :
  NoDup ks ->
  (forall v, v ∈ vs -> key v ∈ ks) ->
  concat ((fun k => default [] (mapGet k (groupBy key vs))) <$> ks) ≡ₚ vs.
Proof.
  intros Hnd Hin.
  rewrite (list_fmap_ext _ (fun k => filter (fun v => key v = k) vs)).
  2:{ intros i k _. rewrite mapGet_groupBy. by destruct (filter _ vs). }
  induction vs as [|v vs IH].
  - by rewrite concat_fmap_nil.
  - rewrite (list_fmap_ext _
               (fun k => if decide (key v = k)
                         then v :: filter (fun v => key v = k) vs
                         else filter (fun v => key v = k) vs)).
    2:{ intros i k _. by rewrite filter_cons. }
    rewrite concat_fmap_cons_at; [|done|apply Hin, list_elem_of_here].
    constructor. apply IH. intros v' Hv'. apply Hin.
    by apply list_elem_of_further.
Qed.

Lemma NoDup_omap_id (l : list (option K)) :
  NoDup l -> NoDup (omap (fun s => s) l).
Proof.
  induction l as [|[k|] l IH]; intros Hnd; [constructor| |].
  - apply NoDup_cons in Hnd as [Hk Hnd]. cbn [omap list_omap].
    apply NoDup_cons. split; [|by apply IH].
    intros Hin. apply Hk. apply list_elem_of_omap in Hin as (y & Hy & Hs).
    by subst y.
  - apply NoDup_cons in Hnd as [_ Hnd]. cbn [omap list_omap]. by apply IH.
Qed.

End PartitionFacts.

Section CategorySections.
Variable localeCompare : string -> string -> Z.
Variable toUpperCase : string -> string.

Local Abbreviation sortDocs := (sortDocsByPosition localeCompare).

Lemma sortDocsByPosition_Permutation (docs : list DocInfo) :
  sortDocs docs ≡ₚ docs.
Proof. apply arraySort_Permutation. Qed.

Lemma sortDocsByPosition_nil (docs : list DocInfo) :
  sortDocs docs = [] <-> docs = [].
Proof.
  split; [|by intros ->]. intros H.
  apply Permutation_nil_r. by rewrite <- H, sortDocsByPosition_Permutation.
Qed.

Lemma sortedSubdirs_Permutation (m : gmap string CategoryMetadata)
    (docsBySubdir : list (option string * list DocInfo)) :
  sortedSubdirs localeCompare m docsBySubdir
  ≡ₚ omap (fun s => s) (mapKeys docsBySubdir).
Proof. apply arraySort_Permutation. Qed.

(** X16.  The sections of a category hold one link for every document of
    the category, and no other link: the documents without subdirectory
    are in the list that comes first, which is left out when there is no
    such document; every other document is in the section of its
    subdirectory, and of no other.  No subdirectory has two sections and
    no section is empty. *)
Theorem category_sections_keep_documents (docsDir : option string)
    (includeDescriptionInLinks : bool)
    (subdirMetadataMap : gmap string CategoryMetadata)
    (categoryDocs : list DocInfo) :
  let docsBySubdir := groupBy (subdirOf docsDir) categoryDocs in
  let items (docs : list DocInfo) :=
    Js.join nl
      ((fun doc => generateLinkItem doc includeDescriptionInLinks) <$> docs) in
  exists (rootDocs : list DocInfo)
         (subdirGroups : list (string * list DocInfo)),
    rootSections localeCompare includeDescriptionInLinks docsBySubdir
    = match rootDocs with [] => [] | _ => [items rootDocs] end
    /\ subdirSections localeCompare toUpperCase includeDescriptionInLinks
         subdirMetadataMap docsBySubdir
       = (fun g =>
            "### " +:+ displayTitle toUpperCase (subdirMetadataMap !! g.1) g.1
              +:+ nl +:+ nl +:+ items g.2) <$> subdirGroups
    /\ rootDocs ++ concat (snd <$> subdirGroups) ≡ₚ categoryDocs
    /\ Forall (fun doc => subdirOf docsDir doc = None) rootDocs
    /\ Forall (fun g =>
                 g.2 <> []
                 /\ Forall (fun doc => subdirOf docsDir doc = Some g.1) g.2)
         subdirGroups
    /\ NoDup (fst <$> subdirGroups).
Proof.
  intros docsBySubdir items.
  set (docsOf := fun k => default [] (mapGet k docsBySubdir)).
  set (subdirs := sortedSubdirs localeCompare subdirMetadataMap docsBySubdir).
  assert (forall k, docsOf k = filter (fun doc => subdirOf docsDir doc = k)
                                 categoryDocs) as HdocsOf.
  { intros k. unfold docsOf, docsBySubdir. rewrite mapGet_groupBy.
    by destruct (filter _ categoryDocs). }
  assert (NoDup subdirs) as Hnd.
  { unfold subdirs. rewrite sortedSubdirs_Permutation.
    apply NoDup_omap_id, NoDup_mapKeys_groupBy. }
  assert (forall s, s ∈ subdirs <->
                    exists doc, doc ∈ categoryDocs
                                /\ subdirOf docsDir doc = Some s) as Hsubdirs.
  { intros s. unfold subdirs. rewrite sortedSubdirs_Permutation.
    rewrite list_elem_of_omap. unfold docsBySubdir. split.
    - intros (y & Hy & ->). by apply elem_of_mapKeys_groupBy in Hy.
    - intros Hdoc. exists (Some s). split; [|done].
      by apply elem_of_mapKeys_groupBy. }
  exists (sortDocs (docsOf None)),
    ((fun s => (s, sortDocs (docsOf (Some s)))) <$> subdirs).
  split; [|split; [|split; [|split; [|split]]]].
  - unfold rootSections. cbv zeta. fold (docsOf None).
    destruct (docsOf None) as [|d l] eqn:E; [done|].
    destruct (sortDocs (d :: l)) eqn:Hs; [|done].
    by apply (proj1 (sortDocsByPosition_nil _)) in Hs.
  - unfold subdirSections. fold subdirs. rewrite <- list_fmap_compose.
    by apply list_fmap_ext.
  - rewrite <- list_fmap_compose.
    rewrite sortDocsByPosition_Permutation.
    rewrite (concat_fmap_Permutation _ (fun s => docsOf (Some s))).
    2:{ intros s _. apply sortDocsByPosition_Permutation. }
    assert (docsOf None ++ concat ((fun s => docsOf (Some s)) <$> subdirs)
            = concat (docsOf <$> (None :: (Some <$> subdirs)))) as ->.
    { rewrite fmap_cons. cbn [concat]. by rewrite <- list_fmap_compose. }
    apply concat_groupBy.
    + apply NoDup_cons. split.
      * intros Hin. by apply list_elem_of_fmap in Hin as (? & ? & _).
      * by apply (NoDup_fmap_2 Some).
    + intros doc Hdoc. destruct (subdirOf docsDir doc) as [s|] eqn:E.
      * apply list_elem_of_further, list_elem_of_fmap. exists s.
        split; [done|]. apply Hsubdirs. by exists doc.
      * apply list_elem_of_here.
  - apply Forall_forall. intros doc Hdoc.
    rewrite sortDocsByPosition_Permutation, HdocsOf in Hdoc.
    by apply list_elem_of_filter in Hdoc as [? _].
  - apply Forall_fmap, Forall_forall. intros s Hs. simpl. split.
    + rewrite sortDocsByPosition_nil, HdocsOf.
      apply Hsubdirs in Hs as (doc & Hdoc & Hsub). intros Hnil.
      assert (doc ∈ filter (fun doc => subdirOf docsDir doc = Some s)
                      categoryDocs) as Hin by by apply list_elem_of_filter.
      rewrite Hnil in Hin. by apply elem_of_nil in Hin.
    + apply Forall_forall. intros doc Hdoc.
      rewrite sortDocsByPosition_Permutation, HdocsOf in Hdoc.
      by apply list_elem_of_filter in Hdoc as [? _].
  - rewrite <- list_fmap_compose.
    rewrite (list_fmap_ext _ id subdirs); [by rewrite list_fmap_id|done].
Qed.

End CategorySections.

(** ** The display name of a category *)

Lemma split_app_sep (sep : ascii) (a b : string) :
  Js.split sep (a +:+ String sep b) = Js.split sep a ++ Js.split sep b.
Proof.
  induction a as [|c a IH]; simpl.
  - by rewrite Ascii.eqb_refl.
  - destruct (Ascii.eqb c sep); rewrite IH; [done|].
    pose proof (JsFacts.split_nonempty sep a).
    by destruct (Js.split sep a).
Qed.

Lemma join_app (sep : string) (l1 l2 : list string) :
  l1 <> [] -> l2 <> [] ->
  Js.join sep (l1 ++ l2) = Js.join sep l1 +:+ sep +:+ Js.join sep l2.
Proof.
  unfold Js.join. intros H1 H2.
  induction l1 as [|x l1 IH]; [done|].
  destruct l1 as [|y l1].
  - destruct l2; [done|]. reflexivity.
  - change (String.concat sep ((x :: y :: l1) ++ l2))
      with (x +:+ sep +:+ String.concat sep ((y :: l1) ++ l2)).
    rewrite IH by done.
    change (String.concat sep (x :: y :: l1))
      with (x +:+ sep +:+ String.concat sep (y :: l1)).
    by rewrite !JsFacts.append_assoc.
Qed.

(** X17.  The display name of a category is made word by word: a name
    without hyphen is one word, whose first code unit goes through
    [toUpperCase] and whose other code units are kept; and the display
    name of two names joined by a hyphen is their display names joined by
    a space.  So every hyphen becomes a space, and nothing else is
    changed but the first code unit of every word. *)
Theorem formatCategoryName_words (toUpperCase : string -> string) :
  (forall word : string,
      "-"%char ∉ list_ascii_of_string word ->
      formatCategoryName toUpperCase word
      = toUpperCase (Js.charAt0 word) +:+ Js.slice1 word)
  /\ (forall a b : string,
        formatCategoryName toUpperCase (a +:+ "-" +:+ b)
        = formatCategoryName toUpperCase a +:+ " "
            +:+ formatCategoryName toUpperCase b).
Proof.
  split.
  - intros word Hword. unfold formatCategoryName.
    by rewrite split_single.
  - intros a b. unfold formatCategoryName.
    change (a +:+ "-" +:+ b) with (a +:+ String "-" b).
    rewrite split_app_sep, fmap_app.
    apply join_app.
    + pose proof (JsFacts.split_nonempty "-" a).
      by destruct (Js.split "-" a).
    + pose proof (JsFacts.split_nonempty "-" b).
      by destruct (Js.split "-" b).
Qed.

(** ** The directories of the descriptors of subdirectories *)

Section SubdirPaths.
Variable path_join : string -> string -> string.

Local Abbreviation dirOf siteDir doc :=
  (path_join siteDir
     (Js.join "/"
        (take 4 (Js.split "/" (Re.stripMdxExt (Re.stripSlashes (path doc))))))).

Lemma collectSubdirPaths_snoc (siteDir docsDir : option string)
    (docs : list DocInfo) (doc : DocInfo) :
  collectSubdirPaths path_join siteDir docsDir (docs ++ [doc])
  = let acc := collectSubdirPaths path_join siteDir docsDir docs in
    match subdirOf docsDir doc, siteDir, docsDir with
    | Some (String _ _ as subdir),
      Some (String _ _ as siteDir), Some (String _ _) =>
        if bool_decide (subdir ∈ acc.*1) then acc
        else acc ++ [(subdir, dirOf siteDir doc)]
    | _, _, _ => acc
    end.
Proof.
  unfold collectSubdirPaths. rewrite foldl_snoc. cbv zeta.
  destruct (subdirOf docsDir doc) as [[|c sub]|] eqn:E; [done| |done].
  destruct siteDir as [[|a siteDir]|]; [done| |done].
  destruct docsDir as [[|b docsDir]|]; [done| |done].
  case_bool_decide; [done|].
  unfold subdirOf, extractSubdirectoryFromPath in E.
  by destruct (_ && _).
Qed.

Lemma collectSubdirPaths_falsy (siteDir docsDir : option string)
    (docs : list DocInfo) :
  Js.truthy siteDir && Js.truthy docsDir = false ->
  collectSubdirPaths path_join siteDir docsDir docs = [].
Proof.
  intros H. induction docs as [|doc docs IH] using rev_ind; [done|].
  rewrite collectSubdirPaths_snoc, IH. cbv zeta.
  destruct (subdirOf docsDir doc) as [[|c sub]|]; [done| |done].
  destruct siteDir as [[|a siteDir]|]; [done| |done].
  by destruct docsDir as [[|b docsDir]|].
Qed.

Lemma collectSubdirPaths_truthy (siteDir docsDir : string)
    (docs : list DocInfo) :
  siteDir <> EmptyString -> docsDir <> EmptyString ->
  let paths := collectSubdirPaths path_join (Some siteDir) (Some docsDir) docs in
  let key := subdirOf (Some docsDir) in
  paths.*1
  = filter (fun s => s <> EmptyString) (omap (fun s => s) (mapKeys (groupBy key docs)))
  /\ forall s p,
       (s, p) ∈ paths ->
       exists doc,
         head (filter (fun d => key d = Some s) docs) = Some doc
         /\ p = dirOf siteDir doc.
Proof.
  intros Hsite Hdocs paths key. unfold paths. clear paths.
  induction docs as [|doc docs [IHkeys IHvalues]] using rev_ind.
  { split; [done|]. intros s p Hin. by apply elem_of_nil in Hin. }
  rewrite collectSubdirPaths_snoc. cbv zeta.
  set (acc := collectSubdirPaths path_join (Some siteDir) (Some docsDir) docs)
    in *.
  assert (groupBy key (docs ++ [doc]) = pushTo (key doc) doc (groupBy key docs))
    as -> by (unfold groupBy; by rewrite foldl_snoc).
  rewrite mapKeys_pushTo. fold key.
  assert (forall s p, (s, p) ∈ acc ->
            exists doc0,
              head (filter (fun d => key d = Some s) (docs ++ [doc]))
              = Some doc0
              /\ p = dirOf siteDir doc0) as Hold.
  { intros s p Hin. destruct (IHvalues s p Hin) as (doc0 & Hhead & Hp).
    exists doc0. split; [|done]. rewrite filter_app.
    by destruct (filter _ docs). }
  destruct (key doc) as [[|c sub]|] eqn:E.
  - destruct siteDir; [done|]. destruct docsDir; [done|].
    split; [|done]. rewrite IHkeys. case_decide; [done|].
    rewrite omap_app, filter_app. cbn [omap list_omap app].
    rewrite filter_cons, decide_False by (by intros H'; apply H').
    by rewrite filter_nil, app_nil_r.
  - destruct siteDir as [|a siteDir]; [done|].
    destruct docsDir as [|b docsDir]; [done|].
    assert (String c sub ∈ acc.*1 <-> Some (String c sub) ∈ mapKeys (groupBy key docs))
      as Hin.
    { rewrite IHkeys, list_elem_of_filter, list_elem_of_omap. split.
      - by intros [_ (y & Hy & ->)].
      - intros H'. split; [done|]. by exists (Some (String c sub)). }
    case_bool_decide as Hacc.
    + rewrite decide_True by by apply Hin. done.
    + rewrite decide_False by (by intros H'; apply Hacc, Hin). split.
      * rewrite fmap_app, omap_app, filter_app, IHkeys.
        cbn [omap list_omap app fmap list_fmap fst].
        by rewrite filter_cons, decide_True, filter_nil.
      * intros s p Hsp. apply elem_of_app in Hsp as [Hsp|Hsp]; [by apply Hold|].
        apply list_elem_of_singleton in Hsp. injection Hsp as -> ->.
        exists doc. split; [|done]. rewrite filter_app.
        assert (filter (fun d => key d = Some (String c sub)) docs = [])
          as ->.
        { destruct (filter _ docs) as [|d l] eqn:Hf; [done|].
          assert (d ∈ filter (fun d => key d = Some (String c sub)) docs)
            as Hd by (rewrite Hf; apply list_elem_of_here).
          apply list_elem_of_filter in Hd as [Hk Hd].
          destruct Hacc. apply Hin, elem_of_mapKeys_groupBy. by exists d. }
        by rewrite filter_cons, decide_True.
  - destruct siteDir; [done|]. destruct docsDir; [done|].
    split; [|done]. rewrite IHkeys. case_decide; [done|].
    rewrite omap_app, filter_app. cbn [omap list_omap app].
    by rewrite filter_nil, app_nil_r.
Qed.

End SubdirPaths.

(** X18.  The directories in which the descriptors of the subdirectories
    of a category are looked up.  Without a site directory or a docs
    directory there is none.  With both, there is one for every
    subdirectory of the category whose name is not empty, in the order in
    which the subdirectories first appear among the documents, and none
    else; it is the directory of the first four segments of the path of
    the first document of the subdirectory. *)
Theorem collectSubdirPaths_first_documents
    (path_join : string -> string -> string)
    (siteDir docsDir : option string) (categoryDocs : list DocInfo) :
  let paths := collectSubdirPaths path_join siteDir docsDir categoryDocs in
  let docsBySubdir := groupBy (subdirOf docsDir) categoryDocs in
  (Js.truthy siteDir && Js.truthy docsDir = false -> paths = [])
  /\ (forall site : string,
        siteDir = Some site -> site <> EmptyString ->
        Js.truthy docsDir = true ->
        paths.*1
        = filter (fun s => s <> EmptyString)
            (omap (fun s => s) (mapKeys docsBySubdir))
        /\ NoDup paths.*1
        /\ forall s p,
             (s, p) ∈ paths ->
             exists doc,
               head (filter (fun d => subdirOf docsDir d = Some s)
                       categoryDocs) = Some doc
               /\ p = path_join site
                        (Js.join "/"
                           (take 4
                              (Js.split "/"
                                 (Re.stripMdxExt
                                    (Re.stripSlashes (path doc))))))).
Proof.
  intros paths docsBySubdir. split; [apply collectSubdirPaths_falsy|].
  intros site -> Hsite Hdocs.
  destruct docsDir as [[|b dir]|]; [done| |done].
  destruct (collectSubdirPaths_truthy path_join site (String b dir)
              categoryDocs Hsite ltac:(done)) as [Hkeys Hvalues].
  split; [done|]. split; [|done].
  unfold paths. rewrite Hkeys.
  apply NoDup_filter, NoDup_omap_id, NoDup_mapKeys_groupBy.
Qed.

(** ** The path derived from the path of a document *)

Lemma stripPrefix_append (pre s : string) :
  Js.stripPrefix pre (pre +:+ s) = Some s.
Proof.
  induction pre as [|c pre IH]; simpl; [by destruct s|].
  by rewrite Ascii.eqb_refl.
Qed.

(** A suffix without slash is looked for after the last slash only. *)
Lemma stripSuffix_after_slash (suf x rel : string) :
  "/"%char ∉ list_ascii_of_string suf ->
  Js.stripSuffix suf (x +:+ String "/" rel)
  = (fun r => x +:+ String "/" r) <$> Js.stripSuffix suf rel.
Proof.
  intros Hsuf.
  assert (forall y, String.eqb (y +:+ String "/" rel) suf = false) as Hne.
  { intros y. apply String.eqb_neq. intros <-. apply Hsuf.
    rewrite JsFacts.chars_append. apply elem_of_app. right.
    apply list_elem_of_here. }
  induction x as [|c x IH].
  - pose proof (Hne EmptyString) as H0.
    cbn [String.append Js.stripSuffix] in H0 |- *. rewrite H0.
    by destruct (Js.stripSuffix suf rel).
  - pose proof (Hne (String c x)) as H0.
    cbn [String.append Js.stripSuffix] in H0 |- *. rewrite H0, IH.
    by destruct (Js.stripSuffix suf rel).
Qed.

(** X19.  The relative path that is derived from the path of a document
    under the docs directory: the slashes at the start and the docs
    directory with its slash are removed, once, and a final [.mdx]
    becomes [.md]; the rest is kept, a path without [.mdx] at its end as
    it is. *)
Theorem derivedRelativePath_drops_docsDir (doc : DocInfo)
    (c : ascii) (dir rel : string) (lead : nat) :
  c <> "/"%char ->
  path doc = Js.replicate lead "/" +:+ String c dir +:+ "/" +:+ rel ->
  derivedRelativePath doc (String c dir) = Re.forceMdExt rel
  /\ (forall stem, rel = stem +:+ ".mdx" ->
        derivedRelativePath doc (String c dir) = stem +:+ ".md")
  /\ ((forall stem, rel <> stem +:+ ".mdx") ->
      derivedRelativePath doc (String c dir) = rel).
Proof.
  intros Hc Hpath.
  assert (derivedRelativePath doc (String c dir) = Re.forceMdExt rel) as H.
  { unfold derivedRelativePath. cbv zeta. rewrite Hpath.
    unfold Re.stripLeadingSlashes.
    rewrite ReFacts.dropWhile_append_all by by apply JsFacts.all_replicate.
    assert (Js.dropWhile Js.isSlash (String c dir +:+ "/" +:+ rel)
            = String c dir +:+ "/" +:+ rel) as ->.
    { simpl. unfold Js.isSlash.
      by destruct (Ascii.eqb_spec c "/"). }
    assert (Re.forceMdExt (String c dir +:+ "/" +:+ rel)
            = (String c dir +:+ "/") +:+ Re.forceMdExt rel) as ->.
    { unfold Re.forceMdExt.
      change (String c dir +:+ "/" +:+ rel)
        with (String c dir +:+ String "/" rel).
      rewrite stripSuffix_after_slash.
      2:{ vm_compute. intros Hin.
          repeat (apply elem_of_cons in Hin as [Hin|Hin]; [done|]).
          by apply elem_of_nil in Hin. }
      destruct (Js.stripSuffix ".mdx" rel) as [r|]; simpl.
      - by rewrite !JsFacts.append_assoc.
      - by rewrite JsFacts.append_assoc. }
    by rewrite stripPrefix_append. }
  split; [done|]. rewrite H. unfold Re.forceMdExt. split.
  - intros stem Hstem. apply JsFacts.stripSuffix_Some in Hstem.
    by rewrite Hstem.
  - intros Hno. destruct (Js.stripSuffix ".mdx" rel) as [r|] eqn:E; [|done].
    apply JsFacts.stripSuffix_Some in E. by destruct (Hno r).
Qed.

Lemma derivedRelativePath_drops_docsDir_witness :
  derivedRelativePath (Fixture.doc "Intro" "//docs/guide/intro.mdx" None) "docs"
  = "guide/intro.md".
Proof.
  destruct (derivedRelativePath_drops_docsDir
              (Fixture.doc "Intro" "//docs/guide/intro.mdx" None)
              "d" "ocs" "guide/intro.mdx" 2 ltac:(discriminate) eq_refl)
    as (_ & H & _).
  exact (H "guide/intro" eq_refl).
Defined.

(** ** No file without a name *)

Lemma candidateRelativePath_nonempty
    (sanitizeForFilename : string -> string -> string)
    (doc : DocInfo) (docsDir : string) :
  let relativePath := candidateRelativePath sanitizeForFilename doc docsDir in
  relativePath <> EmptyString
  /\ (relativePath = ".md" ->
      sanitizeForFilename (title doc) "untitled" = EmptyString).
Proof.
  unfold candidateRelativePath. cbv zeta. case_decide as Hfallback.
  - split.
    + intros H. apply (f_equal String.length) in H.
      rewrite JsFacts.length_append in H. simpl in H. lia.
    + intros H. change ".md" with (EmptyString +:+ ".md") in H at 2.
      by apply append_inv_tail in H.
  - split; [tauto|]. intros H. tauto.
Qed.

Lemma numberToString_nonempty (n : Z) : Js.numberToString n <> EmptyString.
Proof.
  unfold Js.numberToString. intros H.
  apply (f_equal NilEmpty.int_of_string) in H.
  rewrite NilEmpty.isi in H. simpl in H. injection H as H.
  pose proof (f_equal Z.of_int H) as Hn. rewrite DecimalZ.of_to in Hn.
  rewrite Hn in H. vm_compute in H. discriminate H.
Qed.

(** A numbered candidate has a hyphen, a number, a dot and an extension. *)
Lemma length_numberedPath_min (relativePath : string) (n : Z) :
  4 <= String.length (numberedPath relativePath n).
Proof.
  unfold numberedPath. cbv zeta. rewrite !JsFacts.length_append.
  pose proof (numberToString_nonempty n) as Hnum.
  destruct (Js.numberToString n); [done|].
  destruct (last (Js.split "." relativePath)) as [[|c e]|]; simpl; lia.
Qed.

(** X20.  [generateIndividualMarkdownFiles] gives every file a path that
    is not empty, whatever the path, the slug, the id and the title of
    the document are: where the path that is derived is empty or
    [.md], the title takes its place.  When [sanitizeForFilename] never
    returns the empty string, no file is called [.md] either. *)
Theorem generateIndividualMarkdownFiles_paths_nonempty
    (sanitizeForFilename : string -> string -> string)
    (path_join : string -> string -> string)
    (markdownText : DocInfo -> list string -> string)
    (docs : list DocInfo) (outputDir siteUrl docsDir : string)
    (keepFrontMatter : list string) :
  exists files,
    generateIndividualMarkdownFiles sanitizeForFilename path_join markdownText
      docs outputDir siteUrl docsDir keepFrontMatter = Some files
    /\ Forall (fun f => uniquePath f <> EmptyString) files
    /\ ((forall input fallback,
           sanitizeForFilename input fallback <> EmptyString) ->
        Forall (fun f => uniquePath f <> ".md") files).
Proof.
  destruct (markdownFilesFrom_spec sanitizeForFilename path_join markdownText
              outputDir siteUrl docsDir keepFrontMatter docs ∅)
    as (files & Hfiles & HR & _ & _ & Hidx).
  exists files. split; [done|].
  assert (forall f, f ∈ files ->
            exists doc,
              uniquePath f = candidateRelativePath sanitizeForFilename doc docsDir
              \/ exists k,
                   uniquePath f
                   = numberedPath
                       (candidateRelativePath sanitizeForFilename doc docsDir)
                       k) as Hshape.
  { intros f Hf. apply list_elem_of_lookup in Hf as (i & Hi).
    destruct (Forall2_lookup_r _ _ _ _ _ HR Hi) as (doc & Hdoc & _).
    exists doc.
    destruct (Hidx i doc f Hdoc Hi) as [[? _]|(_ & k & _ & ? & _)];
      [by left|right; by eexists]. }
  split.
  - apply Forall_forall. intros f Hf.
    destruct (Hshape f Hf) as (doc & [->|(k & ->)]).
    + apply candidateRelativePath_nonempty.
    + intros H. apply (f_equal String.length) in H.
      pose proof (length_numberedPath
                    (candidateRelativePath sanitizeForFilename doc docsDir) k).
      simpl in H. lia.
  - intros Hsanitize. apply Forall_forall. intros f Hf.
    destruct (Hshape f Hf) as (doc & [->|(k & ->)]).
    + intros H. by apply candidateRelativePath_nonempty, Hsanitize in H.
    + intros H. apply (f_equal String.length) in H.
      pose proof (length_numberedPath_min
                    (candidateRelativePath sanitizeForFilename doc docsDir) k).
      simpl in H. lia.
Qed.

(** ** The order of the subdirectory sections *)

(** X21.  The subdirectories of a category whose sections are written are
    those of its documents.  When every one of them has a descriptor, or
    none has, the comparator of the subdirectories is consistent and the
    sections come in ascending position of the descriptors and, where the
    positions are equal, in the order of [localeCompare] on the names of
    the subdirectories; section [i] opens with the title of subdirectory
    [i] of that order.  (When only some of them have a descriptor the
    comparator is not consistent, and nothing is stated of the order.) *)
Theorem subdir_sections_order (localeCompare : string -> string -> Z)
    (toUpperCase : string -> string)
    (localeCompare_total : TotalCompare localeCompare)
    (includeDescriptionInLinks : bool)
    (subdirMetadataMap : gmap string CategoryMetadata)
    (docsBySubdir : list (option string * list DocInfo)) :
  let subdirs := sortedSubdirs localeCompare subdirMetadataMap docsBySubdir in
  let sections :=
    subdirSections localeCompare toUpperCase includeDescriptionInLinks
      subdirMetadataMap docsBySubdir in
  subdirs ≡ₚ omap (fun s => s) (mapKeys docsBySubdir)
  /\ ((forall s, Some s ∈ mapKeys docsBySubdir ->
                 is_Some (subdirMetadataMap !! s))
      \/ (forall s, Some s ∈ mapKeys docsBySubdir ->
                    subdirMetadataMap !! s = None) ->
      StronglySorted (nameOrder localeCompare subdirMetadataMap) subdirs
      /\ length sections = length subdirs
      /\ forall (i : nat) (s : string),
           subdirs !! i = Some s ->
           exists items,
             sections !! i
             = Some ("### "
                       +:+ displayTitle toUpperCase (subdirMetadataMap !! s) s
                       +:+ nl +:+ nl +:+ items)).
Proof.
  intros subdirs sections. split; [apply sortedSubdirs_Permutation|].
  intros Huniform. split; [|split].
  - unfold subdirs, sortedSubdirs. rewrite compareSubdirs_eq.
    apply (arraySort_compareCategories_sorted localeCompare
             localeCompare_total subdirMetadataMap
             (fun s => Some s ∈ mapKeys docsBySubdir) Huniform).
    apply Forall_forall. intros s Hs.
    apply list_elem_of_omap in Hs as (y & Hy & ->). done.
  - unfold sections, subdirSections. by rewrite length_fmap.
  - intros i s Hs. unfold sections, subdirSections. fold subdirs.
    rewrite list_lookup_fmap, Hs. simpl. by eexists.
Qed.

(** X21 on three subdirectories that all have a descriptor: [release-notes],
    of position 1, comes before [guides] and [api], of position 2, which
    come in the order of their names. *)
Lemma subdir_sections_order_witness :
  let m : gmap string CategoryMetadata :=
    <["api" := {| position := 2; label := None |}]>
      (<["guides" := {| position := 2; label := None |}]>
         (<["release-notes" := {| position := 1; label := None |}]> ∅)) in
  let docsBySubdir : list (option string * list DocInfo) :=
    [(Some "guides", [Fixture.doc "G" "docs/a/c/guides/g" None]);
     (None, [Fixture.doc "R" "docs/a/c/r" None]);
     (Some "release-notes", [Fixture.doc "U" "docs/a/c/release-notes/u" None]);
     (Some "api", [Fixture.doc "A" "docs/a/c/api/a" None])] in
  sortedSubdirs Fixture.codeUnitCompare m docsBySubdir
  = ["release-notes"; "api"; "guides"]
  /\ StronglySorted (nameOrder Fixture.codeUnitCompare m)
       (sortedSubdirs Fixture.codeUnitCompare m docsBySubdir).
Proof.
  intros m docsBySubdir.
  split.
  - vm_compute. reflexivity.
  - apply (subdir_sections_order Fixture.codeUnitCompare
             Fixture.asciiUpperCase codeUnitCompare_total true m docsBySubdir).
    left. intros s Hs. unfold docsBySubdir, mapKeys in Hs.
    cbn [fmap list_fmap fst] in Hs.
    repeat (apply elem_of_cons in Hs as [Hs|Hs];
            [try discriminate Hs; injection Hs as ->; by eexists|]).
    by apply elem_of_nil in Hs.
Defined.
